(** * SurveyScriber web client: the batch-extraction orchestration core

    A shallow embedding of the client-side orchestration code of the
    SurveyScriber front end:

    - [frontend/src/api/backend.js]: [uploadImages], [uploadImagesChunked],
      [extractBatch], [extractBatchAsync], [getJobStatus], [pollJobStatus],
      [getDefaultErrorMessage];
    - the [App] component: [LIMITS], [shouldUseAsync], [buildSchema],
      [handleExtract], [handleTerminate], [getWarningLevel],
      [formatElapsedTime];
    - the settings store kept in [localStorage]: [getStoredSettings],
      [saveSettings], [clearAllSettings], [hasApiKey], [getApiKey],
      [getAuthHeaders];
    - the editors of the field list and of the file list: [addField],
      [updateField], [removeField] of [SchemaEditor], [removeFile] of
      [ImageUploader].

    JavaScript strings are sequences of UTF-16 code units, numbers are
    IEEE 754 binary64 values, objects are finite maps of own properties,
    with the order in which the properties were created and a prototype,
    and the asynchronous functions run in a small state-and-exception monad
    over a scripted network: the world holds the replies the server will
    give, in order, and the trace of everything the client did. *)

From Stdlib Require Import String Ascii QArith Qround Sorted.
From Stdlib Require Import PrimFloat FloatOps SpecFloat.
From stdpp Require Import base option list gmap pretty.

Set Default Proof Using "Type".
Local Open Scope Z_scope.

(** ** JavaScript strings *)

Module JsString.

(** A string is its sequence of UTF-16 code units. *)
Abbreviation jschar := N (only parsing).
Abbreviation jsstring := (list N) (only parsing).

(** String literals of the source, all ASCII. *)
Definition js (s : String.string) : jsstring :=
  List.map Ascii.N_of_ascii (String.list_ascii_of_string s).
Arguments js s%_string.

(** Truthiness of a string: every string but the empty one. *)
Definition nonempty (s : jsstring) : bool :=
  match s with [] => false | _ :: _ => true end.

Definition eqb (s t : jsstring) : bool := bool_decide (s = t).

(** [s.startsWith(p)] *)
Fixpoint startsWith (p s : jsstring) : bool :=
  match p, s with
  | [], _ => true
  | _ :: _, [] => false
  | a :: p', b :: s' => (a =? b)%N && startsWith p' s'
  end.

(** [s.split(sep)] for a separator of one code unit: the segments between
    the occurrences of [sep], empty segments included; never empty. *)
Fixpoint split (sep : jschar) (s : jsstring) : list jsstring :=
  match s with
  | [] => [[]]
  | c :: r =>
      if (c =? sep)%N then [] :: split sep r
      else match split sep r with
           | h :: t => (c :: h) :: t
           | [] => [[c]]
           end
  end.

(** WhiteSpace and LineTerminator code units of ECMAScript, the ones
    [String.prototype.trim] strips. *)
Definition is_space (c : jschar) : bool :=
  ((9 <=? c) && (c <=? 13) || (c =? 32) || (c =? 160) || (c =? 5760)
   || (8192 <=? c) && (c <=? 8202) || (c =? 8232) || (c =? 8233)
   || (c =? 8239) || (c =? 8287) || (c =? 12288) || (c =? 65279))%N.

Fixpoint trimStart (s : jsstring) : jsstring :=
  match s with
  | c :: r => if is_space c then trimStart r else s
  | [] => []
  end.

Definition trimEnd (s : jsstring) : jsstring := rev (trimStart (rev s)).

(** [s.trim()] *)
Definition trim (s : jsstring) : jsstring := trimEnd (trimStart s).

Definition colon : jschar := 58%N.

End JsString.
Import JsString.

(** ** JavaScript numbers *)

(** A number is an IEEE 754 binary64 value; [+], [*] and [/] of the source
    are the operations of binary64, round to nearest, ties to even. *)

(** The binary64 value nearest to [n / d], with the sign given. *)
Definition binary64_of_ratio (negative : bool) (n : N) (d : positive) : float :=
  match n with
  | N0 => if negative then (-0)%float else 0%float
  | Npos m =>
      SF2Prim (SFdiv prec emax (S754_finite negative m 0) (S754_finite false d 0))
  end.

(** The Number value for an integer. *)
Definition binary64_of_Z (z : Z) : float :=
  binary64_of_ratio (z <? 0) (Z.abs_N z) 1.

(** [Math.round(x)]: the integer nearest to [x], a tie going toward
    positive infinity; [NaN], the infinities and the zeros are returned as
    they are, and what rounds to zero from below is [-0]. *)
Definition Math_round (x : float) : float :=
  match Prim2SF x with
  | S754_finite s m e =>
      if 0 <=? e then x
      else
        let magnitude := (Zpos m # Pos.pow 2 (Z.to_pos (- e))) in
        let r := Qfloor ((if s then Qopp magnitude else magnitude) + (1 # 2))%Q in
        if r =? 0 then (if s then (-0)%float else 0%float) else binary64_of_Z r
  | _ => x
  end.

(** The value of the digit [c] in the given radix, when it is one. *)
Definition digit_value (radix : N) (c : jschar) : option N :=
  let v := if ((48 <=? c) && (c <=? 57))%N then Some (c - 48)%N
           else if ((97 <=? c) && (c <=? 102))%N then Some (c - 87)%N
           else if ((65 <=? c) && (c <=? 70))%N then Some (c - 55)%N
           else None in
  match v with
  | Some d => if (d <? radix)%N then Some d else None
  | None => None
  end.

(** The longest prefix of digits of [s], as their values, and the rest. *)
Fixpoint digits (radix : N) (s : jsstring) : list N * jsstring :=
  match s with
  | c :: r =>
      match digit_value radix c with
      | Some d => let '(ds, rest) := digits radix r in (d :: ds, rest)
      | None => ([], s)
      end
  | [] => ([], [])
  end.

Definition digits_value (radix : N) (ds : list N) : N :=
  fold_left (fun acc d => acc * radix + d)%N ds 0%N.

(** [m * 10^e], rounded to binary64. *)
Definition binary64_of_decimal (negative : bool) (m : N) (e : Z) : float :=
  match e with
  | Zneg p => binary64_of_ratio negative m (Pos.pow 10 p)
  | _ => binary64_of_ratio negative (m * 10 ^ Z.to_N e) 1
  end.

(** The [ExponentPart] of a decimal literal, which may be absent, up to the
    end of the string: [e] or [E], a sign or none, and digits. *)
Definition exponent_part (s : jsstring) : option Z :=
  match s with
  | [] => Some 0
  | c :: r =>
      if ((c =? 101) || (c =? 69))%N then
        let '(negative, r') :=
          match r with
          | 43%N :: t => (false, t)
          | 45%N :: t => (true, t)
          | _ => (false, r)
          end in
        match digits 10 r' with
        | ((_ :: _) as ds, []) =>
            let v := Z.of_N (digits_value 10 ds) in
            Some (if negative then - v else v)
        | _ => None
        end
      else None
  end.

(** [StrUnsignedDecimalLiteral]: [Infinity], or digits with an optional
    fraction and exponent, at least one digit before or after the point. *)
Definition unsigned_decimal (negative : bool) (s : jsstring) : float :=
  if JsString.eqb s (js "Infinity") then
    (if negative then neg_infinity else infinity)
  else
    let '(int_digits, r1) := digits 10 s in
    let '(frac_digits, r2) :=
      match r1 with
      | 46%N :: r => digits 10 r
      | _ => ([], r1)
      end in
    match int_digits ++ frac_digits, exponent_part r2 with
    | (_ :: _) as ds, Some e =>
        binary64_of_decimal negative (digits_value 10 ds)
          (e - Z.of_nat (length frac_digits))
    | _, _ => nan
    end.

(** [NonDecimalIntegerLiteral], after its prefix. *)
Definition non_decimal (radix : N) (s : jsstring) : float :=
  match digits radix s with
  | ((_ :: _) as ds, []) => binary64_of_ratio false (digits_value radix ds) 1
  | _ => nan
  end.

(** [StringToNumber(s)]: white space is trimmed; the empty string is [0]; a
    signed decimal literal or an unsigned hexadecimal, octal or binary
    integer literal is its value, rounded; anything else is [NaN]. *)
Definition StringToNumber (s : jsstring) : float :=
  match trim s with
  | [] => 0%float
  | (48%N :: c :: r) as t =>
      if ((c =? 120) || (c =? 88))%N then non_decimal 16 r
      else if ((c =? 111) || (c =? 79))%N then non_decimal 8 r
      else if ((c =? 98) || (c =? 66))%N then non_decimal 2 r
      else unsigned_decimal false t
  | 43%N :: r => unsigned_decimal false r
  | 45%N :: r => unsigned_decimal true r
  | t => unsigned_decimal false t
  end.

(** ** JavaScript values and objects *)

(** The values that cross the interfaces modelled here.  [VBuiltin k] is
    the function or object that [Object.prototype] holds under the name
    [k]; [VOpaque tag text] is any other object or array, whose content the
    code modelled here passes along without looking inside: [text] is the
    string that converting it to a primitive gives, which is all the
    arithmetic of the source can see of it ([[object Object]] for an object
    of parsed JSON, the elements joined by commas for an array). *)
Inductive jsval :=
| VUndefined
| VNull
| VBool (b : bool)
| VNum (x : float)
| VStr (s : jsstring)
| VBuiltin (k : jsstring)
| VOpaque (tag : N) (text : jsstring).

(** Number literals of the source, and the counts it takes from the
    lengths of arrays. *)
Definition of_Z (z : Z) : jsval := VNum (binary64_of_Z z).
Definition of_nat (n : nat) : jsval := VNum (binary64_of_Z (Z.of_nat n)).

(** [if (v)], [!v], [v || w] *)
Definition truthy (v : jsval) : bool :=
  match v with
  | VUndefined | VNull => false
  | VBool b => b
  | VNum x => negb (PrimFloat.is_zero x || PrimFloat.is_nan x)
  | VStr s => nonempty s
  | VBuiltin _ | VOpaque _ _ => true
  end.

Definition js_or (v w : jsval) : jsval := if truthy v then v else w.

(** [v === "literal"] *)
Definition strict_eq_str (v : jsval) (s : jsstring) : bool :=
  match v with VStr t => JsString.eqb t s | _ => false end.

(** [ToNumber(v)], the conversion the arithmetic operators apply to their
    operands.  A function or an object goes through its string. *)
Definition ToNumber (v : jsval) : float :=
  match v with
  | VUndefined => nan
  | VNull => 0%float
  | VBool b => if b then 1%float else 0%float
  | VNum x => x
  | VStr s => StringToNumber s
  | VBuiltin _ => nan
  | VOpaque _ text => StringToNumber text
  end.

(** An ordinary object: its own properties; whether its prototype is
    still [Object.prototype] (as for an object literal or a parsed JSON
    object) or has been set to [null]; and the names of its own properties
    in the order in which they were created. *)
Record jsobj := JsObj {
  own : gmap (list N) jsval;
  proto_null : bool;
  created : list (list N)
}.

(** The property names every object inherits from [Object.prototype]; each
    names a function, except [__proto__], an accessor that returns the
    prototype object. *)
Definition Object_prototype_names : list jsstring :=
  map js [ "constructor"; "hasOwnProperty"; "isPrototypeOf";
           "propertyIsEnumerable"; "toLocaleString"; "toString"; "valueOf";
           "__defineGetter__"; "__defineSetter__"; "__lookupGetter__";
           "__lookupSetter__"; "__proto__" ]%string.

Definition inherited (k : jsstring) : bool :=
  bool_decide (k ∈ Object_prototype_names).

(** [o[k]]: own properties first, then the prototype chain. *)
Definition js_get (o : jsobj) (k : jsstring) : jsval :=
  match own o !! k with
  | Some v => v
  | None =>
      if proto_null o then VUndefined
      else if inherited k then VBuiltin k else VUndefined
  end.

(** Defining the own data property [k] of [o]: a property that exists
    keeps its place in the order and takes the new value, a new one comes
    last. *)
Definition js_define (o : jsobj) (k : jsstring) (v : jsval) : jsobj :=
  JsObj (<[k := v]> (own o)) (proto_null o)
        (match own o !! k with
         | Some _ => created o
         | None => created o ++ [k]
         end).

(** [o[k] = null] on an ordinary extensible object: an own data property
    is created or overwritten, except that [__proto__], while the object
    still inherits that accessor from [Object.prototype], calls its setter,
    which sets the prototype of [o] to [null] and creates no property. *)
Definition js_set_null (o : jsobj) (k : jsstring) : jsobj :=
  if JsString.eqb k (js "__proto__") && negb (proto_null o)
  then JsObj (own o) true (created o)
  else js_define o k VNull.

(** [{}] and object literals [{k1: v1, ...}], the properties defined from
    left to right. *)
Definition empty_object : jsobj := JsObj ∅ false [].

Definition object_literal (kvs : list (jsstring * jsval)) : jsobj :=
  fold_left (fun o kv => js_define o (fst kv) (snd kv)) kvs empty_object.

(** [Object.keys(o).length], which is also the number of members of
    [JSON.stringify(o)] when no value is [undefined] or a function. *)
Definition own_key_count (o : jsobj) : nat := size (own o).




(** ** Errors *)

(** An [Error] object.  [err_message] holds the argument the constructor
    was given; the message proper is its string conversion, which for a
    string is the string itself.  [err_errorType] is the property the poller
    adds, [undefined] on every other error. *)
Record js_error := JsError {
  err_name : list N;
  err_message : jsval;
  err_errorType : jsval
}.

(** [new Error(m)] *)
Definition new_Error (m : jsval) : js_error := JsError (js "Error") m VUndefined.

(** The [TypeError] of a failed [fetch] or of a call of something that is not
    a function, and the [SyntaxError] of [response.json()] on a body that is
    not JSON. *)
Definition TypeError (m : String.string) : js_error :=
  JsError (js "TypeError") (VStr (js m)) VUndefined.
Definition SyntaxError : js_error :=
  JsError (js "SyntaxError") (VStr (js "Unexpected token in JSON")) VUndefined.

(** ** The network and the user interface *)

(** A [File] of the browser; the code never looks inside one. *)
Record File := { file_name : list N }.

(** What [fetch] resolves with: the HTTP status and the body, [None] when
    the body does not parse as a JSON object. *)
Record response := Resp {
  status : N;
  body : option jsobj
}.

(** [response.ok] *)
Definition ok (r : response) : bool := ((200 <=? status r) && (status r <=? 299))%N.

(** [response.json()] *)
Definition json (r : response) : js_error + jsobj :=
  match body r with
  | Some o => inr o
  | None => inl SyntaxError
  end.

(** What happens to one [fetch]: the promise rejects (no connection), or
    resolves with a response. *)
Inductive reply :=
| NetworkError
| Response (r : response).

(** The requests of [backend.js].  An upload carries the files appended to
    the form and the [batch_id] field when one was appended. *)
Inductive request :=
| POST_upload_images (files : list File) (batch_id : option jsval)
| POST_extract_batch (batch_id : jsval) (schema : jsobj) (custom_filename : jsval)
| POST_extract_batch_async (batch_id : jsval) (schema : jsobj) (custom_filename : jsval)
| GET_extract_batch_status (job_id : jsval).

(** The value of the [progress] state of [App]. *)
Record progress := Progress {
  processed : jsval;
  total : jsval;
  percentage : jsval;
  stage : jsval;
  backendStage : jsval
}.

(** The texts [App] shows through [setStatus] and [setError], by kind. *)
Inductive status_text :=
| StatusUploading (n : nat)
| StatusUploadingOf (uploaded total : nat)
| StatusQueuing
| StatusProcessing (processed total percentage : jsval)
| StatusRunningSync (n : nat)
| StatusComplete
| StatusCancelled
| StatusTerminated
| StatusNone.

Inductive icon := IconCross | IconWarning | IconCard | IconKey | IconPage.

Inductive error_text :=
| PleaseUploadAnImage
| PleaseDefineAField
| CancelledByUser
| Failure (i : icon) (message : jsval).

(** The state setters of [App] that the extraction workflow calls. *)
Inductive ui_update :=
| setError (e : option error_text)
| setLoading (b : bool)
| setResult (r : option (jsval * jsval * jsval))
| setProgress (p : option progress)
| setStatus (s : status_text)
| setStartTime (running : bool)
| setAbortController (set : bool).

(** Everything the client does that can be seen from outside. *)
Inductive event :=
| Fetch (r : request)
| SetTimeout (ms : N)
| UploadProgress (uploaded total : nat)
| PollProgress (st : jsobj)
| Ui (u : ui_update)
| Abort.

(** The world an asynchronous function runs in: the replies still to come,
    one per [fetch], in order; what has happened so far, oldest first; the
    [abortController] state of [App] (whether it holds the controller of the
    running extraction) and the [aborted] flag of that controller's signal;
    and the user, who may press the Terminate button while the [fetch]
    numbered [terminate_during] (from 0) is in flight. *)
Record world := World {
  replies : list reply;
  trace : list event;
  abortController : bool;
  signal_aborted : bool;
  terminate_during : option nat
}.

Definition emit (e : event) (w : world) : world :=
  World (replies w) (trace w ++ [e]) (abortController w) (signal_aborted w)
        (terminate_during w).

Definition fetches (t : list event) : list request :=
  omap (fun e => match e with Fetch r => Some r | _ => None end) t.

(** ** The monad of asynchronous functions

    A computation ends with a value, ends with a thrown error (a rejected
    promise), or stays pending for ever because the script of replies is
    exhausted. *)
Inductive outcome (A : Type) :=
| Returned (a : A)
| Thrown (e : js_error)
| Pending.
Arguments Returned {A} a.
Arguments Thrown {A} e.
Arguments Pending {A}.

Definition Async (A : Type) : Type := world -> outcome A * world.

#[global] Instance Async_ret : MRet Async := fun A a w => (Returned a, w).
#[global] Instance Async_bind : MBind Async := fun A B f m w =>
  match m w with
  | (Returned a, w') => f a w'
  | (Thrown e, w') => (Thrown e, w')
  | (Pending, w') => (Pending, w')
  end.

Definition throw {A} (e : js_error) : Async A := fun w => (Thrown e, w).

Definition log (e : event) : Async unit := fun w => (Returned tt, emit e w).

Definition emits (es : list event) : Async unit := fun w =>
  (Returned tt, fold_left (fun w e => emit e w) es w).

(** [try { m } catch (e) { h(e) }] *)
Definition try_catch {A} (m : Async A) (h : js_error -> Async A) : Async A :=
  fun w =>
    match m w with
    | (Thrown e, w') => h e w'
    | r => r
    end.

(** [try { m } finally { f }] *)
Definition try_finally {A} (m : Async A) (f : Async unit) : Async A :=
  fun w =>
    match m w with
    | (Pending, w') => (Pending, w')
    | (r, w') =>
        match f w' with
        | (Returned _, w'') => (r, w'')
        | (Thrown e, w'') => (Thrown e, w'')
        | (Pending, w'') => (Pending, w'')
        end
    end.

(** [handleTerminate]: with a controller in the state, it aborts the
    controller's signal and resets the display; without one it does
    nothing. *)
Definition handleTerminate (w : world) : world :=
  if abortController w then
    let w1 := emit Abort w in
    let w2 := World (replies w1) (trace w1) false true (terminate_during w1) in
    emit (Ui (setProgress None))
      (emit (Ui (setStatus StatusTerminated))
         (emit (Ui (setLoading false))
            (emit (Ui (setAbortController false)) w2)))
  else w.

(** A request goes out; while it is in flight the user may press
    Terminate, and [handleTerminate] runs. *)
Definition send (req : request) (w : world) : world :=
  let n := length (fetches (trace w)) in
  let w1 := emit (Fetch req) w in
  if bool_decide (terminate_during w1 = Some n) then handleTerminate w1 else w1.

(** [await fetch(url, init)], with no [signal] in [init]: the request goes
    out, then the next reply of the script settles the promise. *)
Definition fetch (req : request) : Async response := fun w =>
  let w2 := send req w in
  match replies w2 with
  | [] => (Pending, w2)
  | r :: rs =>
      let w3 := World rs (trace w2) (abortController w2) (signal_aborted w2)
                      (terminate_during w2) in
      match r with
      | NetworkError => (Thrown (TypeError "Failed to fetch"), w3)
      | Response r => (Returned r, w3)
      end
  end.

(** [await response.json()] *)
Definition await_json (r : response) : Async jsobj :=
  match json r with
  | inl e => throw e
  | inr o => mret o
  end.

(** ** [api/backend.js] *)

Definition CHUNK_SIZE : nat := 100.

(** A progress callback is modelled by the state updates of [App] it
    performs when called, which is all the callbacks of [App] do.  Calling a
    callback parameter that may be [null] ([if (onProgress) onProgress(...)])
    records the call and performs its updates. *)
Definition upload_callback_t : Type := nat -> nat -> list ui_update.
Definition poll_callback_t : Type := jsobj -> list ui_update.

Definition call_upload_progress (onProgress : option upload_callback_t)
    (uploaded total : nat) : Async unit :=
  match onProgress with
  | Some f => emits (UploadProgress uploaded total :: map Ui (f uploaded total))
  | None => mret tt
  end.

Definition call_poll_progress (onProgress : option poll_callback_t)
    (st : jsobj) : Async unit :=
  match onProgress with
  | Some f => emits (PollProgress st :: map Ui (f st))
  | None => mret tt
  end.

(** [uploadImages(files, onProgress = null)]: one form with every file, one
    request.  The parameter [onProgress] is not used in the body. *)
Definition uploadImages (files : list File)
    (onProgress : option upload_callback_t) : Async jsobj :=
  response ← fetch (POST_upload_images files None);
  if negb (ok response)
  then throw (new_Error (VStr (js "Failed to upload images")))
  else await_json response.

(** The text of the error for a failed chunk:
    [`Failed to upload chunk ${Math.floor(i / CHUNK_SIZE) + 1}`]. *)
Definition failed_chunk_message (i : nat) : jsval :=
  VStr (js ("Failed to upload chunk " ++ pretty (i / CHUNK_SIZE + 1)%nat)).

(** [if (!batchId) { batchId = result.batch_id; }] *)
Definition next_batchId (batchId : jsval) (result : jsobj) : jsval :=
  if negb (truthy batchId) then js_get result (js "batch_id") else batchId.

(** [if (batchId) { formData.append("batch_id", batchId); }] *)
Definition batch_id_field (batchId : jsval) : option jsval :=
  if truthy batchId then Some batchId else None.

(** The [for] loop of [uploadImagesChunked], from index [i] on, with the
    current values of [batchId] and [uploadedCount]; it ends with their
    final values.  [fuel] bounds the number of iterations. *)
Fixpoint upload_chunks (fuel : nat) (files : list File)
    (onProgress : option upload_callback_t)
    (i : nat) (batchId : jsval) (uploadedCount : nat) : Async (jsval * nat) :=
  match fuel with
  | O => fun w => (Pending, w)
  | S fuel' =>
      if (i <? length files)%nat then
        let chunk := take CHUNK_SIZE (drop i files) in
        response ← fetch (POST_upload_images chunk (batch_id_field batchId));
        if negb (ok response) then throw (new_Error (failed_chunk_message i))
        else
          result ← await_json response;
          let batchId := next_batchId batchId result in
          let uploadedCount := (uploadedCount + length chunk)%nat in
          _ ← call_upload_progress onProgress uploadedCount (length files);
          upload_chunks fuel' files onProgress (i + CHUNK_SIZE)%nat batchId
            uploadedCount
      else mret (batchId, uploadedCount)
  end.

(** [uploadImagesChunked(files, onProgress = null)].  Every iteration of the
    loop advances by [CHUNK_SIZE], so [length files] iterations are never
    exceeded. *)
Definition uploadImagesChunked (files : list File)
    (onProgress : option upload_callback_t) : Async jsobj :=
  if (length files <=? CHUNK_SIZE)%nat then uploadImages files onProgress
  else
    '(batchId, _) ← upload_chunks (length files) files onProgress 0 VNull 0;
    mret (object_literal
            [ (js "batch_id", batchId);
              (js "file_count", of_nat (length files)) ]).

(** [extractBatch(batchId, schema, customFilename = null)] *)
Definition extractBatch (batchId : jsval) (schema : jsobj)
    (customFilename : jsval) : Async jsobj :=
  response ← fetch (POST_extract_batch batchId schema customFilename);
  if negb (ok response)
  then throw (new_Error (VStr (js "Failed to extract batch")))
  else await_json response.

(** [extractBatchAsync(batchId, schema, customFilename = null)] *)
Definition extractBatchAsync (batchId : jsval) (schema : jsobj)
    (customFilename : jsval) : Async jsobj :=
  response ← fetch (POST_extract_batch_async batchId schema customFilename);
  if negb (ok response)
  then throw (new_Error (VStr (js "Failed to queue extraction job")))
  else await_json response.

Definition not_found_status : jsobj :=
  object_literal [ (js "status", VStr (js "not_found")) ].

(** [getJobStatus(jobId)] *)
Definition getJobStatus (jobId : jsval) : Async jsobj :=
  response ← fetch (GET_extract_batch_status jobId);
  if negb (ok response) then
    if (status response =? 404)%N then mret not_found_status
    else throw (new_Error (VStr (js "Failed to get job status")))
  else await_json response.

(** The message table of [getDefaultErrorMessage], an object literal. *)
Definition messages : jsobj :=
  object_literal
    [ (js "rate_limit",
       VStr (js "API rate limit exceeded. Please wait a moment and try again."));
      (js "insufficient_credits",
       VStr (js "API credits exhausted. Please add credits to your account or switch to a different AI provider in Settings."));
      (js "invalid_key",
       VStr (js "API key is invalid or expired. Please check your API key in Settings."));
      (js "no_valid_data",
       VStr (js "No text could be extracted from the images. Please try with clearer images."));
      (js "unknown",
       VStr (js "An unexpected error occurred during extraction.")) ].

(** [getDefaultErrorMessage(errorType)]:
    [messages[errorType] || messages["unknown"]]. *)
Definition getDefaultErrorMessage (errorType : list N) : jsval :=
  js_or (js_get messages errorType) (js_get messages (js "unknown")).

(** [status.status.split(":")[1] || "unknown"], for a status that is a
    string. *)
Definition errorType_of (s : list N) : list N :=
  match split colon s !! 1%nat with
  | Some k => if nonempty k then k else js "unknown"
  | None => js "unknown"
  end.

(** The error the poller rejects with for an error status. *)
Definition poll_error (st : jsobj) (s : list N) : js_error :=
  let errorType := errorType_of s in
  let errorMessage :=
    js_or (js_get st (js "error_message")) (getDefaultErrorMessage errorType) in
  JsError (js "Error") errorMessage (VStr errorType).

(** What the chain of tests in [poll] makes of [status.status]:
    [=== "completed"]; then [?.startsWith("error")], which is [undefined]
    on [undefined] and [null], the method on a string, and a [TypeError] on
    any other value, which has no such method; then [=== "not_found"]. *)
Inductive status_kind :=
| IsCompleted
| IsError (s : list N)
| IsNotFound
| IsOther
| IsBroken (e : js_error).

Definition classify (v : jsval) : status_kind :=
  if strict_eq_str v (js "completed") then IsCompleted
  else
    match v with
    | VUndefined | VNull => IsOther
    | VStr s =>
        if startsWith (js "error") s then IsError s
        else if JsString.eqb s (js "not_found") then IsNotFound
        else IsOther
    | _ => IsBroken (TypeError "status.status.startsWith is not a function")
    end.

(** The function [poll] inside [pollJobStatus]: one tick, and, after
    [setTimeout(poll, intervalMs)], the ticks that follow.  Resolving the
    promise is returning, rejecting it is throwing; the [catch] clause
    rejects with whatever the [try] block threw.  [fuel] bounds the number
    of ticks. *)
Fixpoint poll (fuel : nat) (jobId : jsval)
    (onProgress : option poll_callback_t) (intervalMs : N)
  : Async jsobj :=
  match fuel with
  | O => fun w => (Pending, w)
  | S fuel' =>
      st ← getJobStatus jobId;
      _ ← call_poll_progress onProgress st;
      match classify (js_get st (js "status")) with
      | IsCompleted => mret st
      | IsError s => throw (poll_error st s)
      | IsNotFound => throw (new_Error (VStr (js "Job not found")))
      | IsBroken e => throw e
      | IsOther =>
          _ ← log (SetTimeout intervalMs);
          poll fuel' jobId onProgress intervalMs
      end
  end.

(** [pollJobStatus(jobId, onProgress = null, intervalMs = 2000)].  Every
    tick consumes one reply, so more ticks than replies are never needed. *)
Definition pollJobStatus (jobId : jsval)
    (onProgress : option poll_callback_t) (intervalMs : N)
  : Async jsobj :=
  fun w => poll (S (length (replies w))) jobId onProgress intervalMs w.

Definition default_intervalMs : N := 2000.

(** ** The [App] component *)

(** [LIMITS] *)
Definition LIMITS_syncMax : nat := 0.
Definition LIMITS_recommended : nat := 500.
Definition LIMITS_warning : nat := 2000.
Definition LIMITS_danger : nat := 5000.

(** [shouldUseAsync(imageCount)], which reads the state [processingMode]. *)
Definition shouldUseAsync (processingMode : list N) (imageCount : nat) : bool :=
  if JsString.eqb processingMode (js "sync") then false
  else if JsString.eqb processingMode (js "async") then true
  else (LIMITS_syncMax <? imageCount)%nat.

(** [buildSchema(fields)]: [forEach] visits the fields in order. *)
Definition buildSchema (fields : list (list N)) : jsobj :=
  fold_left
    (fun schema f =>
       if nonempty (trim f) then js_set_null schema (trim f) else schema)
    fields empty_object.

(** [Math.round((uploaded / total) * 30)], the percentage the upload
    callback of [handleExtract] computes from the two counts. *)
Definition uploadPct (uploaded total : nat) : float :=
  Math_round (binary64_of_Z (Z.of_nat uploaded)
              / binary64_of_Z (Z.of_nat total) * 30)%float.

(** [30 + Math.round((p / 100) * 70)] on a number [p]. *)
Definition extractPct (p : float) : float :=
  (30 + Math_round (p / 100 * 70))%float.

(** [30 + Math.round((progressData.percentage / 100) * 70)], the percentage
    the polling callback of [handleExtract] computes: the division converts
    its left operand to a number first. *)
Definition extractPct_of (percentage : jsval) : jsval :=
  VNum (extractPct (ToNumber percentage)).

Definition ui (u : ui_update) : Async unit := log (Ui u).

(** [setAbortController(c)], which also changes what [handleTerminate]
    finds in the state. *)
Definition set_abortController (c : bool) : Async unit := fun w =>
  (Returned tt,
   emit (Ui (setAbortController c))
     (World (replies w) (trace w) c (signal_aborted w) (terminate_during w))).

(** [new AbortController()]: a fresh signal, not aborted. *)
Definition new_AbortController : Async unit := fun w =>
  (Returned tt,
   World (replies w) (trace w) (abortController w) false (terminate_during w)).

(** [handleProgressUpdate(progressData)] *)
Definition handleProgressUpdate (progressData : jsobj) : list ui_update :=
  let jobStatus := js_get progressData (js "status") in
  setProgress (Some
    (Progress (js_get progressData (js "processed"))
              (js_get progressData (js "total"))
              (js_get progressData (js "percentage"))
              (js_get progressData (js "stage"))
              (js_get progressData (js "stage"))))
  :: (if strict_eq_str jobStatus (js "processing") then
        [ setStatus (StatusProcessing (js_get progressData (js "processed"))
                       (js_get progressData (js "total"))
                       (js_get progressData (js "percentage"))) ]
      else if strict_eq_str jobStatus (js "completed") then
        [ setStatus StatusComplete ]
      else []).

(** The callback [handleExtract] hands to [uploadImagesChunked]. *)
Definition upload_callback : upload_callback_t := fun uploaded total =>
  let pct := uploadPct uploaded total in
  [ setProgress (Some
      (Progress (of_nat uploaded) (of_nat total) (VNum pct)
                (VStr (js "upload")) VUndefined));
    setStatus (StatusUploadingOf uploaded total) ].

(** The callback [handleExtract] hands to [pollJobStatus]. *)
Definition poll_callback : poll_callback_t := fun progressData =>
  let extractPct := extractPct_of (js_get progressData (js "percentage")) in
  setProgress (Some
    (Progress (js_get progressData (js "processed"))
              (js_get progressData (js "total"))
              extractPct
              (VStr (js "extraction"))
              (js_get progressData (js "stage"))))
  :: handleProgressUpdate progressData.

(** The icon the [catch] clause of [handleExtract] picks from
    [err.errorType || '']. *)
Definition icon_of (errorType : jsval) : icon :=
  if strict_eq_str errorType (js "rate_limit") then IconWarning
  else if strict_eq_str errorType (js "insufficient_credits") then IconCard
  else if strict_eq_str errorType (js "invalid_key") then IconKey
  else if strict_eq_str errorType (js "no_valid_data") then IconPage
  else IconCross.

(** The inputs of one run of [handleExtract]: the state of [App] it reads,
    and the file name [generateDefaultFilename()] would build from the
    clock.  [outputFolder] is taken to be unset, as it is initially, so the
    auto-save step is skipped; the result handed to [setResult] is kept as
    the three fields of the server's answer it is built from. *)
Record extract_input := {
  files : list File;
  schemaFields : list (list N);
  processingMode : list N;
  customFilename : list N;
  defaultFilename : list N
}.

(** The emoji that ends the first stage text, as its two code units. *)
Definition praying_hands : list N := [55357; 56911]%N.

(** The [try] block of [handleExtract]. *)
Definition handleExtract_try (i : extract_input) (useAsync : bool) : Async unit :=
  let n := length (files i) in
  _ ← ui (setProgress (Some
        (Progress (of_Z 0) (of_nat n) (of_Z 0) (VStr (js "upload")) VUndefined)));
  _ ← ui (setStatus (StatusUploading n));
  uploadRes ← uploadImagesChunked (files i) (Some upload_callback);
  let schema := buildSchema (schemaFields i) in
  let filename :=
    VStr (if nonempty (trim (customFilename i)) then trim (customFilename i)
          else defaultFilename i) in
  finalResultData ←
    (if useAsync then
       _ ← ui (setStatus StatusQueuing);
       _ ← ui (setProgress (Some
             (Progress (of_Z 0) (of_nat n) (of_Z 30) (VStr (js "extraction"))
                (VStr (js "Initializing... Please wait patiently " ++ praying_hands)))));
       jobRes ← extractBatchAsync (js_get uploadRes (js "batch_id")) schema filename;
       _ ← ui (setStatus (StatusProcessing (of_Z 0) (of_nat n) (of_Z 0)));
       _ ← ui (setProgress (Some
             (Progress (of_Z 0) (of_nat n) (of_Z 30) (VStr (js "extraction"))
                (VStr (js "Starting extraction...")))));
       finalResult ← pollJobStatus (js_get jobRes (js "job_id"))
                       (Some poll_callback) default_intervalMs;
       mret (js_get finalResult (js "rows"),
             js_get finalResult (js "excel_path"),
             js_get finalResult (js "csv_path"))
     else
       _ ← ui (setStatus (StatusRunningSync n));
       _ ← ui (setProgress (Some
             (Progress (of_Z 0) (of_nat n) (of_Z 30) (VStr (js "extraction"))
                VUndefined)));
       extractRes ← extractBatch (js_get uploadRes (js "batch_id")) schema filename;
       mret (js_get extractRes (js "rows"),
             js_get extractRes (js "excel_path"),
             js_get extractRes (js "csv_path")));
  _ ← ui (setResult (Some finalResultData));
  _ ← ui (setProgress (Some
        (Progress (of_nat n) (of_nat n) (of_Z 100) (VStr (js "complete"))
           VUndefined)));
  ui (setStatus StatusComplete).

(** The [catch] clause of [handleExtract]. *)
Definition handleExtract_catch (err : js_error) : Async unit :=
  _ ← (if JsString.eqb (err_name err) (js "AbortError") then
         _ ← ui (setError (Some CancelledByUser));
         ui (setStatus StatusCancelled)
       else
         let errorType := js_or (err_errorType err) (VStr []) in
         let message :=
           js_or (err_message err) (VStr (js "Something went wrong")) in
         _ ← ui (setError (Some (Failure (icon_of errorType) message)));
         ui (setStatus StatusNone));
  ui (setProgress None).

(** The [finally] clause of [handleExtract]. *)
Definition handleExtract_finally : Async unit :=
  _ ← ui (setLoading false);
  _ ← ui (setStartTime false);
  set_abortController false.

(** [handleExtract()] *)
Definition handleExtract (i : extract_input) : Async unit :=
  if (length (files i) =? 0)%nat then
    ui (setError (Some PleaseUploadAnImage))
  else if (length (filter (fun f => nonempty (trim f) = true) (schemaFields i)) =? 0)%nat
  then ui (setError (Some PleaseDefineAField))
  else
    _ ← ui (setError None);
    _ ← ui (setLoading true);
    _ ← ui (setResult None);
    _ ← ui (setProgress None);
    _ ← ui (setStartTime true);
    _ ← new_AbortController;
    _ ← set_abortController true;
    let useAsync := shouldUseAsync (processingMode i) (length (files i)) in
    try_finally
      (try_catch (handleExtract_try i useAsync) handleExtract_catch)
      handleExtract_finally.

(** ** Other functions of [App] *)

(** [n.toString().padStart(2, '0')] for a whole number [n >= 0] (below
    [10^21], where [toString] is the decimal notation). *)
Definition padStart2 (n : nat) : list N :=
  let s := js (pretty n) in
  replicate (2 - length s) 48%N ++ s.

(** [formatElapsedTime(seconds)], for the whole number of seconds the timer
    keeps in [elapsedTime]. *)
Definition formatElapsedTime (seconds : nat) : list N :=
  let mins := (seconds / 60)%nat in
  let secs := (seconds mod 60)%nat in
  padStart2 mins ++ colon :: padStart2 secs.

(** [getWarningLevel(imageCount)] *)
Definition getWarningLevel (imageCount : nat) : list N :=
  if (LIMITS_danger <=? imageCount)%nat then js "danger"
  else if (LIMITS_warning <=? imageCount)%nat then js "warning"
  else if (LIMITS_recommended <=? imageCount)%nat then js "caution"
  else js "ok".

(** ** The settings store

    The module that keeps the AI settings in [localStorage], a map from
    strings to strings. *)
Abbreviation Storage := (gmap (list N) (list N)).

(** [localStorage.getItem(key)]: the string stored, or [null]. *)
Definition getItem (st : Storage) (key : list N) : jsval :=
  match st !! key with
  | Some s => VStr s
  | None => VNull
  end.

Definition setItem (key value : list N) (st : Storage) : Storage :=
  <[key := value]> st.

Definition removeItem (key : list N) (st : Storage) : Storage :=
  delete key st.

(** [STORAGE_KEYS] *)
Definition AI_PROVIDER : list N := js "surveyscriber_ai_provider".
Definition AI_API_KEY : list N := js "surveyscriber_ai_api_key".
Definition CUSTOM_ENDPOINT : list N := js "surveyscriber_custom_endpoint".
Definition CUSTOM_MODEL : list N := js "surveyscriber_custom_model".
Definition OCR_PROVIDER : list N := js "surveyscriber_ocr_provider".

(** [Object.values(STORAGE_KEYS)] *)
Definition STORAGE_KEYS : list (list N) :=
  [ AI_PROVIDER; AI_API_KEY; CUSTOM_ENDPOINT; CUSTOM_MODEL; OCR_PROVIDER ].

(** The object [getStoredSettings] returns. *)
Record settings := {
  ai_provider : jsval;
  ai_api_key : jsval;
  custom_endpoint : jsval;
  custom_model : jsval;
  ocr_provider : jsval
}.

(** [getStoredSettings()] *)
Definition getStoredSettings (st : Storage) : settings :=
  {| ai_provider := js_or (getItem st AI_PROVIDER) (VStr (js "openai"));
     ai_api_key := js_or (getItem st AI_API_KEY) (VStr []);
     custom_endpoint := js_or (getItem st CUSTOM_ENDPOINT) (VStr []);
     custom_model := js_or (getItem st CUSTOM_MODEL) (VStr []);
     ocr_provider := js_or (getItem st OCR_PROVIDER) (VStr (js "none")) |}.

(** The argument of [saveSettings]: each field is absent ([undefined]) or
    given.  The fields given are taken to be strings, which [setItem]
    stores as they are; it would convert any other value to a string first,
    which is not modelled. *)
Record settings_patch := {
  new_ai_provider : option (list N);
  new_ai_api_key : option (list N);
  new_custom_endpoint : option (list N);
  new_custom_model : option (list N);
  new_ocr_provider : option (list N)
}.

(** [if (value !== undefined) { localStorage.setItem(key, value); }] *)
Definition save_field (key : list N) (value : option (list N)) (st : Storage)
  : Storage :=
  match value with
  | Some v => setItem key v st
  | None => st
  end.

(** [saveSettings(settings)] *)
Definition saveSettings (p : settings_patch) (st : Storage) : Storage :=
  save_field OCR_PROVIDER (new_ocr_provider p)
    (save_field CUSTOM_MODEL (new_custom_model p)
       (save_field CUSTOM_ENDPOINT (new_custom_endpoint p)
          (save_field AI_API_KEY (new_ai_api_key p)
             (save_field AI_PROVIDER (new_ai_provider p) st)))).

(** [clearAllSettings()] *)
Definition clearAllSettings (st : Storage) : Storage :=
  fold_left (fun st key => removeItem key st) STORAGE_KEYS st.

(** [hasApiKey()]: [key && key.trim().length > 0], which is [key] itself
    when [key] is falsy. *)
Definition hasApiKey (st : Storage) : jsval :=
  let key := getItem st AI_API_KEY in
  match key with
  | VStr s => if nonempty s then VBool (0 <? length (trim s))%nat else key
  | _ => key
  end.

(** [getApiKey()] *)
Definition getApiKey (st : Storage) : jsval :=
  js_or (getItem st AI_API_KEY) (VStr []).

(** [getAuthHeaders()] *)
Definition getAuthHeaders (st : Storage) : jsobj :=
  let settings := getStoredSettings st in
  object_literal
    [ (js "Content-Type", VStr (js "application/json"));
      (js "X-AI-Provider", ai_provider settings);
      (js "X-AI-API-Key", ai_api_key settings);
      (js "X-Custom-Endpoint", custom_endpoint settings);
      (js "X-Custom-Model", custom_model settings) ].

(** ** [SchemaEditor] and [ImageUploader] *)

(** [l.filter((_, i) => i !== index)] *)
Definition filter_out_index {A} (index : nat) (l : list A) : list A :=
  snd <$> filter (fun p => fst p <> index) (imap pair l).

(** The initial state of [SchemaEditor]. *)
Definition initial_fields : list (list N) :=
  [ js "Name"; js "Age"; js "Occupation" ].

(** [addField()], [updateField(index, value)] and [removeField(index)]: the
    array each hands to [setFields] and to [onChange].  [updateField] is
    called with the index of a row, below the length; beyond it the
    assignment would extend the array, leaving holes, which the model does
    not represent: the result is [None] there. *)
Definition addField (fields : list (list N)) : list (list N) :=
  fields ++ [[]].

Definition updateField (fields : list (list N)) (index : nat) (value : list N)
  : option (list (list N)) :=
  if (index <? length fields)%nat then Some (<[index := value]> fields) else None.

Definition removeField (fields : list (list N)) (index : nat) : list (list N) :=
  filter_out_index index fields.

(** [removeFile(index)] of [ImageUploader]: the new files, handed to
    [setFiles] and to [onBatchReady], and the new previews. *)
Definition removeFile {P} (files : list File) (previews : list P) (index : nat)
  : list File * list P :=
  (filter_out_index index files, filter_out_index index previews).

(** * Vocabulary of the statements *)

(** The protocol events of a trace are what the client did towards the
    server and towards its progress callbacks; the state updates of [App]
    and the user's Terminate are set aside. *)
Definition is_protocol (e : event) : bool :=
  match e with
  | Ui _ | Abort => false
  | _ => true
  end.

Definition protocol (t : list event) : list event := List.filter is_protocol t.

(** [advances w w' k evs]: from [w] to [w'] the client consumed [k] replies
    and its protocol events were [evs]; the user's plan is unchanged. *)
Definition advances (w w' : world) (k : nat) (evs : list event) : Prop :=
  replies w' = drop k (replies w)
  /\ protocol (trace w') = protocol (trace w) ++ evs
  /\ terminate_during w' = terminate_during w.

(** What a reply makes of the [fetch] it settles. *)
Definition settle (r : reply) : outcome response :=
  match r with
  | NetworkError => Thrown (TypeError "Failed to fetch")
  | Response r => Returned r
  end.

(** A string up to, and without, its first colon; the whole string when it
    has none. *)
Fixpoint until_colon (s : list N) : list N :=
  match s with
  | [] => []
  | c :: r => if (c =? colon)%N then [] else c :: until_colon r
  end.

(** What follows the first colon of a string, if it has one. *)
Fixpoint after_colon (s : list N) : option (list N) :=
  match s with
  | [] => None
  | c :: r => if (c =? colon)%N then Some r else after_colon r
  end.

(** The substring after the colon, in the words of the specification. *)
Definition substring_after_colon (s : list N) : list N :=
  default [] (after_colon s).

(** The kind of an error status as the code extracts it, said directly: the
    segment between the first colon and the next one (or the end), and
    "unknown" when there is no colon or that segment is empty. *)
Definition kind_segment (s : list N) : list N :=
  match after_colon s with
  | Some r => if nonempty (until_colon r) then until_colon r else js "unknown"
  | None => js "unknown"
  end.

(** The table of default messages of section 7 of the specification, with
    its catch-all row. *)
Definition spec_default_message (kind : list N) : list N :=
  if JsString.eqb kind (js "rate_limit") then
    js "API rate limit exceeded. Please wait a moment and try again."
  else if JsString.eqb kind (js "insufficient_credits") then
    js "API credits exhausted. Please add credits to your account or switch to a different AI provider in Settings."
  else if JsString.eqb kind (js "invalid_key") then
    js "API key is invalid or expired. Please check your API key in Settings."
  else if JsString.eqb kind (js "no_valid_data") then
    js "No text could be extracted from the images. Please try with clearer images."
  else js "An unexpected error occurred during extraction.".

(** What [getJobStatus] makes of the reply to its request. *)
Definition read_status (r : reply) : outcome jsobj :=
  match r with
  | NetworkError => Thrown (TypeError "Failed to fetch")
  | Response resp =>
      if ok resp then
        match json resp with inl e => Thrown e | inr o => Returned o end
      else if (status resp =? 404)%N then Returned not_found_status
      else Thrown (new_Error (VStr (js "Failed to get job status")))
  end.

(** A status that does not end the polling: absent, or a string that is
    not "completed", does not begin with "error" and is not "not_found". *)
Definition nonterminal (v : jsval) : Prop :=
  v = VUndefined \/ v = VNull
  \/ exists s, v = VStr s /\ s <> js "completed"
               /\ startsWith (js "error") s = false /\ s <> js "not_found".

(** The protocol events of one tick on status [st], up to the decision. *)
Definition tick_events (jobId : jsval) (onProgress : option poll_callback_t)
    (st : jsobj) : list event :=
  Fetch (GET_extract_batch_status jobId)
  :: match onProgress with Some _ => [PollProgress st] | None => [] end.

(** The protocol events of a tick that reschedules. *)
Definition waiting_tick_events (jobId : jsval)
    (onProgress : option poll_callback_t) (intervalMs : N) (st : jsobj)
  : list event :=
  tick_events jobId onProgress st ++ [SetTimeout intervalMs].

(** A status that ends the polling: one of those three kinds of string. *)
Definition terminal (v : jsval) : Prop :=
  exists s, v = VStr s
    /\ (s = js "completed" \/ startsWith (js "error") s = true \/ s = js "not_found").

(** Sample data: the payload [{status: s}]. *)
Definition status_payload (s : String.string) : jsobj :=
  object_literal [ (js "status", VStr (js s)) ].

(** The least number of chunks of size [b] that hold [a] files. *)
Definition ceil_div (a b : nat) : nat := ((a + b - 1) / b)%nat.

(** The slice [files.slice(j * CHUNK_SIZE, j * CHUNK_SIZE + CHUNK_SIZE)]. *)
Definition chunk (files : list File) (j : nat) : list File :=
  take CHUNK_SIZE (drop (j * CHUNK_SIZE) files).

(** A reply the upload loop accepts: a 2xx response whose body parses,
    to [b]. *)
Definition accepted (r : reply) (b : jsobj) : Prop :=
  exists resp, r = Response resp /\ ok resp = true /\ body resp = Some b.

(** The value of [batchId] after the responses with the given bodies. *)
Definition batchId_after (bodies : list jsobj) : jsval :=
  fold_left next_batchId bodies VNull.

(** The request for the chunk numbered [j] (from 0), after the responses to
    the chunks before it. *)
Definition chunk_request (files : list File) (bodies : list jsobj) (j : nat)
  : request :=
  POST_upload_images (chunk files j) (batch_id_field (batchId_after (take j bodies))).

(** The call of the progress callback, when one is given. *)
Definition progress_event (onProgress : option upload_callback_t)
    (uploaded total : nat) : list event :=
  match onProgress with
  | Some _ => [UploadProgress uploaded total]
  | None => []
  end.

(** The protocol events of the iteration for the chunk numbered [j] when
    its upload succeeds. *)
Definition chunk_events (onProgress : option upload_callback_t)
    (files : list File) (bodies : list jsobj) (j : nat) : list event :=
  Fetch (chunk_request files bodies j)
  :: progress_event onProgress (min (S j * CHUNK_SIZE) (length files))
       (length files).

(** The calls of the progress callback of the upload recorded in a trace. *)
Definition progress_calls (t : list event) : list (nat * nat) :=
  omap (fun e => match e with
                 | UploadProgress uploaded total => Some (uploaded, total)
                 | _ => None
                 end) t.

(** The cumulative counts reported after the chunks numbered [js]. *)
Definition reports (onProgress : option upload_callback_t) (n : nat)
    (js : list nat) : list (nat * nat) :=
  match onProgress with
  | Some _ => map (fun j => (min (S j * CHUNK_SIZE) n, n)) js
  | None => []
  end.

(** The counts [uploadImagesChunked] reports for [n] files: the multiples
    of the chunk size below [n], then [n]. *)
Definition reported_counts (n : nat) : list nat :=
  map (fun j => min (S j * CHUNK_SIZE) n) (seq 0 (ceil_div n CHUNK_SIZE)).

(** The value of a finite binary64 number, an exact rational, and the
    integer it is when it is one. *)
Definition binary64_value (x : float) : option Q :=
  match Prim2SF x with
  | S754_zero _ => Some 0%Q
  | S754_finite s m e =>
      let magnitude :=
        if (0 <=? e)%Z then inject_Z (Zpos m * 2 ^ e)
        else (Zpos m # Pos.pow 2 (Z.to_pos (- e))) in
      Some (if s then Qopp magnitude else magnitude)
  | S754_infinity _ | S754_nan => None
  end.

Definition integer_of (x : float) : option Z :=
  match binary64_value x with
  | Some q => if Qeq_bool q (inject_Z (Qfloor q)) then Some (Qfloor q) else None
  | None => None
  end.

(** The two formulas of the progress composition as they are worded, in
    exact arithmetic: [round(k/n*30)] and [30 + round(p/100*70)], [round]
    being to the nearest integer, a half going up. *)
Definition spec_round (q : Q) : Z := Qfloor (q + (1 # 2))%Q.

Definition spec_uploadPct (k n : nat) : Z :=
  spec_round (inject_Z (Z.of_nat k) / inject_Z (Z.of_nat n) * 30)%Q.

Definition spec_extractPct (p : Q) : Z := 30 + spec_round (p / 100 * 70)%Q.

(** The [progress] state of [App] after a sequence of state updates: what
    the last [setProgress] of the sequence set, and what it was before when
    there is none. *)
Definition progress_after (before : option progress) (us : list ui_update)
  : option progress :=
  fold_left (fun st u => match u with setProgress p => p | _ => st end) us before.

(** The overall percentage the progress bar shows in a state. *)
Definition shown_percentage (st : option progress) : option jsval :=
  percentage <$> st.

(** The percentages the [progress] state of [App] is given in the course
    of a trace, in order. *)
Definition percentages (t : list event) : list jsval :=
  omap (fun e => match e with
                 | Ui (setProgress (Some p)) => Some (percentage p)
                 | _ => None
                 end) t.

(** Sample data: [n] files, and a 200 response of the upload endpoint with
    its body. *)
Definition sample_files (n : nat) : list File :=
  map (fun i => Build_File (js ("scan-" ++ pretty i ++ ".png"))) (seq 0 n).

Definition upload_ok_body (batch_id : String.string) (count : nat) : jsobj :=
  object_literal [ (js "batch_id", VStr (js batch_id));
                   (js "file_count", of_nat count) ].

Definition upload_ok (batch_id : String.string) (count : nat) : reply :=
  Response (Resp 200 (Some (upload_ok_body batch_id count))).

(** The schemas of the extraction requests of a trace. *)
Definition extraction_schemas (t : list event) : list jsobj :=
  omap (fun e => match e with
                 | Fetch (POST_extract_batch _ schema _)
                 | Fetch (POST_extract_batch_async _ schema _) => Some schema
                 | _ => None
                 end) t.

(** What happened after the user's Terminate. *)
Fixpoint after_abort (t : list event) : list event :=
  match t with
  | [] => []
  | Abort :: r => r
  | _ :: r => after_abort r
  end.

(** Sample data: the replies of the extraction endpoints. *)
Definition job_queued (job_id : String.string) : reply :=
  Response (Resp 200 (Some (object_literal [ (js "job_id", VStr (js job_id)) ]))).

Definition job_status (s : String.string) (done all pct : Z) : jsobj :=
  object_literal [ (js "status", VStr (js s));
                   (js "processed", of_Z done);
                   (js "total", of_Z all);
                   (js "percentage", of_Z pct);
                   (js "stage", VStr (js "Extracting")) ].

Definition job_completed : jsobj :=
  object_literal [ (js "status", VStr (js "completed"));
                   (js "percentage", of_Z 100);
                   (js "rows", VOpaque 1 (js "[object Object]"));
                   (js "excel_path", VStr (js "outputs/survey.xlsx"));
                   (js "csv_path", VStr (js "outputs/survey.csv")) ].

(** ** What a computation may do *)

(** [emits_only good m]: whatever the world, [m] only adds events to the
    trace, and every event it adds is [good]. *)
Definition emits_only (good : event -> Prop) {A} (m : Async A) : Prop :=
  forall w, exists evs, trace (snd (m w)) = trace w ++ evs /\ Forall good evs.

(** [throws_only P m]: whatever the world, an error [m] throws satisfies
    [P]. *)
Definition throws_only (P : js_error -> Prop) {A} (m : Async A) : Prop :=
  forall w e, fst (m w) = Thrown e -> P e.

(** The events of [handleTerminate]. *)
Definition terminate_events : list event :=
  [ Abort; Ui (setAbortController false); Ui (setLoading false);
    Ui (setStatus StatusTerminated); Ui (setProgress None) ].

(** The events of an upload: requests to the upload endpoint, calls of the
    progress callback and the state updates these make, and the user. *)
Definition upload_event (e : event) : Prop :=
  match e with
  | Fetch (POST_upload_images _ _) | UploadProgress _ _ | Ui _ | Abort => True
  | _ => False
  end.

(** The events of polling the job [jobId] every [intervalMs]. *)
Definition poll_event (jobId : jsval) (intervalMs : N) (e : event) : Prop :=
  match e with
  | Fetch r => r = GET_extract_batch_status jobId
  | SetTimeout ms => ms = intervalMs
  | PollProgress _ | Ui _ | Abort => True
  | UploadProgress _ _ => False
  end.

(** The errors the code modelled here constructs or lets through: those of
    [new Error], of a failed [fetch] or call, and of [response.json()]. *)
Definition plain_error (e : js_error) : Prop :=
  err_name e = js "Error" \/ err_name e = js "TypeError"
  \/ err_name e = js "SyntaxError".

(** An event of the asynchronous mode only, and one of the synchronous
    mode only. *)
Definition async_only_event (e : event) : Prop :=
  match e with
  | Fetch (POST_extract_batch_async _ _ _) | Fetch (GET_extract_batch_status _)
  | SetTimeout _ | PollProgress _ => True
  | _ => False
  end.

Definition sync_only_event (e : event) : Prop :=
  match e with
  | Fetch (POST_extract_batch _ _ _) => True
  | _ => False
  end.

(** The report of a cancellation, which [handleExtract] makes for an
    [AbortError]. *)
Definition cancellation_report (e : event) : Prop :=
  e = Ui (setError (Some CancelledByUser)) \/ e = Ui (setStatus StatusCancelled).

(** A status that is not a string, nor absent. *)
Definition not_a_string (v : jsval) : Prop :=
  match v with
  | VBool _ | VNum _ | VBuiltin _ | VOpaque _ _ => True
  | VUndefined | VNull | VStr _ => False
  end.

(** The error with which a reply breaks an upload that the server did not
    refuse: no connection, or a 2xx response whose body does not parse. *)
Definition upload_breaks (r : reply) : option js_error :=
  match r with
  | NetworkError => Some (TypeError "Failed to fetch")
  | Response resp =>
      if ok resp then
        match body resp with
        | Some _ => None
        | None => Some SyntaxError
        end
      else None
  end.

(** The first of the bodies that carries a truthy [batch_id]. *)
Definition first_with_batch_id (bodies : list jsobj) : option jsobj :=
  List.find (fun b => truthy (js_get b (js "batch_id"))) bodies.

(** ** Runs of the whole workflow *)

(** What [handleExtract] adds to the trace while a run is in progress:
    anything but showing a result or an error. *)
Definition in_progress (e : event) : Prop :=
  match e with
  | Ui (setResult (Some _)) | Ui (setError (Some _)) => False
  | _ => True
  end.

(** The trace of [w'] continues that of [w], with events of a run in
    progress. *)
Definition grows (w w' : world) : Prop :=
  exists evs, trace w' = trace w ++ evs /\ Forall in_progress evs.

(** [extends w w' k evs]: from [w] to [w'], [k] replies were read and the
    trace was continued, by the protocol events [evs] and by state updates
    of a run in progress. *)
Definition extends (w w' : world) (k : nat) (evs : list event) : Prop :=
  advances w w' k evs /\ grows w w'.

(** The protocol events of a successful upload of [files], the server
    answering with [bodies]. *)
Definition upload_events (onProgress : option upload_callback_t)
    (files : list File) (bodies : list jsobj) : list event :=
  if (length files <=? CHUNK_SIZE)%nat
  then [Fetch (POST_upload_images files None)]
  else concat (map (chunk_events onProgress files bodies)
                 (seq 0 (ceil_div (length files) CHUNK_SIZE))).

(** The [batch_id] of the result of that upload: the one of the response in
    the single-call path, the one the loop has kept in the chunked path. *)
Definition uploaded_batch_id (files : list File) (bodies : list jsobj) : jsval :=
  if (length files <=? CHUNK_SIZE)%nat
  then js_get (default empty_object (head bodies)) (js "batch_id")
  else batchId_after bodies.

(** [customFilename.trim() || generateDefaultFilename()] *)
Definition chosen_filename (i : extract_input) : jsval :=
  VStr (if nonempty (trim (customFilename i)) then trim (customFilename i)
        else defaultFilename i).

(** The state updates with which [handleExtract] starts a run. *)
Definition start_updates : list event :=
  [ Ui (setError None); Ui (setLoading true); Ui (setResult None);
    Ui (setProgress None); Ui (setStartTime true);
    Ui (setAbortController true) ].

(** The state updates of its [finally] clause. *)
Definition finally_updates : list event :=
  [ Ui (setLoading false); Ui (setStartTime false);
    Ui (setAbortController false) ].

(** The state updates with which it shows a result of [n] images. *)
Definition success_updates (n : nat) (result : jsobj) : list event :=
  [ Ui (setResult (Some (js_get result (js "rows"),
                         js_get result (js "excel_path"),
                         js_get result (js "csv_path"))));
    Ui (setProgress (Some (Progress (of_nat n) (of_nat n) (of_Z 100)
                             (VStr (js "complete")) VUndefined)));
    Ui (setStatus StatusComplete) ].

(** The state updates with which its [catch] clause shows an error that is
    not an [AbortError]. *)
Definition failure_updates (e : js_error) : list event :=
  [ Ui (setError (Some (Failure (icon_of (js_or (err_errorType e) (VStr [])))
                          (js_or (err_message e)
                             (VStr (js "Something went wrong"))))));
    Ui (setStatus StatusNone);
    Ui (setProgress None) ].

(** The two guards of [handleExtract] let the input through. *)
Definition ready (i : extract_input) : Prop :=
  (0 < length (files i))%nat
  /\ exists f, f ∈ schemaFields i /\ nonempty (trim f) = true.

(** The world in which the [try] block of [handleExtract] starts, the one
    its [catch] clause leaves after showing [e], and the one its [finally]
    clause leaves. *)
Definition started (w : world) : world :=
  World (replies w) (trace w ++ start_updates) true false (terminate_during w).

Definition shown (e : js_error) (w : world) : world :=
  World (replies w) (trace w ++ failure_updates e) (abortController w)
        (signal_aborted w) (terminate_during w).

Definition finished (w : world) : world :=
  World (replies w) (trace w ++ finally_updates) false (signal_aborted w)
        (terminate_during w).


(** The state updates with which the refusal of the chunk numbered [k + 1]
    is shown. *)
Definition chunk_failure_updates (k : nat) : list event :=
  [ Ui (setError (Some (Failure IconCross
                          (VStr (js ("Failed to upload chunk " ++ pretty (S k)))))));
    Ui (setStatus StatusNone);
    Ui (setProgress None) ].

(** The world [handleExtract] leaves after showing the result of [n]
    images. *)
Definition presented (n : nat) (result : jsobj) (w : world) : world :=
  World (replies w) (trace w ++ success_updates n result) (abortController w)
        (signal_aborted w) (terminate_during w).

(** What [handleExtract] makes of the outcome [r] of the last step of its
    [try] block, reached in the world [w]: a result is shown, an error is
    shown, and in both cases the [finally] clause runs; a step that never
    settles leaves the run pending. *)
Definition concluded (n : nat) (r : outcome jsobj) (w : world)
  : outcome unit * world :=
  match r with
  | Returned result => (Returned tt, finished (presented n result w))
  | Thrown e => (Returned tt, finished (shown e w))
  | Pending => (Pending, w)
  end.

(** The worlds in which the steps of the [try] block start: the upload,
    from the world [w] in which [handleExtract] was called; then, from the
    world the step before left, the queuing of the job, the polling, and
    the synchronous extraction. *)
Definition uploading (i : extract_input) (w : world) : world :=
  let n := length (files i) in
  emit (Ui (setStatus (StatusUploading n)))
    (emit (Ui (setProgress (Some
             (Progress (of_Z 0) (of_nat n) (of_Z 0) (VStr (js "upload"))
                VUndefined))))
       (started w)).

Definition queuing (i : extract_input) (w : world) : world :=
  let n := length (files i) in
  emit (Ui (setProgress (Some
          (Progress (of_Z 0) (of_nat n) (of_Z 30) (VStr (js "extraction"))
             (VStr (js "Initializing... Please wait patiently " ++ praying_hands))))))
    (emit (Ui (setStatus StatusQueuing)) w).

Definition polling (i : extract_input) (w : world) : world :=
  let n := length (files i) in
  emit (Ui (setProgress (Some
          (Progress (of_Z 0) (of_nat n) (of_Z 30) (VStr (js "extraction"))
             (VStr (js "Starting extraction..."))))))
    (emit (Ui (setStatus (StatusProcessing (of_Z 0) (of_nat n) (of_Z 0)))) w).

Definition syncing (i : extract_input) (w : world) : world :=
  let n := length (files i) in
  emit (Ui (setProgress (Some
          (Progress (of_Z 0) (of_nat n) (of_Z 30) (VStr (js "extraction"))
             VUndefined))))
    (emit (Ui (setStatus (StatusRunningSync n))) w).

(** Sample data: an input of [n] files with two fields, in the given
    processing mode. *)
Definition sample_input (n : nat) (mode : String.string) : extract_input :=
  {| files := sample_files n;
     schemaFields := [ js "name"; js "age" ];
     processingMode := js mode;
     customFilename := [];
     defaultFilename := js "survey_2024-05-01_10-00-00" |}.

(** The code unit of the decimal digit [d]. *)
Definition digit (d : nat) : N := N.of_nat (48 + d).

(** What [getStoredSettings] reads for a field after [saveSettings]: the
    value given when it is not empty, the default when the empty string was
    given, and what it read before when the field was absent. *)
Definition read_back (default : list N) (new : option (list N)) (old : jsval)
  : jsval :=
  match new with
  | Some v => if nonempty v then VStr v else VStr default
  | None => old
  end.

(** What [getStoredSettings] reads from an empty store. *)
Definition default_settings : settings :=
  {| ai_provider := VStr (js "openai");
     ai_api_key := VStr [];
     custom_endpoint := VStr [];
     custom_model := VStr [];
     ocr_provider := VStr (js "none") |}.

(** The value a patch gives for the storage key [k], if any. *)
Definition patched (p : settings_patch) (k : list N) : option (list N) :=
  if decide (k = AI_PROVIDER) then new_ai_provider p
  else if decide (k = AI_API_KEY) then new_ai_api_key p
  else if decide (k = CUSTOM_ENDPOINT) then new_custom_endpoint p
  else if decide (k = CUSTOM_MODEL) then new_custom_model p
  else if decide (k = OCR_PROVIDER) then new_ocr_provider p
  else None.



(** The replies of the server to an asynchronous extraction of 250 files
    that goes well: the three chunks are accepted, the job is queued, and
    the poller is told that 0 of 250 images are done, then 125 of 250, then
    that the job is completed. *)
Definition polled_extraction : list reply :=
  [ upload_ok "b1" 100; upload_ok "b1" 200; upload_ok "b1" 250;
    job_queued "job-1";
    Response (Resp 200 (Some (job_status "processing" 0 250 0)));
    Response (Resp 200 (Some (job_status "processing" 125 250 50)));
    Response (Resp 200 (Some job_completed)) ].

(** * Properties *)

(** ** What a run leaves behind *)

Lemma protocol_app t1 t2 : protocol (t1 ++ t2) = protocol t1 ++ protocol t2.
Proof. apply List.filter_app. Qed.

Lemma protocol_map_Ui us : protocol (map Ui us) = [].
Proof. induction us as [|u us IH]; simpl; auto. Qed.

Lemma fetches_app t1 t2 : fetches (t1 ++ t2) = fetches t1 ++ fetches t2.
Proof. apply omap_app. Qed.

Lemma fetches_protocol t : fetches (protocol t) = fetches t.
Proof.
  induction t as [|e t IH]; simpl; [reflexivity|].
  destruct e; simpl; rewrite ?IH; reflexivity.
Qed.

Lemma advances_refl w : advances w w 0 [].
Proof. unfold advances. rewrite drop_0, app_nil_r. auto. Qed.

Lemma advances_trans w1 w2 w3 k1 k2 e1 e2 :
  advances w1 w2 k1 e1 -> advances w2 w3 k2 e2 ->
  advances w1 w3 (k1 + k2) (e1 ++ e2).
Proof.
  intros (R1 & T1 & U1) (R2 & T2 & U2). unfold advances.
  rewrite R2, R1, T2, T1, U2, U1, drop_drop, app_assoc. auto.
Qed.

Lemma advances_emit e w :
  advances w (emit e w) 0 (if is_protocol e then [e] else []).
Proof.
  unfold advances, emit; simpl. rewrite drop_0, protocol_app. simpl.
  destruct (is_protocol e); auto.
Qed.

Lemma emits_spec es w :
  exists w', emits es w = (Returned tt, w') /\ advances w w' 0 (protocol es).
Proof.
  unfold emits. eexists; split; [reflexivity|].
  revert w. induction es as [|e es IH]; intros w; simpl.
  - apply advances_refl.
  - pose proof (advances_trans _ _ _ _ _ _ _ (advances_emit e w) (IH (emit e w))) as H.
    simpl in H. destruct (is_protocol e); exact H.
Qed.

Lemma handleTerminate_advances w : advances w (handleTerminate w) 0 [].
Proof.
  unfold handleTerminate. destruct (abortController w); [|apply advances_refl].
  unfold advances, emit; simpl.
  rewrite drop_0, !protocol_app; simpl. rewrite !app_nil_r. auto.
Qed.

Lemma send_advances req w : advances w (send req w) 0 [Fetch req].
Proof.
  unfold send.
  pose proof (advances_emit (Fetch req) w) as A1. cbn [is_protocol] in A1.
  case_bool_decide; [|exact A1].
  pose proof (advances_trans _ _ _ _ _ _ _ A1
                (handleTerminate_advances (emit (Fetch req) w))) as A.
  now rewrite app_nil_r in A.
Qed.

Lemma fetch_reply req w r rs :
  replies w = r :: rs ->
  exists w', fetch req w = (settle r, w') /\ advances w w' 1 [Fetch req].
Proof.
  intros Hr. unfold fetch.
  destruct (send_advances req w) as (R2 & T2 & U2). rewrite drop_0 in R2.
  rewrite R2, Hr.
  eexists; split; [destruct r; reflexivity|].
  unfold advances; simpl. rewrite Hr. simpl. rewrite drop_0. auto.
Qed.

Lemma fetch_pending req w :
  replies w = [] ->
  exists w', fetch req w = (Pending, w') /\ advances w w' 0 [Fetch req].
Proof.
  intros Hr. unfold fetch.
  pose proof (send_advances req w) as A2.
  pose proof A2 as (R2 & T2 & U2). rewrite drop_0 in R2.
  rewrite R2, Hr. eexists; split; [reflexivity|exact A2].
Qed.

(** ** Mode selection *)

(** C7. [shouldUseAsync] depends on the image count and the processing mode
    only: mode "sync" gives [false], mode "async" gives [true], and mode
    "auto" gives [false] exactly when the image count is at most the
    synchronous ceiling [LIMITS.syncMax]; the ceiling is 0, so that "auto"
    selects the asynchronous mode for every positive image count. *)
Theorem shouldUseAsync_spec (imageCount : nat) :
  shouldUseAsync (js "sync") imageCount = false
  /\ shouldUseAsync (js "async") imageCount = true
  /\ shouldUseAsync (js "auto") imageCount
     = negb (imageCount <=? LIMITS_syncMax)%nat
  /\ LIMITS_syncMax = 0%nat
  /\ shouldUseAsync (js "auto") (S imageCount) = true.
Proof.
  repeat split; try reflexivity.
  unfold shouldUseAsync; simpl. unfold LIMITS_syncMax.
  destruct imageCount; reflexivity.
Qed.

(** ** The status endpoint *)



(** ** Error kinds and their messages *)

Lemma split_head sep s : exists h t, split sep s = h :: t.
Proof.
  induction s as [|c r (h & t & IH)]; simpl; [eauto|].
  destruct (c =? sep)%N; [eauto|]. rewrite IH. eauto.
Qed.

Lemma split_colon_0 s : split colon s !! 0%nat = Some (until_colon s).
Proof.
  induction s as [|c r IH]; simpl; [reflexivity|].
  destruct (c =? colon)%N; [reflexivity|].
  destruct (split colon r) as [|h t]; simpl in *; congruence.
Qed.

Lemma split_colon_1 s : split colon s !! 1%nat = until_colon <$> after_colon s.
Proof.
  induction s as [|c r IH]; simpl; [reflexivity|].
  destruct (c =? colon)%N; simpl.
  - apply split_colon_0.
  - destruct (split_head colon r) as (h & t & E). rewrite E in *. exact IH.
Qed.

(** The kind [pollJobStatus] extracts is the segment after the first colon,
    with "unknown" standing in for a missing or empty one. *)
Lemma errorType_of_kind_segment s : errorType_of s = kind_segment s.
Proof.
  unfold errorType_of, kind_segment. rewrite split_colon_1.
  destruct (after_colon s); reflexivity.
Qed.

Example errorType_of_error : errorType_of (js "error") = js "unknown".
Proof. reflexivity. Qed.

Example errorType_of_two_colons :
  errorType_of (js "error:rate_limit:retry later") = js "rate_limit".
Proof. reflexivity. Qed.

Example errorType_of_empty_segment : errorType_of (js "error::x") = js "unknown".
Proof. reflexivity. Qed.

Lemma messages_own k :
  own messages !! k =
    if JsString.eqb k (js "rate_limit")
       || JsString.eqb k (js "insufficient_credits")
       || JsString.eqb k (js "invalid_key")
       || JsString.eqb k (js "no_valid_data")
       || JsString.eqb k (js "unknown")
    then Some (VStr (spec_default_message k))
    else None.
Proof.
  unfold spec_default_message, JsString.eqb.
  destruct (decide (k = js "rate_limit")) as [->|H1]; [reflexivity|].
  destruct (decide (k = js "insufficient_credits")) as [->|H2]; [reflexivity|].
  destruct (decide (k = js "invalid_key")) as [->|H3]; [reflexivity|].
  destruct (decide (k = js "no_valid_data")) as [->|H4]; [reflexivity|].
  destruct (decide (k = js "unknown")) as [->|H5]; [reflexivity|].
  rewrite !bool_decide_eq_false_2 by assumption.
  unfold messages, object_literal.
  cbn [fold_left js_define own fst snd].
  rewrite !lookup_insert_ne by congruence.
  apply lookup_empty.
Qed.

(** For every kind that is not the name of a member of [Object.prototype],
    the code's table agrees with the specification's: the row of the kind,
    or the catch-all row. *)
Lemma getDefaultErrorMessage_table kind :
  inherited kind = false ->
  getDefaultErrorMessage kind = VStr (spec_default_message kind).
Proof.
  intros Hinh. unfold getDefaultErrorMessage, js_get.
  rewrite messages_own, Hinh.
  destruct (_ || _) eqn:E.
  - unfold js_or.
    assert (T : truthy (VStr (spec_default_message kind)) = true).
    { unfold spec_default_message.
      repeat (destruct (JsString.eqb kind _); [reflexivity|]). reflexivity. }
    rewrite T. reflexivity.
  - repeat (apply orb_false_elim in E; destruct E as [E ?]).
    unfold spec_default_message. rewrite E, H2, H1, H0. simpl proto_null. cbv iota.
    reflexivity.
Qed.

(** ** The poller *)

Lemma getJobStatus_reply jobId w r rs :
  replies w = r :: rs ->
  exists w', getJobStatus jobId w = (read_status r, w')
             /\ advances w w' 1 [Fetch (GET_extract_batch_status jobId)].
Proof.
  intros Hr.
  destruct (fetch_reply (GET_extract_batch_status jobId) w r rs Hr) as (w' & Hf & A).
  exists w'. split; [|exact A].
  unfold getJobStatus, mbind, Async_bind. rewrite Hf.
  destruct r as [|resp]; simpl; [reflexivity|].
  destruct (ok resp); simpl.
  - unfold await_json. destruct (json resp); reflexivity.
  - destruct (status resp =? 404)%N; reflexivity.
Qed.

Lemma getJobStatus_pending jobId w :
  replies w = [] ->
  exists w', getJobStatus jobId w = (Pending, w')
             /\ advances w w' 0 [Fetch (GET_extract_batch_status jobId)].
Proof.
  intros Hr.
  destruct (fetch_pending (GET_extract_batch_status jobId) w Hr) as (w' & Hf & A).
  exists w'. split; [|exact A].
  unfold getJobStatus, mbind, Async_bind. rewrite Hf. reflexivity.
Qed.

Lemma classify_nonterminal v : nonterminal v -> classify v = IsOther.
Proof.
  intros [->|[->|(s & -> & Hc & He & Hn)]]; try reflexivity.
  unfold classify, strict_eq_str, JsString.eqb.
  rewrite bool_decide_eq_false_2 by assumption. rewrite He.
  rewrite bool_decide_eq_false_2 by assumption. reflexivity.
Qed.

Lemma classify_completed v : v = VStr (js "completed") -> classify v = IsCompleted.
Proof. intros ->. reflexivity. Qed.

Lemma classify_error s :
  startsWith (js "error") s = true -> classify (VStr s) = IsError s.
Proof.
  intros He. unfold classify, strict_eq_str, JsString.eqb.
  case_bool_decide as Hc; [subst s; discriminate He|].
  rewrite He. reflexivity.
Qed.

Lemma classify_not_found v : v = VStr (js "not_found") -> classify v = IsNotFound.
Proof. intros ->. reflexivity. Qed.

Section Poller.

Variable jobId : jsval.
Variable onProgress : option poll_callback_t.
Variable intervalMs : N.

Lemma call_poll_progress_spec st w :
  exists w', call_poll_progress onProgress st w = (Returned tt, w')
    /\ advances w w' 0
         match onProgress with Some _ => [PollProgress st] | None => [] end.
Proof.
  unfold call_poll_progress. destruct onProgress as [f|].
  - destruct (emits_spec (PollProgress st :: map Ui (f st)) w) as (w' & E & A).
    exists w'. split; [exact E|].
    simpl in A. fold (protocol (map Ui (f st))) in A.
    rewrite protocol_map_Ui in A. exact A.
  - exists w. split; [reflexivity|apply advances_refl].
Qed.

(** One tick of [poll] on a reply that carries the status [st]. *)
Lemma poll_tick fuel w r rs st :
  replies w = r :: rs -> read_status r = Returned st ->
  exists w', advances w w' 1 (tick_events jobId onProgress st)
    /\ poll (S fuel) jobId onProgress intervalMs w =
       match classify (js_get st (js "status")) with
       | IsCompleted => (Returned st, w')
       | IsError s => (Thrown (poll_error st s), w')
       | IsNotFound => (Thrown (new_Error (VStr (js "Job not found"))), w')
       | IsBroken e => (Thrown e, w')
       | IsOther =>
           poll fuel jobId onProgress intervalMs (emit (SetTimeout intervalMs) w')
       end.
Proof.
  intros Hr Hst.
  destruct (getJobStatus_reply jobId w r rs Hr) as (w1 & E1 & A1).
  destruct (call_poll_progress_spec st w1) as (w2 & E2 & A2).
  exists w2. split.
  - pose proof (advances_trans _ _ _ _ _ _ _ A1 A2) as A. exact A.
  - cbn [poll]. unfold mbind at 1, Async_bind at 1. rewrite E1, Hst.
    unfold mbind at 1, Async_bind at 1. rewrite E2.
    destruct (classify _); reflexivity.
Qed.

(** Ticks on statuses that do not end the polling: each is followed by one
    [setTimeout(poll, intervalMs)], and the polling goes on. *)
Lemma poll_waiting_ticks pre_r pre fuel w tail :
  Forall2 (fun r st => read_status r = Returned st) pre_r pre ->
  Forall (fun st => nonterminal (js_get st (js "status"))) pre ->
  replies w = pre_r ++ tail ->
  exists w',
    advances w w' (length pre_r)
      (concat (map (waiting_tick_events jobId onProgress intervalMs) pre))
    /\ poll (length pre_r + fuel) jobId onProgress intervalMs w
       = poll fuel jobId onProgress intervalMs w'.
Proof.
  intros HF. revert w. induction HF as [|r st pre_r pre Hst HF IH]; intros w Hnt Hr.
  - exists w. split; [apply advances_refl|reflexivity].
  - inversion Hnt as [|? ? Hn Hnt']; subst.
    destruct (poll_tick (length pre_r + fuel) w r (pre_r ++ tail) st Hr Hst)
      as (w1 & A1 & E1).
    rewrite (classify_nonterminal _ Hn) in E1.
    set (w2 := emit (SetTimeout intervalMs) w1) in *.
    assert (A2 : advances w w2 1 (waiting_tick_events jobId onProgress intervalMs st)).
    { pose proof (advances_trans _ _ _ _ _ _ _ A1
                    (advances_emit (SetTimeout intervalMs) w1)) as A.
      exact A. }
    destruct (IH w2 Hnt') as (w3 & A3 & E3).
    { destruct A2 as (R2 & _). rewrite R2, Hr. reflexivity. }
    exists w3. split.
    + pose proof (advances_trans _ _ _ _ _ _ _ A2 A3) as A. exact A.
    + simpl length. simpl Nat.add. rewrite E1. exact E3.
Qed.

End Poller.

(** C2, as amended.  Let [pollJobStatus] observe statuses none of which ends
    the polling, then one that does.  After each of the former it schedules
    exactly one further poll with [setTimeout(poll, intervalMs)]; the latter
    is its last poll.  On "completed" it resolves with that status payload.
    On a status beginning with "error" it rejects with an error whose
    [errorType] is the segment between the first colon and the next one (or
    the end), "unknown" standing in for a missing or empty segment, and whose
    message is the [error_message] of the payload when that is truthy and
    otherwise, for a kind that is not the name of a member of
    [Object.prototype], the default message of the kind in the table of
    section 7, catch-all row included.  On "not_found" it rejects with
    "Job not found". *)
Theorem pollJobStatus_terminal (jobId : jsval) (onProgress : option poll_callback_t)
    (intervalMs : N) (w : world) (pre_r : list reply) (pre : list jsobj)
    (last_r : reply) (last : jsobj) (rest : list reply) :
  replies w = pre_r ++ last_r :: rest ->
  Forall2 (fun r st => read_status r = Returned st) pre_r pre ->
  Forall (fun st => nonterminal (js_get st (js "status"))) pre ->
  read_status last_r = Returned last ->
  terminal (js_get last (js "status")) ->
  let run := pollJobStatus jobId onProgress intervalMs w in
  protocol (trace (snd run))
  = protocol (trace w)
    ++ concat (map (waiting_tick_events jobId onProgress intervalMs) pre)
    ++ tick_events jobId onProgress last
  /\ replies (snd run) = rest
  /\ (js_get last (js "status") = VStr (js "completed") ->
      fst run = Returned last)
  /\ (forall s, js_get last (js "status") = VStr s ->
      startsWith (js "error") s = true ->
      exists e, fst run = Thrown e
        /\ err_errorType e = VStr (kind_segment s)
        /\ (truthy (js_get last (js "error_message")) = true ->
            err_message e = js_get last (js "error_message"))
        /\ (truthy (js_get last (js "error_message")) = false ->
            inherited (kind_segment s) = false ->
            err_message e = VStr (spec_default_message (kind_segment s))))
  /\ (js_get last (js "status") = VStr (js "not_found") ->
      fst run = Thrown (new_Error (VStr (js "Job not found")))).
Proof.
  intros Hr Hpre Hnt Hlast Hterm run.
  assert (Hfuel : S (length (replies w)) = (length pre_r + S (S (length rest)))%nat).
  { rewrite Hr, length_app. simpl. lia. }
  destruct (poll_waiting_ticks jobId onProgress intervalMs pre_r pre
              (S (S (length rest))) w (last_r :: rest) Hpre Hnt Hr)
    as (w1 & A1 & E1).
  assert (Hr1 : replies w1 = last_r :: rest).
  { destruct A1 as (R1 & _). rewrite R1, Hr, drop_app_length. reflexivity. }
  destruct (poll_tick jobId onProgress intervalMs (S (length rest)) w1 last_r rest
              last Hr1 Hlast) as (w2 & A2 & E2).
  pose proof (advances_trans _ _ _ _ _ _ _ A1 A2) as (R & T & _).
  assert (Hrun : run = poll (S (S (length rest))) jobId onProgress intervalMs w1).
  { subst run. unfold pollJobStatus. rewrite Hfuel. exact E1. }
  assert (Hw : forall res, run = (res, w2) ->
            protocol (trace (snd run))
            = protocol (trace w)
              ++ concat (map (waiting_tick_events jobId onProgress intervalMs) pre)
              ++ tick_events jobId onProgress last
            /\ replies (snd run) = rest).
  { intros res ->. simpl. split; [exact T|].
    rewrite R, Hr, <- drop_drop, drop_app_length. reflexivity. }
  rewrite Hrun in *. clear Hrun. rewrite E2 in *.
  destruct Hterm as (s & Hs & [ -> | [ He | -> ] ]).
  - rewrite Hs in *. simpl classify in *.
    destruct (Hw _ eq_refl) as (HT & HR).
    repeat split; auto.
    + intros s [= <-] He. discriminate He.
    + intros [=].
  - rewrite Hs in *. rewrite (classify_error s He) in *.
    destruct (Hw _ eq_refl) as (HT & HR).
    split; [exact HT|]. split; [exact HR|]. split; [|split].
    + intros [= ->]. discriminate He.
    + intros s' [= <-] _. eexists. split; [reflexivity|].
      simpl. rewrite errorType_of_kind_segment.
      split; [reflexivity|]. unfold js_or. split.
      * intros ->. reflexivity.
      * intros -> Hinh. apply getDefaultErrorMessage_table. exact Hinh.
    + intros [= ->]. discriminate He.
  - rewrite Hs in *. simpl classify in *.
    destruct (Hw _ eq_refl) as (HT & HR).
    repeat split; auto.
    + intros [=].
    + intros s [= <-] He. discriminate He.
Qed.

Lemma pollJobStatus_terminal_witness :
  exists e,
    fst (pollJobStatus (VStr (js "job-1")) (Some poll_callback) default_intervalMs
           (World [ Response (Resp 200 (Some (status_payload "processing")));
                    Response (Resp 200 (Some (status_payload "error:invalid_key"))) ]
              [] false false None))
    = Thrown e
    /\ err_errorType e = VStr (js "invalid_key")
    /\ err_message e
       = VStr (js "API key is invalid or expired. Please check your API key in Settings.").
Proof.
  destruct (pollJobStatus_terminal (VStr (js "job-1")) (Some poll_callback)
              default_intervalMs
              (World [ Response (Resp 200 (Some (status_payload "processing")));
                       Response (Resp 200 (Some (status_payload "error:invalid_key"))) ]
                 [] false false None)
              [ Response (Resp 200 (Some (status_payload "processing"))) ]
              [ status_payload "processing" ]
              (Response (Resp 200 (Some (status_payload "error:invalid_key"))))
              (status_payload "error:invalid_key") [])
    as (_ & _ & _ & H & _).
  - reflexivity.
  - constructor; [reflexivity|constructor].
  - constructor; [|constructor].
    right; right. exists (js "processing").
    repeat split; [discriminate|discriminate].
  - reflexivity.
  - exists (js "error:invalid_key"). split; [reflexivity|]. right; left; reflexivity.
  - destruct (H (js "error:invalid_key") eq_refl eq_refl) as (e & He & Ht & _ & Hm).
    exists e. split; [exact He|]. split; [exact Ht|]. apply Hm; reflexivity.
Defined.

(** C2, as stated, fails: the kind the poller extracts is not the substring
    after the colon when that substring has a colon of its own, or is empty. *)
Lemma pollJobStatus_errorType_counterexample :
  (exists e,
     fst (pollJobStatus (VStr (js "job-1")) None default_intervalMs
            (World [ Response (Resp 200 (Some (status_payload "error:a:b"))) ]
               [] false false None))
     = Thrown e
     /\ err_errorType e = VStr (js "a")
     /\ err_errorType e <> VStr (substring_after_colon (js "error:a:b")))
  /\ (exists e,
     fst (pollJobStatus (VStr (js "job-1")) None default_intervalMs
            (World [ Response (Resp 200 (Some (status_payload "error:"))) ]
               [] false false None))
     = Thrown e
     /\ err_errorType e = VStr (js "unknown")
     /\ err_errorType e <> VStr (substring_after_colon (js "error:"))).
Proof.
  split; eexists; (split; [vm_compute; reflexivity|]); split;
    try reflexivity; vm_compute; discriminate.
Qed.

(** When the script of replies ends before a status that ends the polling,
    the poller has issued one more poll and its promise stays pending. *)
Lemma pollJobStatus_pending jobId onProgress intervalMs w pre :
  Forall2 (fun r st => read_status r = Returned st) (replies w) pre ->
  Forall (fun st => nonterminal (js_get st (js "status"))) pre ->
  let run := pollJobStatus jobId onProgress intervalMs w in
  fst run = Pending
  /\ protocol (trace (snd run))
     = protocol (trace w)
       ++ concat (map (waiting_tick_events jobId onProgress intervalMs) pre)
       ++ [Fetch (GET_extract_batch_status jobId)].
Proof.
  intros Hpre Hnt run.
  destruct (poll_waiting_ticks jobId onProgress intervalMs (replies w) pre 1 w []
              Hpre Hnt) as (w1 & A1 & E1).
  { now rewrite app_nil_r. }
  assert (Hr1 : replies w1 = []).
  { destruct A1 as (R1 & _). rewrite R1. apply drop_all. }
  destruct (getJobStatus_pending jobId w1 Hr1) as (w2 & E2 & A2).
  pose proof (advances_trans _ _ _ _ _ _ _ A1 A2) as (_ & T & _).
  subst run. unfold pollJobStatus.
  replace (S (length (replies w))) with (length (replies w) + 1)%nat by lia.
  assert (E : poll 1 jobId onProgress intervalMs w1 = (Pending, w2)).
  { cbn [poll]. unfold mbind at 1, Async_bind at 1. rewrite E2. reflexivity. }
  rewrite E1, E. split; [reflexivity|exact T].
Qed.

(** C10, at the status "error:constructor" without an [error_message]: the
    kind "constructor" is absent from the five-entry table, yet the default
    message is not the "unknown" one.  [messages["constructor"]] finds the
    member of that name that the table inherits from [Object.prototype], a
    function, hence truthy, so the fallback of [||] is not taken and the
    error carries the function in place of a message. *)
Theorem getDefaultErrorMessage_constructor :
  own messages !! js "constructor" = None
  /\ getDefaultErrorMessage (js "constructor") = VBuiltin (js "constructor")
  /\ getDefaultErrorMessage (js "constructor")
     <> VStr (js "An unexpected error occurred during extraction.")
  /\ fst (pollJobStatus (VStr (js "job-1")) None default_intervalMs
            (World [ Response (Resp 200 (Some (status_payload "error:constructor"))) ]
               [] false false None))
     = Thrown (JsError (js "Error") (VBuiltin (js "constructor"))
                 (VStr (js "constructor"))).
Proof.
  split; [vm_compute; reflexivity|].
  split; [vm_compute; reflexivity|].
  split; [vm_compute; discriminate|].
  vm_compute; reflexivity.
Qed.

(** ** The upload chunker *)

Lemma ceil_div_spec n k :
  (k < ceil_div n CHUNK_SIZE <-> k * CHUNK_SIZE < n)%nat.
Proof.
  unfold ceil_div, CHUNK_SIZE.
  pose proof (Nat.div_mod_eq (n + 100 - 1) 100) as E.
  pose proof (Nat.mod_upper_bound (n + 100 - 1) 100 ltac:(lia)) as B.
  split; intros H; nia.
Qed.

Lemma ceil_div_lt n : (CHUNK_SIZE < n -> ceil_div n CHUNK_SIZE < n)%nat.
Proof.
  intros Hn. destruct (Nat.lt_ge_cases (ceil_div n CHUNK_SIZE) n) as [|Hge]; [assumption|].
  assert (H : (n - 1 < ceil_div n CHUNK_SIZE)%nat) by lia.
  apply ceil_div_spec in H. unfold CHUNK_SIZE in *. lia.
Qed.

Lemma call_upload_progress_spec onProgress uploaded total w :
  exists w', call_upload_progress onProgress uploaded total w = (Returned tt, w')
    /\ advances w w' 0 (progress_event onProgress uploaded total).
Proof.
  unfold call_upload_progress, progress_event. destruct onProgress as [f|].
  - destruct (emits_spec (UploadProgress uploaded total :: map Ui (f uploaded total)) w)
      as (w' & E & A).
    exists w'. split; [exact E|].
    simpl in A. fold (protocol (map Ui (f uploaded total))) in A.
    rewrite protocol_map_Ui in A. exact A.
  - exists w. split; [reflexivity|apply advances_refl].
Qed.

Lemma batchId_after_snoc bodies b :
  batchId_after (bodies ++ [b]) = next_batchId (batchId_after bodies) b.
Proof. unfold batchId_after. rewrite fold_left_app. reflexivity. Qed.

Lemma next_batchId_keeps bodies b :
  truthy b = true -> fold_left next_batchId bodies b = b.
Proof.
  intros Hb. induction bodies as [|x bodies IH]; simpl; [reflexivity|].
  unfold next_batchId at 2. rewrite Hb. exact IH.
Qed.

(** Once the first response has given a truthy [batch_id], that is the
    value of [batchId] for good. *)
Lemma batchId_after_first b0 bodies j :
  truthy (js_get b0 (js "batch_id")) = true ->
  batchId_after (take (S j) (b0 :: bodies)) = js_get b0 (js "batch_id").
Proof.
  intros Hb. unfold batchId_after. simpl.
  unfold next_batchId at 2. simpl. apply next_batchId_keeps. exact Hb.
Qed.

Section Chunker.

Variable files : list File.
Variable onProgress : option upload_callback_t.

(** One iteration of the loop on an accepted reply. *)
Lemma upload_chunks_step fuel k bodies w r rs b :
  (k * CHUNK_SIZE < length files)%nat ->
  replies w = r :: rs -> accepted r b -> bodies !! k = Some b ->
  exists w', advances w w' 1 (chunk_events onProgress files bodies k)
    /\ upload_chunks (S fuel) files onProgress (k * CHUNK_SIZE)
         (batchId_after (take k bodies)) (min (k * CHUNK_SIZE) (length files)) w
       = upload_chunks fuel files onProgress (S k * CHUNK_SIZE)
           (batchId_after (take (S k) bodies))
           (min (S k * CHUNK_SIZE) (length files)) w'.
Proof.
  intros Hlt Hr (resp & -> & Hok & Hbody) Hb.
  destruct (fetch_reply (chunk_request files bodies k) w (Response resp) rs Hr)
    as (w1 & E1 & A1).
  set (up := (min (k * CHUNK_SIZE) (length files) + length (chunk files k))%nat).
  destruct (call_upload_progress_spec onProgress up (length files) w1)
    as (w2 & E2 & A2).
  assert (Hup : up = min (S k * CHUNK_SIZE) (length files)).
  { subst up. unfold chunk. rewrite length_take, length_drop.
    unfold CHUNK_SIZE in *. lia. }
  exists w2. split.
  - pose proof (advances_trans _ _ _ _ _ _ _ A1 A2) as A.
    unfold chunk_events. rewrite <- Hup. exact A.
  - cbn [upload_chunks].
    destruct (Nat.ltb_spec (k * CHUNK_SIZE) (length files)) as [_|]; [|lia].
    unfold mbind at 1, Async_bind at 1.
    fold (chunk files k). fold (chunk_request files bodies k).
    rewrite E1. cbn [settle]. rewrite Hok. cbn [negb].
    unfold mbind at 1, Async_bind at 1.
    unfold await_json, json. rewrite Hbody.
    unfold mret at 1, Async_ret at 1.
    unfold mbind at 1, Async_bind at 1.
    fold up. rewrite E2.
    rewrite (take_S_r _ _ _ Hb), batchId_after_snoc, <- Hup.
    replace (k * CHUNK_SIZE + CHUNK_SIZE)%nat with (S k * CHUNK_SIZE)%nat by lia.
    reflexivity.
Qed.

(** The first [k] iterations on accepted replies. *)
Lemma upload_chunks_prefix rs bodies tail w k :
  replies w = rs ++ tail -> Forall2 accepted rs bodies ->
  (k <= length rs)%nat -> (k <= ceil_div (length files) CHUNK_SIZE)%nat ->
  forall fuel,
  exists w',
    advances w w' k (concat (map (chunk_events onProgress files bodies) (seq 0 k)))
    /\ upload_chunks (k + fuel) files onProgress 0 VNull 0 w
       = upload_chunks fuel files onProgress (k * CHUNK_SIZE)
           (batchId_after (take k bodies))
           (min (k * CHUNK_SIZE) (length files)) w'.
Proof.
  intros Hr HF. induction k as [|k IH]; intros Hk HK fuel.
  - exists w. split; [apply advances_refl|reflexivity].
  - destruct (IH ltac:(lia) ltac:(lia) (S fuel)) as (w1 & A1 & E1).
    assert (Hlt : (k * CHUNK_SIZE < length files)%nat) by (apply ceil_div_spec; lia).
    destruct (lookup_lt_is_Some_2 rs k ltac:(lia)) as (r & Hrk).
    destruct (Forall2_lookup_l _ _ _ _ _ HF Hrk) as (b & Hbk & Hacc).
    assert (Hr1 : replies w1 = r :: drop (S k) (rs ++ tail)).
    { destruct A1 as (R1 & _). rewrite R1, Hr.
      apply drop_S. rewrite lookup_app_l by lia. exact Hrk. }
    destruct (upload_chunks_step fuel k bodies w1 r _ b Hlt Hr1 Hacc Hbk)
      as (w2 & A2 & E2).
    exists w2. split.
    + pose proof (advances_trans _ _ _ _ _ _ _ A1 A2) as A.
      rewrite seq_S, map_app, concat_app. simpl.
      rewrite app_nil_r. replace (S k) with (k + 1)%nat by lia. exact A.
    + replace (S k + fuel)%nat with (k + S fuel)%nat by lia.
      rewrite E1. exact E2.
Qed.

End Chunker.

Lemma advances_fetches w w' k evs :
  advances w w' k evs -> fetches (trace w') = fetches (trace w) ++ fetches evs.
Proof.
  intros (_ & T & _).
  rewrite <- (fetches_protocol (trace w')), T, fetches_app, fetches_protocol.
  reflexivity.
Qed.

Lemma fetches_chunk_events onProgress files bodies js :
  fetches (concat (map (chunk_events onProgress files bodies) js))
  = map (chunk_request files bodies) js.
Proof.
  induction js as [|j js IH]; [reflexivity|].
  cbn [map concat]. rewrite fetches_app, IH.
  unfold chunk_events, progress_event. destruct onProgress; reflexivity.
Qed.

(** The chunks are consecutive slices of the file list. *)
Lemma chunks_take files k :
  concat (map (chunk files) (seq 0 k)) = take (k * CHUNK_SIZE) files.
Proof.
  induction k as [|k IH]; [reflexivity|].
  rewrite seq_S, map_app, concat_app, IH. cbn [Nat.add map concat].
  rewrite app_nil_r. unfold chunk. rewrite take_take_drop.
  f_equal. lia.
Qed.

Lemma chunks_cover files :
  concat (map (chunk files) (seq 0 (ceil_div (length files) CHUNK_SIZE))) = files.
Proof.
  rewrite chunks_take. apply take_ge.
  destruct (Nat.le_gt_cases (length files)
              (ceil_div (length files) CHUNK_SIZE * CHUNK_SIZE)) as [|H]; [assumption|].
  apply ceil_div_spec in H. lia.
Qed.

Lemma chunk_length files j :
  length (chunk files j) = min CHUNK_SIZE (length files - j * CHUNK_SIZE).
Proof. unfold chunk. rewrite length_take, length_drop. reflexivity. Qed.

(** The single-call path: one request with every file, whatever the reply. *)
Lemma uploadImages_advances files onProgress w :
  exists k,
    advances w (snd (uploadImages files onProgress w)) k
      [Fetch (POST_upload_images files None)].
Proof.
  unfold uploadImages, mbind, Async_bind.
  destruct (replies w) as [|r rs] eqn:Hr.
  - destruct (fetch_pending (POST_upload_images files None) w Hr) as (w' & E & A).
    rewrite E. exists 0%nat. exact A.
  - destruct (fetch_reply (POST_upload_images files None) w r rs Hr) as (w' & E & A).
    rewrite E. exists 1%nat. destruct r as [|resp]; simpl; [exact A|].
    destruct (ok resp); simpl; [|exact A].
    unfold await_json. destruct (json resp); exact A.
Qed.

(** The loop run to its end on accepted replies. *)
Lemma uploadImagesChunked_all_accepted files onProgress w rs bodies rest :
  (CHUNK_SIZE < length files)%nat ->
  replies w = rs ++ rest -> Forall2 accepted rs bodies ->
  length rs = ceil_div (length files) CHUNK_SIZE ->
  let run := uploadImagesChunked files onProgress w in
  fst run = Returned (object_literal
                        [ (js "batch_id", batchId_after bodies);
                          (js "file_count", of_nat (length files)) ])
  /\ advances w (snd run) (length rs)
       (concat (map (chunk_events onProgress files bodies)
                  (seq 0 (ceil_div (length files) CHUNK_SIZE)))).
Proof.
  intros Hn Hr HF HK run.
  set (K := ceil_div (length files) CHUNK_SIZE) in *.
  assert (HKn : (K < length files)%nat) by (apply ceil_div_lt; exact Hn).
  destruct (upload_chunks_prefix files onProgress rs bodies rest w K Hr HF
              ltac:(lia) ltac:(lia) (length files - K)%nat) as (w1 & A1 & E1).
  replace (K + (length files - K))%nat with (length files) in E1 by lia.
  assert (Hexit : (K * CHUNK_SIZE <? length files)%nat = false).
  { apply Nat.ltb_ge. destruct (Nat.le_gt_cases (length files) (K * CHUNK_SIZE)) as [|H];
      [assumption|]. apply ceil_div_spec in H. fold K in H. lia. }
  assert (E : upload_chunks (length files) files onProgress 0 VNull 0 w
              = (Returned (batchId_after bodies, min (K * CHUNK_SIZE) (length files)), w1)).
  { rewrite E1. destruct (length files - K)%nat as [|f] eqn:Hf; [lia|].
    cbn [upload_chunks]. rewrite Hexit.
    rewrite take_ge by (rewrite <- (Forall2_length _ _ _ HF); lia).
    reflexivity. }
  subst run. unfold uploadImagesChunked.
  destruct (Nat.leb_spec (length files) CHUNK_SIZE) as [|_]; [lia|].
  unfold mbind, Async_bind. rewrite E. simpl.
  split; [reflexivity|]. rewrite HK. exact A1.
Qed.

(** C1. With the chunk size fixed at 100: for a file list of at most 100
    files, [uploadImagesChunked] issues exactly one upload call, with every
    file and no [batch_id]; for a longer list, when the server accepts every
    upload and its first response carries a (truthy) [batch_id], it issues
    exactly [ceil(n/100)] upload calls, the call numbered [j] carrying the
    slice of the files from [100 j] up to [100 j + 100], in this order, the
    first one without a [batch_id] and every later one with the [batch_id]
    of the first response.  The slices are consecutive and make up the file
    list; each has exactly 100 files, except the last one, which has between
    1 and 100. *)
Theorem uploadImagesChunked_calls (files : list File)
    (onProgress : option upload_callback_t) (w : world) :
  let n := length files in
  let run := uploadImagesChunked files onProgress w in
  CHUNK_SIZE = 100%nat
  /\ ((n <= CHUNK_SIZE)%nat ->
      fetches (trace (snd run))
      = fetches (trace w) ++ [POST_upload_images files None])
  /\ ((CHUNK_SIZE < n)%nat ->
      forall rs b0 bodies rest,
      replies w = rs ++ rest -> Forall2 accepted rs (b0 :: bodies) ->
      length rs = ceil_div n CHUNK_SIZE ->
      truthy (js_get b0 (js "batch_id")) = true ->
      fetches (trace (snd run))
      = fetches (trace w)
        ++ map (fun j => POST_upload_images (chunk files j)
                           (match j with
                            | O => None
                            | S _ => Some (js_get b0 (js "batch_id"))
                            end))
             (seq 0 (ceil_div n CHUNK_SIZE))
      /\ replies (snd run) = rest
      /\ fst run = Returned (object_literal
                               [ (js "batch_id", js_get b0 (js "batch_id"));
                                 (js "file_count", of_nat n) ]))
  /\ concat (map (chunk files) (seq 0 (ceil_div n CHUNK_SIZE))) = files
  /\ (forall j, (S j < ceil_div n CHUNK_SIZE)%nat ->
      length (chunk files j) = CHUNK_SIZE)
  /\ (forall j, (S j = ceil_div n CHUNK_SIZE)%nat ->
      (0 < length (chunk files j) <= CHUNK_SIZE)%nat).
Proof.
  intros n run. split; [reflexivity|]. split; [|split; [|split; [|split]]].
  - intros Hn. subst run. unfold uploadImagesChunked.
    destruct (Nat.leb_spec (length files) CHUNK_SIZE) as [_|]; [|lia].
    destruct (uploadImages_advances files onProgress w) as (k & A).
    apply (advances_fetches _ _ _ _ A).
  - intros Hn rs b0 bodies rest Hr HF HK Hb.
    destruct (uploadImagesChunked_all_accepted files onProgress w rs (b0 :: bodies)
                rest Hn Hr HF HK) as (Hres & A).
    fold run in Hres, A. split; [|split].
    + rewrite (advances_fetches _ _ _ _ A), fetches_chunk_events. f_equal.
      apply map_ext. intros [|j]; unfold chunk_request.
      * reflexivity.
      * rewrite (batchId_after_first b0 bodies j Hb).
        unfold batch_id_field. rewrite Hb. reflexivity.
    + destruct A as (R & _). rewrite R, Hr. apply drop_app_length.
    + rewrite Hres. do 3 f_equal.
      pose proof (Forall2_length _ _ _ HF) as HL.
      rewrite <- (take_ge (b0 :: bodies) (S (length bodies))) by (simpl; lia).
      rewrite (batchId_after_first b0 bodies (length bodies) Hb). reflexivity.
  - apply chunks_cover.
  - intros j Hj. rewrite chunk_length.
    assert (H : (S j * CHUNK_SIZE < n)%nat) by (apply ceil_div_spec; exact Hj).
    lia.
  - intros j Hj. rewrite chunk_length.
    assert (H : (j * CHUNK_SIZE < n)%nat) by (apply ceil_div_spec; lia).
    unfold CHUNK_SIZE in *. lia.
Qed.

Lemma progress_calls_app t1 t2 :
  progress_calls (t1 ++ t2) = progress_calls t1 ++ progress_calls t2.
Proof. apply omap_app. Qed.

Lemma progress_calls_protocol t : progress_calls (protocol t) = progress_calls t.
Proof.
  induction t as [|e t IH]; simpl; [reflexivity|].
  destruct e; simpl; rewrite ?IH; reflexivity.
Qed.

Lemma progress_calls_chunk_events onProgress files bodies js :
  progress_calls (concat (map (chunk_events onProgress files bodies) js))
  = reports onProgress (length files) js.
Proof.
  unfold reports. induction js as [|j js IH].
  - destruct onProgress; reflexivity.
  - cbn [map concat]. rewrite progress_calls_app, IH.
    unfold chunk_events, progress_event. destruct onProgress; reflexivity.
Qed.

Lemma failed_chunk_message_index k :
  failed_chunk_message (k * CHUNK_SIZE)
  = VStr (js ("Failed to upload chunk " ++ pretty (S k))).
Proof.
  unfold failed_chunk_message. rewrite Nat.div_mul by discriminate.
  replace (k + 1)%nat with (S k) by lia. reflexivity.
Qed.

(** C6. In the chunked path, when the server accepts the uploads of the
    first [k] chunks and answers the next one with a response that is not
    2xx, [uploadImagesChunked] throws at once an error whose message names
    the failed chunk by its 1-based index, [k + 1].  That upload was its
    last request: no later chunk is uploaded and the failed one is not
    retried, so that [k + 1] requests were made and the replies after the
    refusal are left unread.  The progress callback was called for the [k]
    chunks before the failed one, and neither for the failed chunk nor for
    any later one. *)
Theorem uploadImagesChunked_chunk_failure (files : list File)
    (onProgress : option upload_callback_t) (w : world)
    (rs : list reply) (bodies : list jsobj) (bad : response) (rest : list reply) :
  (CHUNK_SIZE < length files)%nat ->
  replies w = rs ++ Response bad :: rest ->
  Forall2 accepted rs bodies ->
  ok bad = false ->
  (length rs < ceil_div (length files) CHUNK_SIZE)%nat ->
  let k := length rs in
  let run := uploadImagesChunked files onProgress w in
  fst run = Thrown (new_Error (VStr (js ("Failed to upload chunk " ++ pretty (S k)))))
  /\ protocol (trace (snd run))
     = protocol (trace w)
       ++ concat (map (chunk_events onProgress files bodies) (seq 0 k))
       ++ [Fetch (chunk_request files bodies k)]
  /\ replies (snd run) = rest
  /\ length (fetches (trace (snd run))) = (length (fetches (trace w)) + S k)%nat
  /\ progress_calls (trace (snd run))
     = progress_calls (trace w) ++ reports onProgress (length files) (seq 0 k).
Proof.
  intros Hn Hr HF Hbad Hk k run.
  assert (HKn : (ceil_div (length files) CHUNK_SIZE < length files)%nat)
    by (apply ceil_div_lt; exact Hn).
  destruct (upload_chunks_prefix files onProgress rs bodies (Response bad :: rest) w k
              Hr HF ltac:(lia) ltac:(lia) (length files - k)%nat) as (w1 & A1 & E1).
  replace (k + (length files - k))%nat with (length files) in E1 by lia.
  assert (Hr1 : replies w1 = Response bad :: rest).
  { destruct A1 as (R1 & _). rewrite R1, Hr. apply drop_app_length. }
  destruct (fetch_reply (chunk_request files bodies k) w1 (Response bad) rest Hr1)
    as (w2 & E2 & A2).
  assert (Hlt : (k * CHUNK_SIZE <? length files)%nat = true).
  { apply Nat.ltb_lt. apply ceil_div_spec. exact Hk. }
  assert (E : upload_chunks (length files) files onProgress 0 VNull 0 w
              = (Thrown (new_Error (failed_chunk_message (k * CHUNK_SIZE))), w2)).
  { rewrite E1. destruct (length files - k)%nat as [|f] eqn:Hf; [lia|].
    cbn [upload_chunks]. rewrite Hlt.
    unfold mbind at 1, Async_bind at 1.
    fold (chunk files k). fold (chunk_request files bodies k).
    rewrite E2. cbn [settle]. rewrite Hbad. reflexivity. }
  pose proof (advances_trans _ _ _ _ _ _ _ A1 A2) as A.
  assert (Hrun : run = (Thrown (new_Error (failed_chunk_message (k * CHUNK_SIZE))), w2)).
  { subst run. unfold uploadImagesChunked.
    destruct (Nat.leb_spec (length files) CHUNK_SIZE) as [|_]; [lia|].
    unfold mbind, Async_bind. rewrite E. reflexivity. }
  rewrite Hrun. cbn [fst snd].
  split; [rewrite failed_chunk_message_index; reflexivity|].
  split; [destruct A as (_ & T & _); exact T|].
  split; [destruct A as (R & _); subst k;
          rewrite R, Hr, <- drop_drop, drop_app_length; reflexivity|].
  split.
  - rewrite (advances_fetches _ _ _ _ A), fetches_app, fetches_chunk_events.
    rewrite !length_app, length_map, length_seq. simpl. lia.
  - destruct A as (_ & T & _).
    rewrite <- (progress_calls_protocol (trace w2)), T.
    rewrite !progress_calls_app, progress_calls_protocol,
      progress_calls_chunk_events.
    simpl. rewrite app_nil_r. reflexivity.
Qed.

Lemma upload_ok_accepted batch_id count :
  accepted (upload_ok batch_id count) (upload_ok_body batch_id count).
Proof. eexists. split; [reflexivity|]. split; reflexivity. Qed.

Lemma uploadImagesChunked_calls_witness :
  fetches (trace (snd (uploadImagesChunked (sample_files 3) None
                         (World [upload_ok "b1" 3] [] false false None))))
  = [ POST_upload_images (sample_files 3) None ]
  /\ fetches (trace (snd (uploadImagesChunked (sample_files 250) None
                            (World [ upload_ok "b1" 100; upload_ok "b1" 200;
                                     upload_ok "b1" 250 ]
                               [] false false None))))
     = [ POST_upload_images (take 100 (sample_files 250)) None;
         POST_upload_images (take 100 (drop 100 (sample_files 250)))
           (Some (VStr (js "b1")));
         POST_upload_images (drop 200 (sample_files 250))
           (Some (VStr (js "b1"))) ].
Proof.
  split.
  - destruct (uploadImagesChunked_calls (sample_files 3) None
                (World [upload_ok "b1" 3] [] false false None)) as (_ & H & _).
    apply H. apply Nat.leb_le. vm_compute. reflexivity.
  - destruct (uploadImagesChunked_calls (sample_files 250) None
                (World [ upload_ok "b1" 100; upload_ok "b1" 200; upload_ok "b1" 250 ]
                   [] false false None)) as (_ & _ & H & _).
    destruct (H ltac:(apply Nat.ltb_lt; vm_compute; reflexivity)
                [ upload_ok "b1" 100; upload_ok "b1" 200; upload_ok "b1" 250 ]
                (upload_ok_body "b1" 100)
                [ upload_ok_body "b1" 200; upload_ok_body "b1" 250 ] [])
      as (Hf & _).
    + reflexivity.
    + repeat (constructor; [apply upload_ok_accepted|]). constructor.
    + vm_compute. reflexivity.
    + reflexivity.
    + rewrite Hf. vm_compute. reflexivity.
Defined.

Lemma uploadImagesChunked_chunk_failure_witness :
  fst (uploadImagesChunked (sample_files 250) (Some upload_callback)
         (World [ upload_ok "b1" 100; Response (Resp 500 None); upload_ok "b1" 250 ]
            [] false false None))
  = Thrown (new_Error (VStr (js "Failed to upload chunk 2")))
  /\ progress_calls
       (trace (snd (uploadImagesChunked (sample_files 250) (Some upload_callback)
                      (World [ upload_ok "b1" 100; Response (Resp 500 None);
                               upload_ok "b1" 250 ]
                         [] false false None))))
     = [ (100%nat, 250%nat) ].
Proof.
  destruct (uploadImagesChunked_chunk_failure (sample_files 250) (Some upload_callback)
              (World [ upload_ok "b1" 100; Response (Resp 500 None); upload_ok "b1" 250 ]
                 [] false false None)
              [ upload_ok "b1" 100 ] [ upload_ok_body "b1" 100 ] (Resp 500 None)
              [ upload_ok "b1" 250 ])
    as (H1 & _ & _ & _ & H2).
  - apply Nat.ltb_lt. vm_compute. reflexivity.
  - reflexivity.
  - constructor; [apply upload_ok_accepted|constructor].
  - reflexivity.
  - apply Nat.ltb_lt. vm_compute. reflexivity.
  - split; [exact H1|]. rewrite H2. vm_compute. reflexivity.
Defined.

(** In the single-call path the progress callback is never called. *)
Lemma uploadImagesChunked_single_call_silent files onProgress w :
  (length files <= CHUNK_SIZE)%nat ->
  progress_calls (trace (snd (uploadImagesChunked files onProgress w)))
  = progress_calls (trace w).
Proof.
  intros Hn. unfold uploadImagesChunked.
  destruct (Nat.leb_spec (length files) CHUNK_SIZE) as [_|]; [|lia].
  destruct (uploadImages_advances files onProgress w) as (k & _ & T & _).
  rewrite <- (progress_calls_protocol (trace (snd _))), T.
  rewrite progress_calls_app, progress_calls_protocol. simpl.
  apply app_nil_r.
Qed.

(** In the chunked path, with every upload accepted, a callback that is
    given is called once after each chunk, with the cumulative count and
    the total; the last call reports [(n, n)]. *)
Lemma uploadImagesChunked_chunked_progress files f w rs bodies rest :
  (CHUNK_SIZE < length files)%nat ->
  replies w = rs ++ rest -> Forall2 accepted rs bodies ->
  length rs = ceil_div (length files) CHUNK_SIZE ->
  let n := length files in
  let calls := progress_calls (trace (snd (uploadImagesChunked files (Some f) w))) in
  calls = progress_calls (trace w)
          ++ map (fun j => (min (S j * CHUNK_SIZE) n, n)) (seq 0 (ceil_div n CHUNK_SIZE))
  /\ last calls = Some (n, n).
Proof.
  intros Hn Hr HF HK n calls.
  destruct (uploadImagesChunked_all_accepted files (Some f) w rs bodies rest Hn Hr HF HK)
    as (_ & _ & T & _).
  assert (E : calls = progress_calls (trace w)
          ++ map (fun j => (min (S j * CHUNK_SIZE) n, n)) (seq 0 (ceil_div n CHUNK_SIZE))).
  { subst calls. rewrite <- (progress_calls_protocol (trace (snd _))), T.
    rewrite progress_calls_app, progress_calls_protocol, progress_calls_chunk_events.
    reflexivity. }
  split; [exact E|]. rewrite E.
  destruct (ceil_div n CHUNK_SIZE) as [|K] eqn:HKn.
  - assert (H : (0 < ceil_div n CHUNK_SIZE)%nat)
      by (apply ceil_div_spec; unfold CHUNK_SIZE in *; lia). lia.
  - rewrite seq_S, map_app, app_assoc. cbn [map Nat.add]. rewrite last_snoc.
    do 2 f_equal. apply Nat.min_r.
    destruct (Nat.le_gt_cases n (S K * CHUNK_SIZE)) as [|H]; [assumption|].
    apply ceil_div_spec in H. lia.
Qed.

(** C5, at a list of one file with a callback given: the upload succeeds
    and returns the server's answer, yet the trace holds the request and
    nothing else; the callback was not called, and no [(1, 1)] was
    reported.  [uploadImagesChunked] hands the callback to [uploadImages],
    which never uses it. *)
Theorem uploadImagesChunked_one_file_no_progress :
  let run := uploadImagesChunked (sample_files 1) (Some upload_callback)
               (World [upload_ok "b1" 1] [] false false None) in
  fst run = Returned (upload_ok_body "b1" 1)
  /\ trace (snd run) = [ Fetch (POST_upload_images (sample_files 1) None) ]
  /\ progress_calls (trace (snd run)) = []
  /\ last (progress_calls (trace (snd run))) <> Some (1%nat, 1%nat).
Proof.
  vm_compute. repeat split; discriminate.
Qed.

(** ** The composition of the overall progress *)

(** The two formulas as they are worded are monotone, and both give 30
    where the two phases meet. *)
Lemma spec_round_le (x y : Q) : (x <= y)%Q -> spec_round x <= spec_round y.
Proof.
  intros H. unfold spec_round. apply Qfloor_resp_le.
  apply Qplus_le_compat; [exact H|apply Qle_refl].
Qed.

Lemma spec_uploadPct_le (k k' n : nat) :
  (k <= k')%nat -> spec_uploadPct k n <= spec_uploadPct k' n.
Proof.
  intros H. unfold spec_uploadPct. apply spec_round_le.
  apply Qmult_le_compat_r; [|discriminate].
  unfold Qdiv. apply Qmult_le_compat_r.
  - rewrite <- Zle_Qle. lia.
  - apply Qinv_le_0_compat. replace 0%Q with (inject_Z 0) by reflexivity.
    rewrite <- Zle_Qle. lia.
Qed.

Lemma spec_extractPct_le (p q : Q) :
  (p <= q)%Q -> spec_extractPct p <= spec_extractPct q.
Proof.
  intros H. unfold spec_extractPct. apply Z.add_le_mono_l. apply spec_round_le.
  apply Qmult_le_compat_r; [|discriminate].
  unfold Qdiv. apply Qmult_le_compat_r; [exact H|discriminate].
Qed.

Lemma spec_uploadPct_complete (n : nat) : (0 < n)%nat -> spec_uploadPct n n = 30.
Proof.
  intros Hn. unfold spec_uploadPct, spec_round.
  assert (E : (inject_Z (Z.of_nat n) / inject_Z (Z.of_nat n) * 30 + (1 # 2) == 61 # 2)%Q).
  { unfold Qdiv. rewrite Qmult_inv_r; [reflexivity|].
    replace 0%Q with (inject_Z 0) by reflexivity.
    rewrite inject_Z_injective. lia. }
  rewrite E. reflexivity.
Qed.

Example spec_extractPct_start : spec_extractPct 0 = 30.
Proof. reflexivity. Qed.

(** The binary64 arithmetic of the two callbacks gives these integers: for
    every batch of 101 to 1000 files at every count the chunker reports,
    and for every whole job percentage from 0 to 100. *)
Lemma uploadPct_exact (n k : nat) :
  (CHUNK_SIZE < n <= 1000)%nat -> In k (reported_counts n) ->
  integer_of (uploadPct k n) = Some (spec_uploadPct k n).
Proof.
  intros Hn Hk.
  assert (C : forallb (fun n =>
                forallb (fun k =>
                  bool_decide (integer_of (uploadPct k n) = Some (spec_uploadPct k n)))
                  (reported_counts n)) (seq 101 900) = true)
    by (vm_compute; reflexivity).
  rewrite forallb_forall in C.
  assert (Hin : In n (seq 101 900)) by (apply in_seq; unfold CHUNK_SIZE in Hn; lia).
  specialize (C n Hin). rewrite forallb_forall in C.
  specialize (C k Hk). apply bool_decide_eq_true in C. exact C.
Qed.

Lemma extractPct_exact (p : nat) :
  (p <= 100)%nat ->
  integer_of (extractPct (binary64_of_Z (Z.of_nat p)))
  = Some (spec_extractPct (inject_Z (Z.of_nat p))).
Proof.
  intros Hp.
  assert (C : forallb (fun p =>
                bool_decide (integer_of (extractPct (binary64_of_Z (Z.of_nat p)))
                             = Some (spec_extractPct (inject_Z (Z.of_nat p)))))
                (seq 0 101) = true)
    by (vm_compute; reflexivity).
  rewrite forallb_forall in C.
  assert (Hin : In p (seq 0 101)) by (apply in_seq; lia).
  specialize (C p Hin). apply bool_decide_eq_true in C. exact C.
Qed.

(** Between whole percentages the rounding of the division and of the
    product can carry the value across a half: at the binary64 number just
    below 25/7 the callback computes 33, where the exact value of
    [p/100*70] is below 2.5 and rounds to 2. *)
Example extractPct_between :
  let p := 0x1.c924924924924p+1%float in
  integer_of (extractPct p) = Some 33
  /\ spec_extractPct <$> binary64_value p = Some 32.
Proof. vm_compute. split; reflexivity. Qed.

(** A [percentage] that is not a number is converted first. *)
Example extractPct_of_not_a_number :
  map extractPct_of
    [ VNull; VBool true; VStr (js "50"); VStr (js " 1e1 "); VStr []; VStr (js "50%");
      VUndefined; VOpaque 1 (js "[object Object]"); VOpaque 2 (js "55") ]
  = [ of_Z 30; of_Z 31; of_Z 65; of_Z 37; of_Z 30; VNum nan;
      VNum nan; VNum nan; of_Z 69 ].
Proof. vm_compute. reflexivity. Qed.

Example StringToNumber_literals :
  map (fun s => integer_of (StringToNumber (js s)))
    [ "50"; " 12 "; "0x1F"; "0b101"; "0o17"; "1e3"; "+.5e1"; "5."; "-7"; "";
      "125e-1"; "."; "e5"; "0x"; "-0x10"; "1_000"; "12px"; "1e"; "1.5.2";
      "Infinity"; "infinity" ]%string
  = [ Some 50; Some 12; Some 31; Some 5; Some 15; Some 1000; Some 5; Some 5;
      Some (-7); Some 0; None; None; None; None; None; None; None; None; None;
      None; None ].
Proof. vm_compute. reflexivity. Qed.

Example Math_round_ties :
  map (fun x => integer_of (Math_round x))
    [ 0.5; 1.5; 2.5; -0.5; -1.5; -2.5; 0x1.fffffffffffffp-2; 0.25; -0.75 ]%float
  = [ Some 1; Some 2; Some 3; Some 0; Some (-1); Some (-2); Some 0; Some 0;
      Some (-1) ].
Proof. vm_compute. reflexivity. Qed.

Example uploadPct_scenario :
  map (fun k => VNum (uploadPct k 250)) [100; 200; 250]%nat = map of_Z [12; 24; 30].
Proof. vm_compute. reflexivity. Qed.

Example extractPct_scenario :
  map (fun p => extractPct_of (of_Z p)) [0; 10; 55; 100] = map of_Z [30; 37; 69; 100].
Proof. vm_compute. reflexivity. Qed.

(** C3. The composed percentage of the extraction phase is computed and at
    once replaced.  The upload callback of [handleExtract] leaves the
    percentage [round(k/n * 30)] in the [progress] state.  The polling
    callback computes [30 + round(p/100 * 70)] from the job percentage [p]
    and sets it, and then calls [handleProgressUpdate], which sets the
    state again from the status as the server sent it: what the callback
    leaves in the state is the job's own percentage [p], not the composed
    one.  So in an extraction of 250 files whose job is polled at 0, at 50
    and at 100 percent, the percentage goes 0, 12, 24, 30 through the
    upload, stays 30 until the first status arrives, and then the state is
    given 30 and 0, 65 and 50, 100 and 100: the overall percentage falls
    from 30 to 0 at the start of the extraction, and is 50 where it was to
    be 65. *)
Theorem handleExtract_progress_regresses :
  (forall (k n : nat) (before : option progress),
     shown_percentage (progress_after before (upload_callback k n))
     = Some (VNum (uploadPct k n)))
  /\ (forall (st : jsobj) (before : option progress),
        head (poll_callback st)
        = Some (setProgress (Some
            (Progress (js_get st (js "processed")) (js_get st (js "total"))
               (VNum (extractPct (ToNumber (js_get st (js "percentage")))))
               (VStr (js "extraction")) (js_get st (js "stage")))))
        /\ shown_percentage (progress_after before (poll_callback st))
           = Some (js_get st (js "percentage")))
  /\ (let run := handleExtract (sample_input 250 "auto")
                   (World polled_extraction [] false false None) in
      fst run = Returned tt
      /\ percentages (trace (snd run))
         = map of_Z [0; 12; 24; 30; 30; 30; 30; 0; 65; 50; 100; 100; 100])
  /\ (let before := Some (Progress (of_Z 0) (of_nat 250) (of_Z 30)
                            (VStr (js "extraction"))
                            (VStr (js "Starting extraction..."))) in
      let st := job_status "processing" 0 250 0 in
      shown_percentage before = Some (of_Z 30)
      /\ extractPct_of (js_get st (js "percentage")) = of_Z 30
      /\ shown_percentage (progress_after before (poll_callback st)) = Some (of_Z 0)).
Proof.
  split; [reflexivity|]. split; [|split].
  - intros st before. split; [reflexivity|].
    unfold poll_callback, handleProgressUpdate, progress_after.
    cbn [fold_left].
    repeat (destruct (strict_eq_str _ _)); reflexivity.
  - vm_compute. split; reflexivity.
  - vm_compute. repeat split; reflexivity.
Qed.

(** ** The extraction workflow *)

(** With no file, or with no field that is not blank, [handleExtract]
    reports an error and does nothing else: no request is made. *)
Lemma handleExtract_guards (i : extract_input) (w : world) :
  (files i = [] ->
   handleExtract i w = (Returned tt, emit (Ui (setError (Some PleaseUploadAnImage))) w))
  /\ (files i <> [] ->
      Forall (fun f => trim f = []) (schemaFields i) ->
      handleExtract i w
      = (Returned tt, emit (Ui (setError (Some PleaseDefineAField))) w)).
Proof.
  split.
  - intros Hf. unfold handleExtract. rewrite Hf. reflexivity.
  - intros Hf Hblank. unfold handleExtract.
    destruct (files i) as [|f fs]; [contradiction|]. cbn [length Nat.eqb].
    assert (E : filter (fun f => nonempty (trim f) = true) (schemaFields i) = []).
    { induction Hblank as [|x l Hx _ IH]; [reflexivity|].
      rewrite filter_cons_False; [exact IH|]. rewrite Hx. discriminate. }
    rewrite E. reflexivity.
Qed.

(** [buildSchema] on field names none of which trims to "__proto__": the
    keys are the trimmed names that are not empty, each mapped to [null]. *)
Lemma buildSchema_own (fields : list (list N)) (k : list N) :
  Forall (fun f => trim f <> js "__proto__") fields ->
  own (buildSchema fields) !! k
  = if bool_decide (k <> [] /\ k ∈ map trim fields) then Some VNull else None.
Proof.
  intros Hp. unfold buildSchema.
  assert (G : forall schema,
    proto_null schema = false ->
    let result := fold_left
      (fun schema f =>
         if nonempty (trim f) then js_set_null schema (trim f) else schema)
      fields schema in
    proto_null result = false
    /\ own result !! k
       = if bool_decide (k <> [] /\ k ∈ map trim fields) then Some VNull
         else own schema !! k).
  { induction Hp as [|f fields Hf _ IH]; intros schema Hs.
    - simpl. split; [exact Hs|].
      rewrite bool_decide_eq_false_2; [reflexivity|].
      intros (_ & H). inversion H.
    - cbn [fold_left map].
      set (schema' := if nonempty (trim f) then js_set_null schema (trim f) else schema).
      assert (Hs' : proto_null schema' = false
                    /\ own schema' = if nonempty (trim f)
                                     then <[trim f := VNull]> (own schema)
                                     else own schema).
      { subst schema'. destruct (nonempty (trim f)); [|auto].
        unfold js_set_null, JsString.eqb.
        rewrite bool_decide_eq_false_2 by exact Hf. simpl. auto. }
      destruct Hs' as (Hp' & Ho').
      destruct (IH schema' Hp') as (IH1 & IH2).
      split; [exact IH1|]. rewrite IH2, Ho'.
      destruct (decide (k <> [] /\ k ∈ map trim fields)) as [Hin|Hnin].
      + rewrite !bool_decide_eq_true_2; [reflexivity| |exact Hin].
        destruct Hin as (Hk & Hin). split; [exact Hk|]. now apply list_elem_of_further.
      + rewrite (bool_decide_eq_false_2 _ Hnin).
        destruct (decide (k = trim f)) as [->|Hne].
        * destruct (trim f) as [|c r] eqn:Ht.
          -- cbn [nonempty]. rewrite bool_decide_eq_false_2; [reflexivity|].
             intros (H & _). contradiction.
          -- cbn [nonempty]. rewrite lookup_insert_eq.
             rewrite bool_decide_eq_true_2; [reflexivity|].
             split; [discriminate|]. apply list_elem_of_here.
        * rewrite bool_decide_eq_false_2.
          -- destruct (nonempty (trim f)); [|reflexivity].
             rewrite lookup_insert_ne by congruence. reflexivity.
          -- intros (Hk & Hin). apply elem_of_cons in Hin as [Hin|Hin]; [contradiction|].
             apply Hnin. auto. }
  destruct (G empty_object eq_refl) as (_ & G2). rewrite G2.
  destruct (bool_decide _); [reflexivity|]. apply lookup_empty.
Qed.

(** So a field list that passes the guard of [handleExtract] and has no
    name trimming to "__proto__" gives a schema with at least one key. *)
Lemma buildSchema_nonempty (fields : list (list N)) :
  Forall (fun f => trim f <> js "__proto__") fields ->
  filter (fun f => nonempty (trim f) = true) fields <> [] ->
  (0 < own_key_count (buildSchema fields))%nat.
Proof.
  intros Hp Hne.
  destruct (filter _ fields) as [|f l] eqn:E; [contradiction|].
  assert (Hin : f ∈ filter (fun f => nonempty (trim f) = true) fields)
    by (rewrite E; apply list_elem_of_here).
  apply list_elem_of_filter in Hin as (Hf & Hin).
  assert (L : own (buildSchema fields) !! trim f = Some VNull).
  { rewrite (buildSchema_own fields (trim f) Hp).
    rewrite bool_decide_eq_true_2; [reflexivity|]. split.
    - intros Ht. rewrite Ht in Hf. discriminate.
    - apply list_elem_of_fmap. eauto. }
  unfold own_key_count.
  destruct (decide (size (own (buildSchema fields)) = 0%nat)) as [Hz|]; [|lia].
  apply map_size_empty_iff in Hz. rewrite Hz, lookup_empty in L. discriminate.
Qed.

(** C9, at one file and the single field name "__proto__".  The name is
    not blank, so the guard of [handleExtract] lets the run through; but
    [schema["__proto__"] = null] sets the prototype of the schema and
    creates no property, so that [buildSchema] returns an object without a
    key, and the extraction request goes out with the empty schema. *)
Theorem handleExtract_proto_field_empty_schema :
  let i := {| files := sample_files 1;
              schemaFields := [ js "__proto__" ];
              processingMode := js "auto";
              customFilename := [];
              defaultFilename := js "survey_2024-05-01_10-00-00" |} in
  let w := World [ upload_ok "b1" 1; job_queued "job-1";
                   Response (Resp 200 (Some job_completed)) ]
             [] false false None in
  let run := handleExtract i w in
  filter (fun f => nonempty (trim f) = true) (schemaFields i) = [ js "__proto__" ]
  /\ own_key_count (buildSchema (schemaFields i)) = 0%nat
  /\ fetches (trace (snd run))
     = [ POST_upload_images (sample_files 1) None;
         POST_extract_batch_async (VStr (js "b1")) (JsObj ∅ true [])
           (VStr (js "survey_2024-05-01_10-00-00"));
         GET_extract_batch_status (VStr (js "job-1")) ]
  /\ map own_key_count (extraction_schemas (trace (snd run))) = [ 0%nat ]
  /\ fst run = Returned tt.
Proof.
  vm_compute. repeat split.
Qed.

(** C4, at 250 files with the user pressing Terminate while the upload of
    the first chunk is in flight.  [handleTerminate] aborts the signal of
    the controller [handleExtract] created, but no request was given that
    signal and nothing reads it: the run goes on to upload the two other
    chunks, to queue the extraction and to poll the job twice, and ends as
    a completed extraction, not as a cancelled one. *)
Theorem handleExtract_ignores_abort :
  let i := {| files := sample_files 250;
              schemaFields := [ js "name"; js "age" ];
              processingMode := js "auto";
              customFilename := js "wave-1";
              defaultFilename := js "survey_2024-05-01_10-00-00" |} in
  let w := World [ upload_ok "b1" 100; upload_ok "b1" 200; upload_ok "b1" 250;
                   job_queued "job-1";
                   Response (Resp 200 (Some (job_status "processing" 10 250 4)));
                   Response (Resp 200 (Some job_completed)) ]
             [] false false (Some 0%nat) in
  let run := handleExtract i w in
  signal_aborted (snd run) = true
  /\ fetches (after_abort (trace (snd run)))
     = [ POST_upload_images (chunk (sample_files 250) 1) (Some (VStr (js "b1")));
         POST_upload_images (chunk (sample_files 250) 2) (Some (VStr (js "b1")));
         POST_extract_batch_async (VStr (js "b1"))
           (buildSchema [ js "name"; js "age" ]) (VStr (js "wave-1"));
         GET_extract_batch_status (VStr (js "job-1"));
         GET_extract_batch_status (VStr (js "job-1")) ]
  /\ fst run = Returned tt
  /\ last (omap (fun e => match e with Ui (setStatus s) => Some s | _ => None end)
             (trace (snd run)))
     = Some StatusComplete.
Proof.
  vm_compute. repeat split.
Qed.

(** * Further properties *)

(** ** Rules for what a computation may do *)

Section Rules.

Context {A B : Type}.
Variable good : event -> Prop.
Variable P : js_error -> Prop.

Lemma emits_only_ret (a : A) : emits_only good (mret a).
Proof. intros w. exists []. rewrite app_nil_r. auto. Qed.

Lemma emits_only_throw (e : js_error) : emits_only good (throw e : Async A).
Proof. intros w. exists []. rewrite app_nil_r. auto. Qed.

Lemma emits_only_pending : emits_only good (fun w => (Pending, w) : outcome A * world).
Proof. intros w. exists []. rewrite app_nil_r. auto. Qed.

Lemma emits_only_bind (m : Async A) (f : A -> Async B) :
  emits_only good m -> (forall a, emits_only good (f a)) ->
  emits_only good (m ≫= f).
Proof.
  intros Hm Hf w. unfold mbind, Async_bind.
  destruct (Hm w) as (evs1 & T1 & G1).
  destruct (m w) as [[a|e|] w1]; simpl in T1; [|eauto|eauto].
  destruct (Hf a w1) as (evs2 & T2 & G2).
  exists (evs1 ++ evs2). rewrite T2, T1, app_assoc. split; [reflexivity|].
  apply Forall_app; auto.
Qed.

Lemma throws_only_ret (a : A) : throws_only P (mret a).
Proof. intros w e [=]. Qed.

Lemma throws_only_throw (e : js_error) : P e -> throws_only P (throw e : Async A).
Proof. intros He w e' [= <-]. exact He. Qed.

Lemma throws_only_pending : throws_only P (fun w => (Pending, w) : outcome A * world).
Proof. intros w e [=]. Qed.

Lemma throws_only_bind (m : Async A) (f : A -> Async B) :
  throws_only P m -> (forall a, throws_only P (f a)) ->
  throws_only P (m ≫= f).
Proof.
  intros Hm Hf w e. unfold mbind, Async_bind.
  specialize (Hm w). destruct (m w) as [[a|e'|] w1]; simpl in *.
  - apply Hf.
  - intros [= <-]. apply Hm. reflexivity.
  - intros [=].
Qed.

End Rules.

Section EffectRules.

Variable good : event -> Prop.
Variable P : js_error -> Prop.

Lemma emits_only_emits (es : list event) :
  Forall good es -> emits_only good (emits es).
Proof.
  intros Hes w. exists es. split; [|exact Hes]. unfold emits. simpl.
  clear Hes. revert w. induction es as [|e es IH]; intros w; simpl.
  - now rewrite app_nil_r.
  - rewrite IH. simpl. now rewrite <- app_assoc.
Qed.

Lemma emits_only_log (e : event) : good e -> emits_only good (log e).
Proof. intros He w. exists [e]. simpl. auto. Qed.

Lemma throws_only_emits (es : list event) : throws_only P (emits es).
Proof. intros w e [=]. Qed.

Lemma throws_only_log (e : event) : throws_only P (log e).
Proof. intros w e' [=]. Qed.

Lemma handleTerminate_trace (w : world) :
  exists evs, trace (handleTerminate w) = trace w ++ evs
              /\ (evs = [] \/ evs = terminate_events).
Proof.
  unfold handleTerminate. destruct (abortController w).
  - exists terminate_events. split; [|auto]. simpl.
    rewrite <- !app_assoc. reflexivity.
  - exists []. rewrite app_nil_r. auto.
Qed.

Lemma emits_only_fetch (req : request) :
  good (Fetch req) -> Forall good terminate_events ->
  emits_only good (fetch req).
Proof.
  intros Hreq Hterm w.
  assert (S : exists evs, trace (send req w) = trace w ++ evs /\ Forall good evs).
  { unfold send. case_bool_decide.
    - destruct (handleTerminate_trace (emit (Fetch req) w)) as (evs & T & [ -> | -> ]).
      + exists [Fetch req]. rewrite T, app_nil_r. simpl. auto.
      + exists (Fetch req :: terminate_events). rewrite T. simpl.
        rewrite <- app_assoc. split; [reflexivity|]. constructor; auto.
    - exists [Fetch req]. simpl. auto. }
  destruct S as (evs & T & G). exists evs. split; [|exact G].
  unfold fetch. destruct (replies (send req w)) as [|r rs]; [exact T|].
  destruct r; exact T.
Qed.

Lemma throws_only_fetch (req : request) :
  P (TypeError "Failed to fetch") -> throws_only P (fetch req).
Proof.
  intros HP w e. unfold fetch.
  destruct (replies (send req w)) as [|[|r] rs]; simpl; intros [=]; subst; exact HP.
Qed.

Lemma emits_only_await_json (r : response) : emits_only good (await_json r).
Proof.
  unfold await_json. destruct (json r); [apply emits_only_throw|apply emits_only_ret].
Qed.

Lemma throws_only_await_json (r : response) :
  P SyntaxError -> throws_only P (await_json r).
Proof.
  intros HP. unfold await_json, json. destruct (body r).
  - apply throws_only_ret.
  - apply throws_only_throw. exact HP.
Qed.

(** [try]/[catch]: the handler sees the errors the block can throw. *)
Lemma emits_only_try_catch {A} (m : Async A) (h : js_error -> Async A) :
  emits_only good m -> throws_only P m ->
  (forall e, P e -> emits_only good (h e)) ->
  emits_only good (try_catch m h).
Proof.
  intros Hm Ht Hh w. unfold try_catch.
  destruct (Hm w) as (evs1 & T1 & G1). specialize (Ht w).
  destruct (m w) as [[a|e|] w1]; simpl in *; [eauto| |eauto].
  destruct (Hh e (Ht e eq_refl) w1) as (evs2 & T2 & G2).
  exists (evs1 ++ evs2). rewrite T2, T1, app_assoc. split; [reflexivity|].
  apply Forall_app; auto.
Qed.

Lemma throws_only_try_catch {A} (m : Async A) (h : js_error -> Async A) :
  (forall e, throws_only P (h e)) -> throws_only P (try_catch m h).
Proof.
  intros Hh w e. unfold try_catch.
  destruct (m w) as [[a|e'|] w1] eqn:E; simpl.
  - intros [=].
  - apply Hh.
  - intros [=].
Qed.

Lemma emits_only_try_finally {A} (m : Async A) (f : Async unit) :
  emits_only good m -> emits_only good f -> emits_only good (try_finally m f).
Proof.
  intros Hm Hf w. unfold try_finally.
  destruct (Hm w) as (evs1 & T1 & G1).
  destruct (m w) as [[a|e|] w1]; simpl in *; [| |eauto].
  all: destruct (Hf w1) as (evs2 & T2 & G2);
    exists (evs1 ++ evs2); split;
    [destruct (f w1) as [[[]|e'|] w2]; simpl in *; rewrite T2, T1, app_assoc; reflexivity
    |apply Forall_app; auto].
Qed.

Lemma throws_only_try_finally {A} (m : Async A) (f : Async unit) :
  throws_only P m -> throws_only P f -> throws_only P (try_finally m f).
Proof.
  intros Hm Hf w e. unfold try_finally.
  specialize (Hm w). destruct (m w) as [[a|e'|] w1]; simpl in *.
  - specialize (Hf w1). destruct (f w1) as [[[]|e''|] w2]; simpl in *;
      intros [=]; subst. apply Hf. reflexivity.
  - specialize (Hf w1). destruct (f w1) as [[[]|e''|] w2]; simpl in *;
      intros [=]; subst; [apply Hm|apply Hf]; reflexivity.
  - intros [=].
Qed.

End EffectRules.

Lemma emits_only_weaken {A} (good good' : event -> Prop) (m : Async A) :
  (forall e, good e -> good' e) -> emits_only good m -> emits_only good' m.
Proof.
  intros Hi Hm w. destruct (Hm w) as (evs & T & G). exists evs. split; [exact T|].
  eapply Forall_impl; eauto.
Qed.

(** Repeated steps: take a computation apart along its binds. *)
Ltac emits_steps :=
  repeat lazymatch goal with
    | |- emits_only _ (mret _) => apply emits_only_ret
    | |- emits_only _ (throw _) => apply emits_only_throw
    | |- emits_only _ (await_json _) => apply emits_only_await_json
    | |- emits_only _ (mbind _ _) => apply emits_only_bind; [|intros ?]
    | |- emits_only _ (fun w => (Pending, w)) => apply emits_only_pending
    end.

Ltac throws_steps :=
  repeat lazymatch goal with
    | |- throws_only _ (mret _) => apply throws_only_ret
    | |- throws_only _ (log _) => apply throws_only_log
    | |- throws_only _ (ui _) => apply throws_only_log
    | |- throws_only _ (emits _) => apply throws_only_emits
    | |- throws_only _ (mbind _ _) => apply throws_only_bind; [|intros ?]
    | |- throws_only _ (fun w => (Pending, w)) => apply throws_only_pending
    end.

Lemma plain_error_new_Error m : plain_error (new_Error m).
Proof. left. reflexivity. Qed.

Lemma plain_error_TypeError m : plain_error (TypeError m).
Proof. right; left. reflexivity. Qed.

Lemma plain_error_SyntaxError : plain_error SyntaxError.
Proof. right; right. reflexivity. Qed.

Lemma plain_error_poll_error st s : plain_error (poll_error st s).
Proof. left. reflexivity. Qed.

#[local] Hint Resolve plain_error_new_Error plain_error_TypeError
  plain_error_SyntaxError plain_error_poll_error : core.

Section Backend.

Variable good : event -> Prop.
Hypothesis good_terminate : Forall good terminate_events.

(** *** The upload functions *)

Section Upload.

Variable files : list File.
Variable onProgress : option upload_callback_t.
Hypothesis good_upload : forall fs b, good (Fetch (POST_upload_images fs b)).
Hypothesis good_progress :
  forall f uploaded total, onProgress = Some f ->
    Forall good (UploadProgress uploaded total :: map Ui (f uploaded total)).

Lemma uploadImages_emits : emits_only good (uploadImages files onProgress).
Proof using All.
  unfold uploadImages. emits_steps; [apply emits_only_fetch; auto|].
  destruct (negb (ok a)); emits_steps.
Qed.

Lemma call_upload_progress_emits uploaded total :
  emits_only good (call_upload_progress onProgress uploaded total).
Proof using All.
  unfold call_upload_progress. destruct onProgress as [f|] eqn:E.
  - apply emits_only_emits. eapply good_progress. reflexivity.
  - apply emits_only_ret.
Qed.

Lemma upload_chunks_emits fuel i batchId uploadedCount :
  emits_only good (upload_chunks fuel files onProgress i batchId uploadedCount).
Proof using All.
  revert i batchId uploadedCount.
  induction fuel as [|fuel IH]; intros i batchId uploadedCount; cbn [upload_chunks].
  - apply emits_only_pending.
  - destruct (i <? length files)%nat; [|apply emits_only_ret].
    emits_steps; [apply emits_only_fetch; auto|].
    destruct (negb (ok a)); emits_steps;
      [apply call_upload_progress_emits|apply IH].
Qed.

Lemma uploadImagesChunked_emits :
  emits_only good (uploadImagesChunked files onProgress).
Proof using All.
  unfold uploadImagesChunked.
  destruct (length files <=? CHUNK_SIZE)%nat; [apply uploadImages_emits|].
  emits_steps; [apply upload_chunks_emits|]. destruct a. apply emits_only_ret.
Qed.

End Upload.

(** *** The extraction requests and the poller *)

Lemma extractBatch_emits batchId schema customFilename :
  good (Fetch (POST_extract_batch batchId schema customFilename)) ->
  emits_only good (extractBatch batchId schema customFilename).
Proof using All.
  intros Hg. unfold extractBatch. emits_steps; [apply emits_only_fetch; auto|].
  destruct (negb (ok a)); emits_steps.
Qed.

Lemma extractBatchAsync_emits batchId schema customFilename :
  good (Fetch (POST_extract_batch_async batchId schema customFilename)) ->
  emits_only good (extractBatchAsync batchId schema customFilename).
Proof using All.
  intros Hg. unfold extractBatchAsync. emits_steps; [apply emits_only_fetch; auto|].
  destruct (negb (ok a)); emits_steps.
Qed.

Lemma getJobStatus_emits jobId :
  good (Fetch (GET_extract_batch_status jobId)) ->
  emits_only good (getJobStatus jobId).
Proof using All.
  intros Hg. unfold getJobStatus. emits_steps; [apply emits_only_fetch; auto|].
  destruct (negb (ok a)); [destruct (status a =? 404)%N|]; emits_steps.
Qed.

Section Poll.

Variable jobId : jsval.
Variable onProgress : option poll_callback_t.
Variable intervalMs : N.
Hypothesis good_status : good (Fetch (GET_extract_batch_status jobId)).
Hypothesis good_timeout : good (SetTimeout intervalMs).
Hypothesis good_progress :
  forall f st, onProgress = Some f -> Forall good (PollProgress st :: map Ui (f st)).

Lemma poll_emits fuel : emits_only good (poll fuel jobId onProgress intervalMs).
Proof using All.
  induction fuel as [|fuel IH]; cbn [poll]; [apply emits_only_pending|].
  emits_steps; [apply getJobStatus_emits; auto| |].
  - unfold call_poll_progress. destruct onProgress as [f|] eqn:E.
    + apply emits_only_emits. eapply good_progress. reflexivity.
    + apply emits_only_ret.
  - destruct (classify _); emits_steps; [apply emits_only_log; auto|apply IH].
Qed.

Lemma pollJobStatus_emits :
  emits_only good (pollJobStatus jobId onProgress intervalMs).
Proof using All. intros w. apply poll_emits. Qed.

End Poll.

End Backend.

Lemma uploadImagesChunked_throws files onProgress :
  throws_only plain_error (uploadImagesChunked files onProgress).
Proof.
  assert (C : forall u t, throws_only plain_error (call_upload_progress onProgress u t)).
  { intros u t. unfold call_upload_progress. destruct onProgress; throws_steps. }
  assert (L : forall fuel i b u,
             throws_only plain_error (upload_chunks fuel files onProgress i b u)).
  { induction fuel as [|fuel IH]; intros i b u; cbn [upload_chunks];
      [throws_steps|].
    destruct (i <? length files)%nat; [|throws_steps].
    throws_steps; [apply throws_only_fetch; auto|].
    destruct (negb (ok a)); [apply throws_only_throw; auto|].
    throws_steps; [apply throws_only_await_json; auto|apply C|apply IH]. }
  unfold uploadImagesChunked, uploadImages.
  destruct (length files <=? CHUNK_SIZE)%nat.
  - throws_steps; [apply throws_only_fetch; auto|].
    destruct (negb (ok a)); [apply throws_only_throw; auto|].
    apply throws_only_await_json; auto.
  - throws_steps; [apply L|]. destruct a. throws_steps.
Qed.

Lemma extractBatch_throws batchId schema customFilename :
  throws_only plain_error (extractBatch batchId schema customFilename).
Proof.
  unfold extractBatch. throws_steps; [apply throws_only_fetch; auto|].
  destruct (negb (ok a)); [apply throws_only_throw; auto|].
  apply throws_only_await_json; auto.
Qed.

Lemma extractBatchAsync_throws batchId schema customFilename :
  throws_only plain_error (extractBatchAsync batchId schema customFilename).
Proof.
  unfold extractBatchAsync. throws_steps; [apply throws_only_fetch; auto|].
  destruct (negb (ok a)); [apply throws_only_throw; auto|].
  apply throws_only_await_json; auto.
Qed.

Lemma getJobStatus_throws jobId : throws_only plain_error (getJobStatus jobId).
Proof.
  unfold getJobStatus. throws_steps; [apply throws_only_fetch; auto|].
  destruct (negb (ok a)); [|apply throws_only_await_json; auto].
  destruct (status a =? 404)%N; [throws_steps|apply throws_only_throw; auto].
Qed.

Lemma classify_broken v e : classify v = IsBroken e -> plain_error e.
Proof.
  unfold classify. destruct (strict_eq_str v _); [discriminate|].
  destruct v; try discriminate; try (intros [= <-]; auto).
  destruct (startsWith _ _); [discriminate|].
  destruct (JsString.eqb _ _); discriminate.
Qed.

Lemma pollJobStatus_throws jobId onProgress intervalMs :
  throws_only plain_error (pollJobStatus jobId onProgress intervalMs).
Proof.
  assert (L : forall fuel,
             throws_only plain_error (poll fuel jobId onProgress intervalMs)).
  { induction fuel as [|fuel IH]; cbn [poll]; [throws_steps|].
    throws_steps; [apply getJobStatus_throws| |].
    - unfold call_poll_progress. destruct onProgress; throws_steps.
    - destruct (classify _) eqn:E; throws_steps;
        try (apply throws_only_throw; auto); [apply IH|].
      eapply classify_broken; eauto. }
  intros w. apply L.
Qed.

(** ** The workflow as a whole *)

Lemma plain_error_not_abort e :
  plain_error e -> JsString.eqb (err_name e) (js "AbortError") = false.
Proof. intros [ -> | [ -> | -> ] ]; reflexivity. Qed.

Section Workflow.

Variable good : event -> Prop.
Variable i : extract_input.
Variable useAsync : bool.
Hypothesis good_terminate : Forall good terminate_events.
Hypothesis good_ui : forall u, ~ cancellation_report (Ui u) -> good (Ui u).
Hypothesis good_upload :
  forall fs b uploaded total,
    good (Fetch (POST_upload_images fs b)) /\ good (UploadProgress uploaded total).
Hypothesis good_sync :
  useAsync = false ->
  forall b s f, good (Fetch (POST_extract_batch b s f)).
Hypothesis good_async :
  useAsync = true ->
  forall b s f j st,
    good (Fetch (POST_extract_batch_async b s f))
    /\ good (Fetch (GET_extract_batch_status j))
    /\ good (SetTimeout default_intervalMs) /\ good (PollProgress st).

Lemma good_updates us :
  Forall (fun u => ~ cancellation_report (Ui u)) us -> Forall good (map Ui us).
Proof using good_ui.
  intros H. induction H; simpl; constructor; auto.
Qed.

Ltac good_ui_now := apply good_ui; intros [H|H]; discriminate H.

Ltac workflow_steps :=
  repeat lazymatch goal with
    | |- emits_only _ (mret _) => apply emits_only_ret
    | |- emits_only _ (ui _) => apply emits_only_log; good_ui_now
    | |- emits_only _ (mbind _ _) => apply emits_only_bind; [|intros ?]
    end.

Lemma handleExtract_try_emits : emits_only good (handleExtract_try i useAsync).
Proof using All.
  assert (GU : forall fs b, good (Fetch (POST_upload_images fs b)))
    by (intros fs b; apply (good_upload fs b 0%nat 0%nat)).
  assert (GP : forall uploaded total, good (UploadProgress uploaded total))
    by (intros u t; apply (good_upload [] None u t)).
  unfold handleExtract_try. workflow_steps.
  - apply uploadImagesChunked_emits; [exact good_terminate|exact GU|].
    intros f uploaded total [= <-]. constructor; [apply GP|].
    apply good_updates. unfold upload_callback.
    repeat constructor; intros [H|H]; discriminate H.
  - destruct useAsync eqn:E; workflow_steps.
    + apply extractBatchAsync_emits; [exact good_terminate|].
      apply (good_async eq_refl _ _ _ VNull empty_object).
    + match goal with
      | |- emits_only _ (pollJobStatus ?j _ _) =>
          destruct (good_async eq_refl VNull empty_object VNull j empty_object)
            as (_ & G1 & G2 & _)
      end.
      apply pollJobStatus_emits; [exact good_terminate|exact G1|exact G2|].
      intros f st [= <-]. constructor.
      * apply (good_async eq_refl VNull empty_object VNull VNull st).
      * apply good_updates. unfold poll_callback, handleProgressUpdate.
        repeat (destruct (strict_eq_str _ _));
          repeat constructor; intros [H|H]; discriminate H.
    + apply extractBatch_emits; [exact good_terminate|]. apply (good_sync eq_refl).
Qed.

Lemma handleExtract_try_throws :
  throws_only plain_error (handleExtract_try i useAsync).
Proof.
  clear good_sync good_async.
  unfold handleExtract_try. throws_steps.
  - apply uploadImagesChunked_throws.
  - destruct useAsync; throws_steps.
    + apply extractBatchAsync_throws.
    + apply pollJobStatus_throws.
    + apply extractBatch_throws.
Qed.

Lemma handleExtract_catch_emits e :
  plain_error e -> emits_only good (handleExtract_catch e).
Proof using good_ui.
  intros He. unfold handleExtract_catch.
  rewrite (plain_error_not_abort e He). workflow_steps.
Qed.

Lemma handleExtract_finally_emits : emits_only good handleExtract_finally.
Proof using good_ui.
  unfold handleExtract_finally. workflow_steps.
  intros w. exists [Ui (setAbortController false)]. split; [reflexivity|].
  constructor; [good_ui_now|constructor].
Qed.

End Workflow.

Lemma handleExtract_catch_throws (Q : js_error -> Prop) e :
  throws_only Q (handleExtract_catch e).
Proof.
  unfold handleExtract_catch.
  destruct (JsString.eqb _ _); throws_steps.
Qed.

Lemma handleExtract_finally_throws (Q : js_error -> Prop) :
  throws_only Q handleExtract_finally.
Proof.
  unfold handleExtract_finally. throws_steps. intros w e [=].
Qed.

(** [handleExtract] with the events of its own mode allowed. *)
Lemma handleExtract_emits (good : event -> Prop) (i : extract_input) :
  Forall good terminate_events ->
  (forall u, ~ cancellation_report (Ui u) -> good (Ui u)) ->
  (forall fs b uploaded total,
     good (Fetch (POST_upload_images fs b)) /\ good (UploadProgress uploaded total)) ->
  (shouldUseAsync (processingMode i) (length (files i)) = false ->
   forall b s f, good (Fetch (POST_extract_batch b s f))) ->
  (shouldUseAsync (processingMode i) (length (files i)) = true ->
   forall b s f j st,
     good (Fetch (POST_extract_batch_async b s f))
     /\ good (Fetch (GET_extract_batch_status j))
     /\ good (SetTimeout default_intervalMs) /\ good (PollProgress st)) ->
  emits_only good (handleExtract i).
Proof.
  intros Ht Hu Hup Hs Ha. unfold handleExtract.
  assert (U : forall u, ~ cancellation_report (Ui u) -> emits_only good (ui u)).
  { intros u Hn. apply emits_only_log. auto. }
  destruct (length (files i) =? 0)%nat;
    [apply U; intros [H|H]; discriminate H|].
  destruct (length (filter _ _) =? 0)%nat;
    [apply U; intros [H|H]; discriminate H|].
  repeat lazymatch goal with
    | |- emits_only _ (mbind _ _) => apply emits_only_bind; [|intros ?]
    | |- emits_only _ (ui _) => apply U; intros [H|H]; discriminate H
    end.
  - intros w. exists []. rewrite app_nil_r. auto.
  - intros w. exists [Ui (setAbortController true)]. split; [reflexivity|].
    constructor; [apply Hu; intros [H|H]; discriminate H|constructor].
  - apply emits_only_try_finally.
    + apply (emits_only_try_catch good plain_error).
      * apply handleExtract_try_emits; auto.
      * apply handleExtract_try_throws.
      * intros e He. apply handleExtract_catch_emits; auto.
    + apply handleExtract_finally_emits; auto.
Qed.

(** ** What the functions never do *)

Lemma ceil_div_step m :
  (0 < m)%nat -> ceil_div m CHUNK_SIZE = S (ceil_div (m - CHUNK_SIZE) CHUNK_SIZE).
Proof.
  intros Hm. unfold ceil_div, CHUNK_SIZE.
  destruct (Nat.le_gt_cases 100 m) as [Hge|Hlt].
  - replace (m + 100 - 1)%nat with (m - 100 + 100 - 1 + 1 * 100)%nat by lia.
    rewrite Nat.div_add by discriminate. lia.
  - replace (m - 100)%nat with 0%nat by lia.
    replace ((0 + 100 - 1) / 100)%nat with 0%nat by reflexivity.
    assert (H : (100 <= m + 100 - 1 < 2 * 100)%nat) by lia.
    symmetry. apply (Nat.div_unique (m + 100 - 1) 100 1 (m - 1)); lia.
Qed.

(** However the server answers, the loop sends at most one request for
    each chunk that is left, and at least one when a chunk is left. *)
Lemma upload_chunks_requests files onProgress fuel i batchId uploadedCount w :
  exists reqs,
    fetches (trace (snd (upload_chunks fuel files onProgress i batchId
                           uploadedCount w)))
    = fetches (trace w) ++ reqs
    /\ (length reqs <= ceil_div (length files - i) CHUNK_SIZE)%nat
    /\ ((0 < fuel)%nat -> (i < length files)%nat -> (1 <= length reqs)%nat).
Proof.
  revert i batchId uploadedCount w.
  induction fuel as [|fuel IH]; intros i batchId uploadedCount w; cbn [upload_chunks].
  - exists []. rewrite app_nil_r. cbn [length]. repeat split; lia.
  - destruct (Nat.ltb_spec i (length files)) as [Hlt|Hge].
    2:{ exists []. rewrite app_nil_r. cbn [length]. repeat split; lia. }
    rewrite (ceil_div_step (length files - i)) by lia.
    set (req := POST_upload_images _ _).
    set (bound := ceil_div (length files - i - CHUNK_SIZE) CHUNK_SIZE).
    assert (One : forall w1 k,
              advances w w1 k [Fetch req] ->
              exists reqs, fetches (trace w1) = fetches (trace w) ++ reqs
                           /\ (length reqs <= S bound)%nat
                           /\ ((0 < S fuel)%nat -> (i < length files)%nat ->
                               (1 <= length reqs)%nat)).
    { intros w1 k A. exists [req]. rewrite (advances_fetches _ _ _ _ A).
      cbn [length]. repeat split; lia. }
    unfold mbind at 1, Async_bind at 1.
    destruct (replies w) as [|r rs] eqn:Hr.
    + destruct (fetch_pending req w Hr) as (w1 & E1 & A1). rewrite E1.
      apply (One w1 _ A1).
    + destruct (fetch_reply req w r rs Hr) as (w1 & E1 & A1). rewrite E1.
      destruct r as [|resp]; cbn [settle]; [apply (One w1 _ A1)|].
      destruct (ok resp); cbn [negb]; [|apply (One w1 _ A1)].
      unfold mbind at 1, Async_bind at 1. unfold await_json.
      destruct (json resp) as [e|result]; [apply (One w1 _ A1)|].
      unfold mret at 1, Async_ret at 1.
      unfold mbind at 1, Async_bind at 1.
      match goal with
      | |- context [call_upload_progress onProgress ?u ?t w1] =>
          destruct (call_upload_progress_spec onProgress u t w1) as (w2 & E2 & A2);
          rewrite E2
      end.
      match goal with
      | |- context [upload_chunks fuel files onProgress ?i' ?b ?u w2] =>
          destruct (IH i' b u w2) as (reqs & T & L & _)
      end.
      exists (req :: reqs). rewrite T.
      rewrite (advances_fetches _ _ _ _ (advances_trans _ _ _ _ _ _ _ A1 A2)).
      rewrite fetches_app.
      replace (fetches (progress_event onProgress _ _)) with (@nil request)
        by (unfold progress_event; destruct onProgress; reflexivity).
      rewrite app_nil_r, <- app_assoc. cbn [length]. split; [reflexivity|].
      replace (length files - (i + CHUNK_SIZE))%nat
        with (length files - i - CHUNK_SIZE)%nat in L by lia.
      fold bound in L. split; lia.
Qed.

(** X1. However the server answers and whenever the user presses
    Terminate, [uploadImagesChunked] only adds to the trace, and what it
    adds are requests to the upload endpoint, calls and updates of its
    progress callback, and the user's Terminate: it calls no other
    endpoint.  It makes at least one request and at most one per chunk,
    [max 1 (ceil (n / 100))] in all, so that nothing is ever sent twice; and
    the only errors it throws are the plain ones. *)
Theorem uploadImagesChunked_only_uploads (files : list File)
    (onProgress : option upload_callback_t) (w : world) :
  let run := uploadImagesChunked files onProgress w in
  (exists evs, trace (snd run) = trace w ++ evs /\ Forall upload_event evs)
  /\ (exists reqs,
        fetches (trace (snd run)) = fetches (trace w) ++ reqs
        /\ (1 <= length reqs <= max 1 (ceil_div (length files) CHUNK_SIZE))%nat)
  /\ (forall e, fst run = Thrown e -> plain_error e).
Proof.
  intros run. split; [|split].
  - apply (uploadImagesChunked_emits upload_event).
    + repeat constructor.
    + intros fs b. exact I.
    + intros f uploaded total _. constructor; [exact I|].
      apply Forall_forall. intros e He.
      apply list_elem_of_fmap in He as (u & -> & _). exact I.
  - subst run. unfold uploadImagesChunked.
    destruct (Nat.leb_spec (length files) CHUNK_SIZE) as [Hle|Hgt].
    + destruct (uploadImages_advances files onProgress w) as (k & A).
      exists [POST_upload_images files None].
      rewrite (advances_fetches _ _ _ _ A). cbn [length fetches omap].
      split; [reflexivity|lia].
    + destruct (upload_chunks_requests files onProgress (length files) 0 VNull 0 w)
        as (reqs & T & L & L1).
      rewrite Nat.sub_0_r in L.
      unfold mbind, Async_bind.
      exists reqs. split.
      * destruct (upload_chunks _ _ _ _ _ _ w) as [[[b u]|e|] w1]; exact T.
      * unfold CHUNK_SIZE in Hgt. split; [apply L1; lia|lia].
  - apply uploadImagesChunked_throws.
Qed.

Lemma uploadImagesChunked_only_uploads_witness :
  plain_error (new_Error (VStr (js "Failed to upload chunk 2"))).
Proof.
  destruct (uploadImagesChunked_only_uploads (sample_files 250) None
              (World [ upload_ok "b1" 100; Response (Resp 500 None) ]
                 [] false false None)) as (_ & _ & H).
  apply H. vm_compute. reflexivity.
Defined.

(** X2. However the server answers, [pollJobStatus] only adds to the
    trace, and what it adds are requests for the status of the one job it
    was given, timers of exactly [intervalMs] (no back-off), calls and
    updates of its progress callback, and the user's Terminate; the only
    errors it rejects with are the plain ones. *)
Theorem pollJobStatus_only_polls (jobId : jsval)
    (onProgress : option poll_callback_t) (intervalMs : N) (w : world) :
  let run := pollJobStatus jobId onProgress intervalMs w in
  (exists evs, trace (snd run) = trace w ++ evs
               /\ Forall (poll_event jobId intervalMs) evs)
  /\ (forall e, fst run = Thrown e -> plain_error e).
Proof.
  split; [|apply pollJobStatus_throws].
  apply (pollJobStatus_emits (poll_event jobId intervalMs)).
  - repeat constructor.
  - reflexivity.
  - reflexivity.
  - intros f st _. constructor; [exact I|].
    apply Forall_forall. intros e He.
    apply list_elem_of_fmap in He as (u & -> & _). exact I.
Qed.

Lemma pollJobStatus_only_polls_witness :
  plain_error (new_Error (VStr (js "Job not found"))).
Proof.
  destruct (pollJobStatus_only_polls (VStr (js "job-1")) None default_intervalMs
              (World [ Response (Resp 404 None) ] [] false false None)) as (_ & H).
  apply H. vm_compute. reflexivity.
Defined.

(** X3. [handleExtract] never throws: whatever the inputs, the server and
    the user do, its promise is fulfilled or stays pending, every error
    being caught and shown. *)
Theorem handleExtract_never_throws (i : extract_input) (w : world) (e : js_error) :
  fst (handleExtract i w) <> Thrown e.
Proof.
  intros H. revert w e H. change (throws_only (fun _ => False) (handleExtract i)).
  unfold handleExtract.
  destruct (length (files i) =? 0)%nat; [apply throws_only_log|].
  destruct (length (filter _ _) =? 0)%nat; [apply throws_only_log|].
  repeat lazymatch goal with
    | |- throws_only _ (mbind _ _) => apply throws_only_bind; [|intros ?]
    | |- throws_only _ (ui _) => apply throws_only_log
    end.
  - intros w e [=].
  - intros w e [=].
  - apply throws_only_try_finally.
    + apply throws_only_try_catch. intros e. apply handleExtract_catch_throws.
    + apply handleExtract_finally_throws.
Qed.

(** X4. No run of [handleExtract] reports a cancellation: whatever the
    inputs and the server do, and whenever the user presses Terminate, the
    run only adds to the trace and never adds [setError] with the text of
    the cancellation or the status "Cancelled".  No error of the workflow is
    an [AbortError], the only one its [catch] clause reports that way. *)
Theorem handleExtract_never_reports_cancellation (i : extract_input) (w : world) :
  exists evs, trace (snd (handleExtract i w)) = trace w ++ evs
              /\ Forall (fun e => ~ cancellation_report e) evs.
Proof.
  apply (handleExtract_emits (fun e => ~ cancellation_report e)).
  - repeat constructor; intros [H|H]; discriminate H.
  - auto.
  - intros fs b uploaded total. split; intros [H|H]; discriminate H.
  - intros _ b s f [H|H]; discriminate H.
  - intros _ b s f j st. repeat split; intros [H|H]; discriminate H.
Qed.

(** X5. A run of [handleExtract] uses one mode only.  When
    [shouldUseAsync] says so it never calls the synchronous endpoint
    [POST /extract/batch]; otherwise it never queues a job, never asks for a
    job status and sets no timer. *)
Theorem handleExtract_one_mode (i : extract_input) (w : world) :
  exists evs, trace (snd (handleExtract i w)) = trace w ++ evs
    /\ if shouldUseAsync (processingMode i) (length (files i))
       then Forall (fun e => ~ sync_only_event e) evs
       else Forall (fun e => ~ async_only_event e) evs.
Proof.
  destruct (shouldUseAsync (processingMode i) (length (files i))) eqn:E.
  - apply (handleExtract_emits (fun e => ~ sync_only_event e)); rewrite ?E.
    + repeat constructor; intros [].
    + intros u _ [].
    + intros fs b uploaded total. split; intros [].
    + discriminate.
    + intros _ b s f j st. repeat split; intros [].
  - apply (handleExtract_emits (fun e => ~ async_only_event e)); rewrite ?E.
    + repeat constructor; intros [].
    + intros u _ [].
    + intros fs b uploaded total. split; intros [].
    + intros _ b s f [].
    + discriminate.
Qed.

(** ** More on the requests of [backend.js] *)

(** X6. [extractBatch] and [extractBatchAsync] make exactly one request,
    with the batch id, the schema and the file name they were given, and
    read exactly one reply.  On a 2xx response they return the parsed body
    (or throw the [SyntaxError] of a body that is not JSON); on any other
    response, 404 included, they throw their own fixed error; when the
    connection fails they let the [TypeError] of [fetch] through. *)
Theorem extract_requests_spec (batchId : jsval) (schema : jsobj)
    (customFilename : jsval) (w : world) (r : reply) (rs : list reply) :
  replies w = r :: rs ->
  let sync := extractBatch batchId schema customFilename w in
  let async := extractBatchAsync batchId schema customFilename w in
  fetches (trace (snd sync))
  = fetches (trace w) ++ [POST_extract_batch batchId schema customFilename]
  /\ fetches (trace (snd async))
     = fetches (trace w) ++ [POST_extract_batch_async batchId schema customFilename]
  /\ replies (snd sync) = rs /\ replies (snd async) = rs
  /\ (r = NetworkError ->
      fst sync = Thrown (TypeError "Failed to fetch")
      /\ fst async = Thrown (TypeError "Failed to fetch"))
  /\ (forall resp, r = Response resp -> ok resp = false ->
      fst sync = Thrown (new_Error (VStr (js "Failed to extract batch")))
      /\ fst async = Thrown (new_Error (VStr (js "Failed to queue extraction job"))))
  /\ (forall resp o, r = Response resp -> ok resp = true -> body resp = Some o ->
      fst sync = Returned o /\ fst async = Returned o)
  /\ (forall resp, r = Response resp -> ok resp = true -> body resp = None ->
      fst sync = Thrown SyntaxError /\ fst async = Thrown SyntaxError).
Proof.
  intros Hr sync async.
  destruct (fetch_reply (POST_extract_batch batchId schema customFilename) w r rs Hr)
    as (w1 & E1 & A1).
  destruct (fetch_reply (POST_extract_batch_async batchId schema customFilename) w r rs Hr)
    as (w2 & E2 & A2).
  assert (S1 : sync = (match r with
                       | NetworkError => Thrown (TypeError "Failed to fetch")
                       | Response resp =>
                           if ok resp then
                             match body resp with
                             | Some o => Returned o
                             | None => Thrown SyntaxError
                             end
                           else Thrown (new_Error (VStr (js "Failed to extract batch")))
                       end, w1)).
  { subst sync. unfold extractBatch, mbind, Async_bind. rewrite E1.
    destruct r as [|resp]; [reflexivity|]. cbn [settle].
    destruct (ok resp); [|reflexivity]. cbn [negb].
    unfold await_json, json. destruct (body resp); reflexivity. }
  assert (S2 : async = (match r with
                        | NetworkError => Thrown (TypeError "Failed to fetch")
                        | Response resp =>
                            if ok resp then
                              match body resp with
                              | Some o => Returned o
                              | None => Thrown SyntaxError
                              end
                            else Thrown (new_Error
                                           (VStr (js "Failed to queue extraction job")))
                        end, w2)).
  { subst async. unfold extractBatchAsync, mbind, Async_bind. rewrite E2.
    destruct r as [|resp]; [reflexivity|]. cbn [settle].
    destruct (ok resp); [|reflexivity]. cbn [negb].
    unfold await_json, json. destruct (body resp); reflexivity. }
  rewrite S1, S2. cbn [fst snd].
  split; [apply (advances_fetches _ _ _ _ A1)|].
  split; [apply (advances_fetches _ _ _ _ A2)|].
  split; [destruct A1 as (R & _); rewrite R, Hr; reflexivity|].
  split; [destruct A2 as (R & _); rewrite R, Hr; reflexivity|].
  split; [intros ->; auto|].
  split; [intros resp -> Hok; rewrite Hok; auto|].
  split; [intros resp o -> Hok Hb; rewrite Hok, Hb; auto|].
  intros resp -> Hok Hb. rewrite Hok, Hb. auto.
Qed.

Lemma extract_requests_spec_witness :
  fst (extractBatch (VStr (js "b1")) (buildSchema [js "name"]) (VStr (js "wave-1"))
         (World [Response (Resp 404 None)] [] false false None))
  = Thrown (new_Error (VStr (js "Failed to extract batch")))
  /\ fst (extractBatchAsync (VStr (js "b1")) (buildSchema [js "name"])
            (VStr (js "wave-1"))
            (World [Response (Resp 404 None)] [] false false None))
     = Thrown (new_Error (VStr (js "Failed to queue extraction job"))).
Proof.
  destruct (extract_requests_spec (VStr (js "b1")) (buildSchema [js "name"])
              (VStr (js "wave-1"))
              (World [Response (Resp 404 None)] [] false false None)
              (Response (Resp 404 None)) [] eq_refl)
    as (_ & _ & _ & _ & _ & H & _).
  apply (H (Resp 404 None)); reflexivity.
Defined.

(** A tick of [poll] on a reply that makes [getJobStatus] throw. *)
Lemma poll_tick_thrown jobId onProgress intervalMs fuel w r rs e :
  replies w = r :: rs -> read_status r = Thrown e ->
  exists w', advances w w' 1 [Fetch (GET_extract_batch_status jobId)]
    /\ poll (S fuel) jobId onProgress intervalMs w = (Thrown e, w').
Proof.
  intros Hr He.
  destruct (getJobStatus_reply jobId w r rs Hr) as (w1 & E1 & A1).
  exists w1. split; [exact A1|].
  cbn [poll]. unfold mbind at 1, Async_bind at 1. rewrite E1, He. reflexivity.
Qed.

(** X7. The poller does not retry a failed status request.  After statuses
    that do not end the polling, a reply that makes [getJobStatus] throw (no
    connection, a response other than 2xx and 404, a body that is not JSON)
    makes [pollJobStatus] reject with that very error; the failed request is
    its last one, with no call of the progress callback and no timer after
    it. *)
Theorem pollJobStatus_transport_failure (jobId : jsval)
    (onProgress : option poll_callback_t) (intervalMs : N) (w : world)
    (pre_r : list reply) (pre : list jsobj) (last_r : reply) (e : js_error)
    (rest : list reply) :
  replies w = pre_r ++ last_r :: rest ->
  Forall2 (fun r st => read_status r = Returned st) pre_r pre ->
  Forall (fun st => nonterminal (js_get st (js "status"))) pre ->
  read_status last_r = Thrown e ->
  let run := pollJobStatus jobId onProgress intervalMs w in
  fst run = Thrown e
  /\ protocol (trace (snd run))
     = protocol (trace w)
       ++ concat (map (waiting_tick_events jobId onProgress intervalMs) pre)
       ++ [Fetch (GET_extract_batch_status jobId)]
  /\ replies (snd run) = rest.
Proof.
  intros Hr Hpre Hnt He run.
  assert (Hfuel : S (length (replies w)) = (length pre_r + S (S (length rest)))%nat).
  { rewrite Hr, length_app. simpl. lia. }
  destruct (poll_waiting_ticks jobId onProgress intervalMs pre_r pre
              (S (S (length rest))) w (last_r :: rest) Hpre Hnt Hr)
    as (w1 & A1 & E1).
  assert (Hr1 : replies w1 = last_r :: rest).
  { destruct A1 as (R1 & _). rewrite R1, Hr, drop_app_length. reflexivity. }
  destruct (poll_tick_thrown jobId onProgress intervalMs (S (length rest)) w1
              last_r rest e Hr1 He) as (w2 & A2 & E2).
  pose proof (advances_trans _ _ _ _ _ _ _ A1 A2) as (R & T & _).
  subst run. unfold pollJobStatus. rewrite Hfuel, E1, E2. cbn [fst snd].
  split; [reflexivity|]. split; [exact T|].
  rewrite R, Hr, <- drop_drop, drop_app_length. reflexivity.
Qed.

Lemma pollJobStatus_transport_failure_witness :
  fst (pollJobStatus (VStr (js "job-1")) (Some poll_callback) default_intervalMs
         (World [ Response (Resp 200 (Some (status_payload "processing")));
                  Response (Resp 503 None);
                  Response (Resp 200 (Some (status_payload "completed"))) ]
            [] false false None))
  = Thrown (new_Error (VStr (js "Failed to get job status"))).
Proof.
  apply (pollJobStatus_transport_failure (VStr (js "job-1")) (Some poll_callback)
           default_intervalMs _
           [ Response (Resp 200 (Some (status_payload "processing"))) ]
           [ status_payload "processing" ]
           (Response (Resp 503 None)) _
           [ Response (Resp 200 (Some (status_payload "completed"))) ]).
  - reflexivity.
  - constructor; [reflexivity|constructor].
  - constructor; [|constructor].
    right; right. exists (js "processing").
    repeat split; [discriminate|discriminate].
  - reflexivity.
Defined.

(** X8. A status that is neither a string nor absent (a number, a boolean,
    an object) has no [startsWith]: after statuses that do not end the
    polling, it makes [pollJobStatus] reject with a [TypeError], after the
    progress callback was called with that payload. *)
Theorem pollJobStatus_status_not_a_string (jobId : jsval)
    (onProgress : option poll_callback_t) (intervalMs : N) (w : world)
    (pre_r : list reply) (pre : list jsobj) (last_r : reply) (last : jsobj)
    (rest : list reply) :
  replies w = pre_r ++ last_r :: rest ->
  Forall2 (fun r st => read_status r = Returned st) pre_r pre ->
  Forall (fun st => nonterminal (js_get st (js "status"))) pre ->
  read_status last_r = Returned last ->
  not_a_string (js_get last (js "status")) ->
  let run := pollJobStatus jobId onProgress intervalMs w in
  fst run = Thrown (TypeError "status.status.startsWith is not a function")
  /\ protocol (trace (snd run))
     = protocol (trace w)
       ++ concat (map (waiting_tick_events jobId onProgress intervalMs) pre)
       ++ tick_events jobId onProgress last
  /\ replies (snd run) = rest.
Proof.
  intros Hr Hpre Hnt Hlast Hns run.
  assert (Hfuel : S (length (replies w)) = (length pre_r + S (S (length rest)))%nat).
  { rewrite Hr, length_app. simpl. lia. }
  destruct (poll_waiting_ticks jobId onProgress intervalMs pre_r pre
              (S (S (length rest))) w (last_r :: rest) Hpre Hnt Hr)
    as (w1 & A1 & E1).
  assert (Hr1 : replies w1 = last_r :: rest).
  { destruct A1 as (R1 & _). rewrite R1, Hr, drop_app_length. reflexivity. }
  destruct (poll_tick jobId onProgress intervalMs (S (length rest)) w1 last_r rest
              last Hr1 Hlast) as (w2 & A2 & E2).
  assert (C : classify (js_get last (js "status"))
              = IsBroken (TypeError "status.status.startsWith is not a function")).
  { destruct (js_get last (js "status")); try contradiction; reflexivity. }
  rewrite C in E2.
  pose proof (advances_trans _ _ _ _ _ _ _ A1 A2) as (R & T & _).
  subst run. unfold pollJobStatus. rewrite Hfuel, E1, E2. cbn [fst snd].
  split; [reflexivity|]. split; [exact T|].
  rewrite R, Hr, <- drop_drop, drop_app_length. reflexivity.
Qed.

Lemma pollJobStatus_status_not_a_string_witness :
  fst (pollJobStatus (VStr (js "job-1")) None default_intervalMs
         (World [ Response (Resp 200 (Some (object_literal
                                              [ (js "status", of_Z 3) ]))) ]
            [] false false None))
  = Thrown (TypeError "status.status.startsWith is not a function").
Proof.
  apply (pollJobStatus_status_not_a_string (VStr (js "job-1")) None
           default_intervalMs _ [] []
           (Response (Resp 200 (Some (object_literal [ (js "status", of_Z 3) ]))))
           (object_literal [ (js "status", of_Z 3) ]) []).
  - reflexivity.
  - constructor.
  - constructor.
  - reflexivity.
  - exact I.
Defined.

(** X9 is [pollJobStatus_pending]: the poller never gives up. *)
Lemma pollJobStatus_pending_witness :
  fst (pollJobStatus (VStr (js "job-1")) None default_intervalMs
         (World [ Response (Resp 200 (Some (status_payload "queued")));
                  Response (Resp 200 (Some (status_payload "processing"))) ]
            [] false false None))
  = Pending.
Proof.
  apply (pollJobStatus_pending (VStr (js "job-1")) None default_intervalMs
           (World [ Response (Resp 200 (Some (status_payload "queued")));
                    Response (Resp 200 (Some (status_payload "processing"))) ]
              [] false false None)
           [ status_payload "queued"; status_payload "processing" ]).
  - repeat (constructor; [reflexivity|]). constructor.
  - repeat (constructor;
            [right; right; eexists; repeat split; discriminate|]).
    constructor.
Defined.

(** ** More on the chunked upload *)

(** X10. In the chunked path, with every upload accepted, a progress
    callback that is given is called exactly once per chunk, always with the
    number of files as total; the cumulative counts are positive, never
    exceed the total, grow strictly from one call to the next, and the last
    call reports [(n, n)]. *)
Theorem uploadImagesChunked_progress_increasing (files : list File)
    (f : upload_callback_t) (w : world) (rs : list reply) (bodies : list jsobj)
    (rest : list reply) :
  (CHUNK_SIZE < length files)%nat ->
  replies w = rs ++ rest -> Forall2 accepted rs bodies ->
  length rs = ceil_div (length files) CHUNK_SIZE ->
  let n := length files in
  exists calls,
    progress_calls (trace (snd (uploadImagesChunked files (Some f) w)))
    = progress_calls (trace w) ++ calls
    /\ length calls = ceil_div n CHUNK_SIZE
    /\ (forall j c, calls !! j = Some c -> (0 < fst c <= n)%nat /\ snd c = n)
    /\ (forall j j' c c', (j < j')%nat -> calls !! j = Some c -> calls !! j' = Some c' ->
        (fst c < fst c')%nat)
    /\ last calls = Some (n, n).
Proof.
  intros Hn Hr HF HK n.
  destruct (uploadImagesChunked_all_accepted files (Some f) w rs bodies rest Hn Hr HF HK)
    as (_ & _ & T & _).
  set (K := ceil_div n CHUNK_SIZE).
  set (calls := (fun j => (min (S j * CHUNK_SIZE) n, n)) <$> seq 0 K).
  assert (L : forall j c, calls !! j = Some c ->
                          (j < K)%nat /\ c = (min (S j * CHUNK_SIZE) n, n)).
  { intros j c Hc. subst calls. rewrite list_lookup_fmap in Hc.
    destruct (seq 0 K !! j) as [x|] eqn:Hx; [|discriminate].
    apply lookup_seq in Hx as (-> & Hj). injection Hc as <-. split; [exact Hj|].
    reflexivity. }
  exists calls. split; [|split; [|split; [|split]]].
  - rewrite <- (progress_calls_protocol (trace (snd _))), T.
    rewrite progress_calls_app, progress_calls_protocol, progress_calls_chunk_events.
    reflexivity.
  - subst calls. rewrite length_fmap, length_seq. reflexivity.
  - intros j c Hc. destruct (L j c Hc) as (Hj & ->). cbn [fst snd].
    split; [|reflexivity]. unfold CHUNK_SIZE in *. lia.
  - intros j j' c c' Hjj Hc Hc'.
    destruct (L j c Hc) as (_ & ->). destruct (L j' c' Hc') as (Hj' & ->).
    cbn [fst]. apply ceil_div_spec in Hj'. fold n in Hj'.
    unfold CHUNK_SIZE in *. lia.
  - subst calls. destruct K as [|K'] eqn:HKn.
    + assert (H : (0 < K)%nat) by (apply ceil_div_spec; unfold CHUNK_SIZE in *; lia).
      lia.
    + rewrite seq_S, fmap_app. cbn [fmap list_fmap Nat.add]. rewrite last_snoc.
      do 2 f_equal. apply Nat.min_r.
      destruct (Nat.le_gt_cases n (S K' * CHUNK_SIZE)) as [|H]; [assumption|].
      apply ceil_div_spec in H. fold K in H. lia.
Qed.

Lemma uploadImagesChunked_progress_increasing_witness :
  exists calls,
    progress_calls
      (trace (snd (uploadImagesChunked (sample_files 250) (Some upload_callback)
                     (World [ upload_ok "b1" 100; upload_ok "b1" 200;
                              upload_ok "b1" 250 ] [] false false None))))
    = progress_calls [] ++ calls
    /\ last calls = Some (250%nat, 250%nat).
Proof.
  destruct (uploadImagesChunked_progress_increasing (sample_files 250) upload_callback
              (World [ upload_ok "b1" 100; upload_ok "b1" 200; upload_ok "b1" 250 ]
                 [] false false None)
              [ upload_ok "b1" 100; upload_ok "b1" 200; upload_ok "b1" 250 ]
              [ upload_ok_body "b1" 100; upload_ok_body "b1" 200;
                upload_ok_body "b1" 250 ] [])
    as (calls & H1 & _ & _ & _ & H2).
  - apply Nat.ltb_lt. vm_compute. reflexivity.
  - reflexivity.
  - repeat (constructor; [apply upload_ok_accepted|]). constructor.
  - vm_compute. reflexivity.
  - exists calls. split; [exact H1|]. rewrite H2. vm_compute. reflexivity.
Defined.

(** The value of [batchId] from a falsy start: the [batch_id] of the first
    body that has a truthy one, and the last one read when none has. *)
Lemma fold_next_batchId bodies acc :
  truthy acc = false ->
  fold_left next_batchId bodies acc
  = match first_with_batch_id bodies with
    | Some b => js_get b (js "batch_id")
    | None => default acc (last ((fun b => js_get b (js "batch_id")) <$> bodies))
    end
  /\ (first_with_batch_id bodies = None ->
      truthy (fold_left next_batchId bodies acc) = false).
Proof.
  revert acc. induction bodies as [|b bodies IH]; intros acc Hacc.
  - simpl. auto.
  - cbn [fold_left]. unfold first_with_batch_id. cbn [List.find].
    unfold next_batchId at 2 4. rewrite Hacc. cbn [negb].
    destruct (truthy (js_get b (js "batch_id"))) eqn:Hb.
    + split; [|discriminate]. apply next_batchId_keeps. exact Hb.
    + destruct (IH _ Hb) as (IH1 & IH2). fold (first_with_batch_id bodies).
      split; [|exact IH2]. rewrite IH1.
      destruct (first_with_batch_id bodies); [reflexivity|].
      rewrite fmap_cons, last_cons.
      destruct (last _); reflexivity.
Qed.

Lemma batch_id_field_after bodies :
  batch_id_field (batchId_after bodies)
  = (fun b => js_get b (js "batch_id")) <$> first_with_batch_id bodies.
Proof.
  unfold batchId_after, batch_id_field.
  destruct (fold_next_batchId bodies VNull eq_refl) as (E & F).
  destruct (first_with_batch_id bodies) as [b|] eqn:Hf.
  - rewrite E. apply List.find_some in Hf as (_ & Hb). rewrite Hb. reflexivity.
  - rewrite (F eq_refl). reflexivity.
Qed.

(** X11. How the chunked upload settles its batch id, whatever the bodies
    of the accepted responses hold.  The request of each chunk carries the
    [batch_id] of the first earlier response that had a truthy one, and none
    when no earlier response had one: the id is taken from the first
    response that supplies it, not necessarily the first response, and is
    never replaced afterwards.  The result carries that same id; when no
    response supplied one, every chunk was sent without a batch id and the
    result carries a falsy [batch_id]. *)
Theorem uploadImagesChunked_batch_id (files : list File)
    (onProgress : option upload_callback_t) (w : world) (rs : list reply)
    (bodies : list jsobj) (rest : list reply) :
  (CHUNK_SIZE < length files)%nat ->
  replies w = rs ++ rest -> Forall2 accepted rs bodies ->
  length rs = ceil_div (length files) CHUNK_SIZE ->
  let run := uploadImagesChunked files onProgress w in
  let batch_id := fun b => js_get b (js "batch_id") in
  fetches (trace (snd run))
  = fetches (trace w)
    ++ map (fun j => POST_upload_images (chunk files j)
                       (batch_id <$> first_with_batch_id (take j bodies)))
         (seq 0 (ceil_div (length files) CHUNK_SIZE))
  /\ (forall b, first_with_batch_id bodies = Some b ->
      truthy (batch_id b) = true
      /\ fst run = Returned (object_literal
                               [ (js "batch_id", batch_id b);
                                 (js "file_count", of_nat (length files)) ]))
  /\ (first_with_batch_id bodies = None ->
      exists v, truthy v = false
        /\ fst run = Returned (object_literal
                                 [ (js "batch_id", v);
                                   (js "file_count", of_nat (length files)) ])
        /\ Forall (fun req => exists chunk, req = POST_upload_images chunk None)
             (drop (length (fetches (trace w))) (fetches (trace (snd run))))).
Proof.
  intros Hn Hr HF HK run batch_id.
  destruct (uploadImagesChunked_all_accepted files onProgress w rs bodies rest
              Hn Hr HF HK) as (Hres & A).
  fold run in Hres, A.
  assert (Hf : fetches (trace (snd run))
               = fetches (trace w)
                 ++ map (fun j => POST_upload_images (chunk files j)
                                    (batch_id <$> first_with_batch_id (take j bodies)))
                      (seq 0 (ceil_div (length files) CHUNK_SIZE))).
  { rewrite (advances_fetches _ _ _ _ A), fetches_chunk_events. f_equal.
    apply map_ext. intros j. unfold chunk_request.
    rewrite batch_id_field_after. reflexivity. }
  destruct (fold_next_batchId bodies VNull eq_refl) as (E & F).
  fold (batchId_after bodies) in E, F.
  split; [exact Hf|]. split.
  - intros b Hb. rewrite Hb in E. split.
    + apply List.find_some in Hb as (_ & Hb). exact Hb.
    + rewrite Hres, E. reflexivity.
  - intros Hnone. exists (batchId_after bodies).
    split; [exact (F Hnone)|]. split; [exact Hres|].
    rewrite Hf, drop_app_length. apply Forall_forall. intros req Hin.
    apply list_elem_of_fmap in Hin as (j & -> & _). exists (chunk files j).
    assert (Hj : first_with_batch_id (take j bodies) = None).
    { destruct (first_with_batch_id (take j bodies)) as [b|] eqn:Hb; [|reflexivity].
      apply List.find_some in Hb as (Hin & Hb).
      assert (Hin' : In b bodies).
      { rewrite <- (take_drop j bodies). apply in_or_app. left. exact Hin. }
      pose proof (List.find_none _ _ Hnone b Hin') as Hb'.
      simpl in Hb'. congruence. }
    rewrite Hj. reflexivity.
Qed.

Lemma uploadImagesChunked_batch_id_witness :
  fetches (trace (snd (uploadImagesChunked (sample_files 250) None
                         (World [ Response (Resp 200 (Some empty_object));
                                  upload_ok "b2" 200; upload_ok "b3" 250 ]
                            [] false false None))))
  = [ POST_upload_images (take 100 (sample_files 250)) None;
      POST_upload_images (take 100 (drop 100 (sample_files 250))) None;
      POST_upload_images (drop 200 (sample_files 250)) (Some (VStr (js "b2"))) ].
Proof.
  destruct (uploadImagesChunked_batch_id (sample_files 250) None
              (World [ Response (Resp 200 (Some empty_object));
                       upload_ok "b2" 200; upload_ok "b3" 250 ]
                 [] false false None)
              [ Response (Resp 200 (Some empty_object));
                upload_ok "b2" 200; upload_ok "b3" 250 ]
              [ empty_object; upload_ok_body "b2" 200; upload_ok_body "b3" 250 ] [])
    as (Hf & _).
  - apply Nat.ltb_lt. vm_compute. reflexivity.
  - reflexivity.
  - constructor; [eexists; split; [reflexivity|split; reflexivity]|].
    repeat (constructor; [apply upload_ok_accepted|]). constructor.
  - vm_compute. reflexivity.
  - rewrite Hf. vm_compute. reflexivity.
Defined.

(** X12. In the chunked path, when the uploads of the first [k] chunks are
    accepted and the next one breaks without a refusal of the server (the
    connection fails, or the body of a 2xx response is not JSON),
    [uploadImagesChunked] rejects with the error of [fetch] or of
    [response.json()], which does not name the chunk; that upload was its
    last request, and the progress callback was called for the [k] chunks
    before it only. *)
Theorem uploadImagesChunked_transport_failure (files : list File)
    (onProgress : option upload_callback_t) (w : world)
    (rs : list reply) (bodies : list jsobj) (bad : reply) (e : js_error)
    (rest : list reply) :
  (CHUNK_SIZE < length files)%nat ->
  replies w = rs ++ bad :: rest ->
  Forall2 accepted rs bodies ->
  upload_breaks bad = Some e ->
  (length rs < ceil_div (length files) CHUNK_SIZE)%nat ->
  let k := length rs in
  let run := uploadImagesChunked files onProgress w in
  fst run = Thrown e
  /\ (e = TypeError "Failed to fetch" \/ e = SyntaxError)
  /\ protocol (trace (snd run))
     = protocol (trace w)
       ++ concat (map (chunk_events onProgress files bodies) (seq 0 k))
       ++ [Fetch (chunk_request files bodies k)]
  /\ replies (snd run) = rest
  /\ progress_calls (trace (snd run))
     = progress_calls (trace w) ++ reports onProgress (length files) (seq 0 k).
Proof.
  intros Hn Hr HF Hbad Hk k run.
  assert (HKn : (ceil_div (length files) CHUNK_SIZE < length files)%nat)
    by (apply ceil_div_lt; exact Hn).
  destruct (upload_chunks_prefix files onProgress rs bodies (bad :: rest) w k
              Hr HF ltac:(lia) ltac:(lia) (length files - k)%nat) as (w1 & A1 & E1).
  replace (k + (length files - k))%nat with (length files) in E1 by lia.
  assert (Hr1 : replies w1 = bad :: rest).
  { destruct A1 as (R1 & _). rewrite R1, Hr. apply drop_app_length. }
  destruct (fetch_reply (chunk_request files bodies k) w1 bad rest Hr1)
    as (w2 & E2 & A2).
  assert (Hlt : (k * CHUNK_SIZE <? length files)%nat = true).
  { apply Nat.ltb_lt. apply ceil_div_spec. exact Hk. }
  assert (E : upload_chunks (length files) files onProgress 0 VNull 0 w
              = (Thrown e, w2)).
  { rewrite E1. destruct (length files - k)%nat as [|f] eqn:Hf; [lia|].
    cbn [upload_chunks]. rewrite Hlt.
    unfold mbind at 1, Async_bind at 1.
    fold (chunk files k). fold (chunk_request files bodies k).
    rewrite E2. destruct bad as [|resp]; cbn [settle upload_breaks] in *.
    - injection Hbad as <-. reflexivity.
    - destruct (ok resp); [|discriminate]. cbn [negb].
      unfold mbind at 1, Async_bind at 1. unfold await_json, json.
      destruct (body resp); [discriminate|]. injection Hbad as <-. reflexivity. }
  pose proof (advances_trans _ _ _ _ _ _ _ A1 A2) as A.
  assert (Hrun : run = (Thrown e, w2)).
  { subst run. unfold uploadImagesChunked.
    destruct (Nat.leb_spec (length files) CHUNK_SIZE) as [|_]; [lia|].
    unfold mbind, Async_bind. rewrite E. reflexivity. }
  rewrite Hrun. cbn [fst snd].
  split; [reflexivity|].
  split.
  { destruct bad as [|resp]; cbn [upload_breaks] in Hbad.
    - left. congruence.
    - right. destruct (ok resp); [|discriminate].
      destruct (body resp); [discriminate|congruence]. }
  split; [destruct A as (_ & T & _); exact T|].
  split; [destruct A as (R & _); subst k;
          rewrite R, Hr, <- drop_drop, drop_app_length; reflexivity|].
  destruct A as (_ & T & _).
  rewrite <- (progress_calls_protocol (trace w2)), T.
  rewrite !progress_calls_app, progress_calls_protocol,
    progress_calls_chunk_events.
  simpl. rewrite app_nil_r. reflexivity.
Qed.

Lemma uploadImagesChunked_transport_failure_witness :
  fst (uploadImagesChunked (sample_files 250) (Some upload_callback)
         (World [ upload_ok "b1" 100; NetworkError; upload_ok "b1" 250 ]
            [] false false None))
  = Thrown (TypeError "Failed to fetch")
  /\ replies (snd (uploadImagesChunked (sample_files 250) (Some upload_callback)
                     (World [ upload_ok "b1" 100; NetworkError; upload_ok "b1" 250 ]
                        [] false false None)))
     = [ upload_ok "b1" 250 ].
Proof.
  destruct (uploadImagesChunked_transport_failure (sample_files 250)
              (Some upload_callback)
              (World [ upload_ok "b1" 100; NetworkError; upload_ok "b1" 250 ]
                 [] false false None)
              [ upload_ok "b1" 100 ] [ upload_ok_body "b1" 100 ] NetworkError
              (TypeError "Failed to fetch") [ upload_ok "b1" 250 ])
    as (H1 & _ & _ & H2 & _).
  - apply Nat.ltb_lt. vm_compute. reflexivity.
  - reflexivity.
  - constructor; [apply upload_ok_accepted|constructor].
  - reflexivity.
  - apply Nat.ltb_lt. vm_compute. reflexivity.
  - split; [exact H1|exact H2].
Defined.

(** ** Runs of the whole workflow *)

Lemma upload_callback_in_progress (f : upload_callback_t) uploaded total :
  Some upload_callback = Some f ->
  Forall in_progress (UploadProgress uploaded total :: map Ui (f uploaded total)).
Proof. intros [= <-]. repeat constructor. Qed.

Lemma poll_callback_in_progress (f : poll_callback_t) st :
  Some poll_callback = Some f ->
  Forall in_progress (PollProgress st :: map Ui (f st)).
Proof.
  intros [= <-]. unfold poll_callback, handleProgressUpdate.
  repeat destruct (strict_eq_str _ _); repeat constructor.
Qed.

Ltac in_progress_now :=
  first [ exact upload_callback_in_progress
        | exact poll_callback_in_progress
        | intros; exact I
        | repeat constructor ].

Lemma grows_refl w : grows w w.
Proof. exists []. split; [now rewrite app_nil_r|constructor]. Qed.

Lemma grows_trans w1 w2 w3 : grows w1 w2 -> grows w2 w3 -> grows w1 w3.
Proof.
  intros (e1 & T1 & F1) (e2 & T2 & F2). exists (e1 ++ e2). split.
  - now rewrite T2, T1, app_assoc.
  - apply Forall_app; auto.
Qed.

Lemma extends_of_run {A} (m : Async A) w r w' k evs :
  emits_only in_progress m -> m w = (r, w') -> advances w w' k evs ->
  extends w w' k evs.
Proof.
  intros G E Adv. split; [exact Adv|].
  destruct (G w) as (added & T & F). rewrite E in T. exists added. auto.
Qed.

Lemma extends_refl w : extends w w 0 [].
Proof. split; [apply advances_refl|apply grows_refl]. Qed.

Lemma extends_trans w1 w2 w3 k1 k2 e1 e2 :
  extends w1 w2 k1 e1 -> extends w2 w3 k2 e2 -> extends w1 w3 (k1 + k2) (e1 ++ e2).
Proof.
  intros (A1 & G1) (A2 & G2). split.
  - eapply advances_trans; eassumption.
  - eapply grows_trans; eassumption.
Qed.

Lemma extends_ui u w :
  in_progress (Ui u) -> extends w (emit (Ui u) w) 0 [].
Proof.
  intros Hu. split; [apply (advances_emit (Ui u) w)|]. exists [Ui u].
  split; [reflexivity|repeat constructor; exact Hu].
Qed.

Lemma extends_ui2 u1 u2 w :
  in_progress (Ui u1) -> in_progress (Ui u2) ->
  extends w (emit (Ui u2) (emit (Ui u1) w)) 0 [].
Proof.
  intros H1 H2.
  exact (extends_trans _ _ _ 0 0 [] [] (extends_ui u1 w H1) (extends_ui u2 _ H2)).
Qed.

Lemma extends_started w : extends w (started w) 0 [].
Proof.
  split.
  - unfold advances, started; cbn [replies trace terminate_during].
    rewrite drop_0, protocol_app. repeat split; reflexivity.
  - exists start_updates. split; [reflexivity|repeat constructor].
Qed.

Lemma extends_uploading i w : extends w (uploading i w) 0 [].
Proof.
  apply (extends_trans _ _ _ 0 0 [] [] (extends_started w)).
  apply extends_ui2; exact I.
Qed.

Lemma extends_queuing i w : extends w (queuing i w) 0 [].
Proof. apply extends_ui2; exact I. Qed.

Lemma extends_polling i w : extends w (polling i w) 0 [].
Proof. apply extends_ui2; exact I. Qed.

Lemma extends_syncing i w : extends w (syncing i w) 0 [].
Proof. apply extends_ui2; exact I. Qed.

(** What was added to the trace, and its protocol events. *)
Lemma extends_trace w w' k evs :
  extends w w' k evs ->
  exists added, trace w' = trace w ++ added /\ protocol added = evs
                /\ Forall in_progress added
                /\ replies w' = drop k (replies w).
Proof.
  intros ((R & T & _) & (added & G & F)). exists added. split; [exact G|].
  split; [|split; [exact F|exact R]].
  rewrite G, protocol_app in T. apply app_inv_head in T. exact T.
Qed.

Lemma extends_replies w w' k evs :
  extends w w' k evs -> replies w' = drop k (replies w).
Proof. intros ((R & _) & _). exact R. Qed.

(** [bind] after a first step that returns, and after one that does not. *)
Lemma bind_returns {A B} (m : Async A) (f : A -> Async B) w a w1 r :
  m w = (Returned a, w1) -> f a w1 = r -> (m ≫= f) w = r.
Proof. intros E1 E2. unfold mbind, Async_bind. rewrite E1. exact E2. Qed.

Lemma bind_throws {A B} (m : Async A) (f : A -> Async B) w e w1 :
  m w = (Thrown e, w1) -> (m ≫= f) w = (Thrown e, w1).
Proof. intros E1. unfold mbind, Async_bind. rewrite E1. reflexivity. Qed.

Lemma bind_pending {A B} (m : Async A) (f : A -> Async B) w w1 :
  m w = (Pending, w1) -> (m ≫= f) w = (Pending, w1).
Proof. intros E1. unfold mbind, Async_bind. rewrite E1. reflexivity. Qed.

Ltac after_ui := eapply bind_returns; [reflexivity|]; cbv beta.
Ltac after E := eapply bind_returns; [exact E|]; cbv beta.

(** *** The steps *)

(** A successful upload, in either path. *)
Lemma uploadImagesChunked_accepted files w ups bodies rest :
  (0 < length files)%nat ->
  replies w = ups ++ rest -> Forall2 accepted ups bodies ->
  length ups = ceil_div (length files) CHUNK_SIZE ->
  exists res w',
    uploadImagesChunked files (Some upload_callback) w = (Returned res, w')
    /\ extends w w' (length ups) (upload_events (Some upload_callback) files bodies)
    /\ js_get res (js "batch_id") = uploaded_batch_id files bodies.
Proof.
  intros Hn Hr HF HK. set (onProgress := Some upload_callback).
  assert (G : emits_only in_progress (uploadImagesChunked files onProgress))
    by (apply uploadImagesChunked_emits; in_progress_now).
  unfold upload_events, uploaded_batch_id.
  destruct (Nat.leb_spec (length files) CHUNK_SIZE) as [Hle|Hgt].
  - assert (H1 : ceil_div (length files) CHUNK_SIZE = 1%nat).
    { assert (Ha : (0 < ceil_div (length files) CHUNK_SIZE)%nat)
        by (apply ceil_div_spec; lia).
      assert (Hb : ~ (1 < ceil_div (length files) CHUNK_SIZE)%nat).
      { intros Hb. apply ceil_div_spec in Hb. lia. }
      lia. }
    rewrite H1 in HK.
    destruct ups as [|r [|? ?]]; try discriminate HK.
    inversion HF as [|? b ? more (resp & -> & Hok & Hbody) HF']; subst.
    inversion HF'; subst.
    destruct (fetch_reply (POST_upload_images files None) w (Response resp) rest Hr)
      as (w1 & E1 & A1).
    assert (E : uploadImagesChunked files onProgress w = (Returned b, w1)).
    { unfold uploadImagesChunked.
      destruct (Nat.leb_spec (length files) CHUNK_SIZE) as [_|]; [|lia].
      unfold uploadImages, mbind, Async_bind. rewrite E1. cbn [settle].
      rewrite Hok. cbn [negb]. unfold await_json, json. rewrite Hbody. reflexivity. }
    exists b, w1. split; [exact E|].
    split; [exact (extends_of_run _ _ _ _ _ _ G E A1)|reflexivity].
  - destruct (uploadImagesChunked_all_accepted files onProgress w ups bodies rest
                Hgt Hr HF HK) as (Hres & A).
    assert (E : uploadImagesChunked files onProgress w
                = (Returned (object_literal
                               [ (js "batch_id", batchId_after bodies);
                                 (js "file_count", of_nat (length files)) ]),
                   snd (uploadImagesChunked files onProgress w))).
    { rewrite <- Hres. apply surjective_pairing. }
    eexists _, _. split; [exact E|].
    split; [exact (extends_of_run _ _ _ _ _ _ G E A)|reflexivity].
Qed.

(** An upload refused at its chunk numbered [length ups + 1]. *)
Lemma uploadImagesChunked_refused files w ups bodies bad rest :
  (CHUNK_SIZE < length files)%nat ->
  replies w = ups ++ Response bad :: rest -> Forall2 accepted ups bodies ->
  ok bad = false ->
  (length ups < ceil_div (length files) CHUNK_SIZE)%nat ->
  exists w',
    uploadImagesChunked files (Some upload_callback) w
    = (Thrown (new_Error
                 (VStr (js ("Failed to upload chunk " ++ pretty (S (length ups)))))),
       w')
    /\ extends w w' (length ups + 1)
         (concat (map (chunk_events (Some upload_callback) files bodies)
                    (seq 0 (length ups)))
          ++ [Fetch (chunk_request files bodies (length ups))]).
Proof.
  intros Hn Hr HF Hbad Hk. set (k := length ups) in *.
  set (onProgress := Some upload_callback).
  assert (HKn : (ceil_div (length files) CHUNK_SIZE < length files)%nat)
    by (apply ceil_div_lt; exact Hn).
  destruct (upload_chunks_prefix files onProgress ups bodies (Response bad :: rest) w k
              Hr HF ltac:(lia) ltac:(lia) (length files - k)%nat) as (w1 & A1 & E1).
  replace (k + (length files - k))%nat with (length files) in E1 by lia.
  assert (Hr1 : replies w1 = Response bad :: rest).
  { destruct A1 as (R1 & _). rewrite R1, Hr. apply drop_app_length. }
  destruct (fetch_reply (chunk_request files bodies k) w1 (Response bad) rest Hr1)
    as (w2 & E2 & A2).
  assert (Hlt : (k * CHUNK_SIZE <? length files)%nat = true).
  { apply Nat.ltb_lt. apply ceil_div_spec. exact Hk. }
  assert (E : upload_chunks (length files) files onProgress 0 VNull 0 w
              = (Thrown (new_Error (failed_chunk_message (k * CHUNK_SIZE))), w2)).
  { rewrite E1. destruct (length files - k)%nat as [|f] eqn:Hf; [lia|].
    cbn [upload_chunks]. rewrite Hlt.
    unfold mbind at 1, Async_bind at 1.
    fold (chunk files k). fold (chunk_request files bodies k).
    rewrite E2. cbn [settle]. rewrite Hbad. reflexivity. }
  assert (Erun : uploadImagesChunked files onProgress w
                 = (Thrown (new_Error
                              (VStr (js ("Failed to upload chunk " ++ pretty (S k))))),
                    w2)).
  { unfold uploadImagesChunked.
    destruct (Nat.leb_spec (length files) CHUNK_SIZE) as [|_]; [lia|].
    unfold mbind, Async_bind. rewrite E, failed_chunk_message_index. reflexivity. }
  exists w2. split; [exact Erun|].
  eapply extends_of_run; [|exact Erun|exact (advances_trans _ _ _ _ _ _ _ A1 A2)].
  apply uploadImagesChunked_emits; in_progress_now.
Qed.

Lemma extractBatchAsync_accepted batchId schema customFilename w r rs b :
  replies w = r :: rs -> accepted r b ->
  exists w',
    extractBatchAsync batchId schema customFilename w = (Returned b, w')
    /\ extends w w' 1
         [Fetch (POST_extract_batch_async batchId schema customFilename)].
Proof.
  intros Hr (resp & -> & Hok & Hbody).
  destruct (fetch_reply (POST_extract_batch_async batchId schema customFilename) w
              (Response resp) rs Hr) as (w1 & E1 & A1).
  assert (E : extractBatchAsync batchId schema customFilename w = (Returned b, w1)).
  { unfold extractBatchAsync, mbind, Async_bind. rewrite E1. cbn [settle].
    rewrite Hok. cbn [negb]. unfold await_json, json. rewrite Hbody. reflexivity. }
  exists w1. split; [exact E|].
  eapply extends_of_run; [|exact E|exact A1].
  apply extractBatchAsync_emits; in_progress_now.
Qed.

Lemma extractBatch_accepted batchId schema customFilename w r rs b :
  replies w = r :: rs -> accepted r b ->
  exists w',
    extractBatch batchId schema customFilename w = (Returned b, w')
    /\ extends w w' 1 [Fetch (POST_extract_batch batchId schema customFilename)].
Proof.
  intros Hr (resp & -> & Hok & Hbody).
  destruct (fetch_reply (POST_extract_batch batchId schema customFilename) w
              (Response resp) rs Hr) as (w1 & E1 & A1).
  assert (E : extractBatch batchId schema customFilename w = (Returned b, w1)).
  { unfold extractBatch, mbind, Async_bind. rewrite E1. cbn [settle].
    rewrite Hok. cbn [negb]. unfold await_json, json. rewrite Hbody. reflexivity. }
  exists w1. split; [exact E|].
  eapply extends_of_run; [|exact E|exact A1].
  apply extractBatch_emits; in_progress_now.
Qed.

(** The poller up to the status that ends the polling. *)
Lemma pollJobStatus_last_tick jobId onProgress intervalMs w pre_r pre last_r last rest :
  replies w = pre_r ++ last_r :: rest ->
  Forall2 (fun r st => read_status r = Returned st) pre_r pre ->
  Forall (fun st => nonterminal (js_get st (js "status"))) pre ->
  read_status last_r = Returned last ->
  exists w',
    advances w w' (length pre_r + 1)
      (concat (map (waiting_tick_events jobId onProgress intervalMs) pre)
       ++ tick_events jobId onProgress last)
    /\ pollJobStatus jobId onProgress intervalMs w
       = match classify (js_get last (js "status")) with
         | IsCompleted => (Returned last, w')
         | IsError s => (Thrown (poll_error last s), w')
         | IsNotFound => (Thrown (new_Error (VStr (js "Job not found"))), w')
         | IsBroken e => (Thrown e, w')
         | IsOther =>
             poll (S (length rest)) jobId onProgress intervalMs
               (emit (SetTimeout intervalMs) w')
         end.
Proof.
  intros Hr Hpre Hnt Hlast.
  assert (Hfuel : S (length (replies w)) = (length pre_r + S (S (length rest)))%nat).
  { rewrite Hr, length_app. simpl. lia. }
  destruct (poll_waiting_ticks jobId onProgress intervalMs pre_r pre
              (S (S (length rest))) w (last_r :: rest) Hpre Hnt Hr)
    as (w1 & A1 & E1).
  assert (Hr1 : replies w1 = last_r :: rest).
  { destruct A1 as (R1 & _). rewrite R1, Hr, drop_app_length. reflexivity. }
  destruct (poll_tick jobId onProgress intervalMs (S (length rest)) w1 last_r rest
              last Hr1 Hlast) as (w2 & A2 & E2).
  exists w2. split.
  - exact (advances_trans _ _ _ _ _ _ _ A1 A2).
  - unfold pollJobStatus. rewrite Hfuel, E1. exact E2.
Qed.

Lemma pollJobStatus_completed jobId intervalMs w pre_r pre last_r last rest :
  replies w = pre_r ++ last_r :: rest ->
  Forall2 (fun r st => read_status r = Returned st) pre_r pre ->
  Forall (fun st => nonterminal (js_get st (js "status"))) pre ->
  read_status last_r = Returned last ->
  js_get last (js "status") = VStr (js "completed") ->
  exists w',
    pollJobStatus jobId (Some poll_callback) intervalMs w = (Returned last, w')
    /\ extends w w' (length pre_r + 1)
         (concat (map (waiting_tick_events jobId (Some poll_callback) intervalMs) pre)
          ++ tick_events jobId (Some poll_callback) last).
Proof.
  intros Hr Hpre Hnt Hlast Hc.
  destruct (pollJobStatus_last_tick jobId (Some poll_callback) intervalMs w pre_r pre
              last_r last rest Hr Hpre Hnt Hlast) as (w' & A & E).
  rewrite Hc in E. exists w'. split; [exact E|].
  eapply extends_of_run; [|exact E|exact A].
  apply pollJobStatus_emits; in_progress_now.
Qed.


(** *** The frame of [handleExtract] *)

Lemma ready_guards i :
  ready i ->
  (length (files i) =? 0)%nat = false
  /\ (length (filter (fun f => nonempty (trim f) = true) (schemaFields i)) =? 0)%nat
     = false.
Proof.
  intros (Hn & f & Hin & Hf). split; [apply Nat.eqb_neq; lia|].
  apply Nat.eqb_neq. intros H0. apply length_zero_iff_nil in H0.
  assert (Hin' : f ∈ filter (fun f => nonempty (trim f) = true) (schemaFields i))
    by (apply list_elem_of_filter; auto).
  rewrite H0 in Hin'. inversion Hin'.
Qed.

Lemma handleExtract_finally_finished w :
  handleExtract_finally w = (Returned tt, finished w).
Proof.
  unfold handleExtract_finally, finished, mbind, Async_bind, ui, log,
    set_abortController, emit, finally_updates. cbn [replies trace
    abortController signal_aborted terminate_during].
  rewrite <- !app_assoc. reflexivity.
Qed.

Lemma handleExtract_started i w :
  ready i ->
  handleExtract i w
  = try_finally
      (try_catch
         (handleExtract_try i (shouldUseAsync (processingMode i) (length (files i))))
         handleExtract_catch)
      handleExtract_finally (started w).
Proof.
  intros Hready. destruct (ready_guards i Hready) as (G1 & G2).
  unfold handleExtract. rewrite G1, G2.
  unfold mbind, Async_bind, ui, log, new_AbortController,
    set_abortController, emit, started, start_updates.
  cbn [replies trace abortController signal_aborted terminate_during].
  rewrite <- !app_assoc. reflexivity.
Qed.

(** Around a [try] block that returns, throws, or stays pending. *)
Lemma handleExtract_of_returned i w w1 :
  ready i ->
  handleExtract_try i (shouldUseAsync (processingMode i) (length (files i)))
    (started w) = (Returned tt, w1) ->
  handleExtract i w = (Returned tt, finished w1).
Proof.
  intros Hready E. rewrite (handleExtract_started i w Hready).
  unfold try_finally, try_catch. rewrite E.
  rewrite handleExtract_finally_finished. reflexivity.
Qed.

Lemma handleExtract_of_thrown i w e w1 :
  ready i -> plain_error e ->
  handleExtract_try i (shouldUseAsync (processingMode i) (length (files i)))
    (started w) = (Thrown e, w1) ->
  handleExtract i w = (Returned tt, finished (shown e w1)).
Proof.
  intros Hready He E. rewrite (handleExtract_started i w Hready).
  unfold try_finally, try_catch. rewrite E.
  assert (C : handleExtract_catch e w1 = (Returned tt, shown e w1)).
  { unfold handleExtract_catch. rewrite (plain_error_not_abort e He).
    unfold mbind, Async_bind, ui, log, emit, shown, failure_updates.
    cbn [replies trace abortController signal_aborted terminate_during].
    rewrite <- !app_assoc. reflexivity. }
  rewrite C, handleExtract_finally_finished. reflexivity.
Qed.

Lemma handleExtract_of_pending i w w1 :
  ready i ->
  handleExtract_try i (shouldUseAsync (processingMode i) (length (files i)))
    (started w) = (Pending, w1) ->
  handleExtract i w = (Pending, w1).
Proof.
  intros Hready E. rewrite (handleExtract_started i w Hready).
  unfold try_finally, try_catch. rewrite E. reflexivity.
Qed.

Lemma presented_emits n result w :
  emit (Ui (setStatus StatusComplete))
    (emit (Ui (setProgress (Some
             (Progress (of_nat n) (of_nat n) (of_Z 100) (VStr (js "complete"))
                VUndefined))))
       (emit (Ui (setResult (Some (js_get result (js "rows"),
                                   js_get result (js "excel_path"),
                                   js_get result (js "csv_path")))))
          w))
  = presented n result w.
Proof.
  unfold presented, emit, success_updates.
  cbn [replies trace abortController signal_aborted terminate_during].
  rewrite <- !app_assoc. reflexivity.
Qed.

(** The frame around an upload that throws. *)
Lemma handleExtract_upload_thrown i w e wB :
  ready i ->
  uploadImagesChunked (files i) (Some upload_callback) (uploading i w)
  = (Thrown e, wB) ->
  handleExtract i w = (Returned tt, finished (shown e wB)).
Proof.
  intros Hready EB.
  assert (He : plain_error e).
  { apply (uploadImagesChunked_throws (files i) (Some upload_callback)
             (uploading i w)). rewrite EB. reflexivity. }
  apply (handleExtract_of_thrown i w e wB Hready He).
  unfold handleExtract_try. cbv zeta.
  after_ui. after_ui. apply bind_throws. exact EB.
Qed.

(** The frame around the last step of the asynchronous workflow. *)
Lemma handleExtract_async_frame i w res wB job wC r wD :
  ready i ->
  shouldUseAsync (processingMode i) (length (files i)) = true ->
  uploadImagesChunked (files i) (Some upload_callback) (uploading i w)
  = (Returned res, wB) ->
  extractBatchAsync (js_get res (js "batch_id")) (buildSchema (schemaFields i))
    (chosen_filename i) (queuing i wB) = (Returned job, wC) ->
  pollJobStatus (js_get job (js "job_id")) (Some poll_callback) default_intervalMs
    (polling i wC) = (r, wD) ->
  handleExtract i w = concluded (length (files i)) r wD.
Proof.
  intros Hready Hmode EB EC ED.
  destruct r as [last|e|]; cbn [concluded].
  - rewrite <- presented_emits.
    apply (handleExtract_of_returned i w _ Hready).
    rewrite Hmode. unfold handleExtract_try. cbv zeta.
    after_ui. after_ui. after EB.
    eapply bind_returns.
    { after_ui. after_ui. after EC. after_ui. after_ui. after ED. reflexivity. }
    cbv beta. after_ui. after_ui. reflexivity.
  - assert (He : plain_error e).
    { apply (pollJobStatus_throws (js_get job (js "job_id")) (Some poll_callback)
               default_intervalMs (polling i wC)). rewrite ED. reflexivity. }
    apply (handleExtract_of_thrown i w e wD Hready He).
    rewrite Hmode. unfold handleExtract_try. cbv zeta.
    after_ui. after_ui. after EB.
    apply bind_throws.
    after_ui. after_ui. after EC. after_ui. after_ui.
    apply bind_throws. exact ED.
  - apply (handleExtract_of_pending i w wD Hready).
    rewrite Hmode. unfold handleExtract_try. cbv zeta.
    after_ui. after_ui. after EB.
    apply bind_pending.
    after_ui. after_ui. after EC. after_ui. after_ui.
    apply bind_pending. exact ED.
Qed.

(** The frame around the last step of the synchronous workflow. *)
Lemma handleExtract_sync_frame i w res wB r wC :
  ready i ->
  shouldUseAsync (processingMode i) (length (files i)) = false ->
  uploadImagesChunked (files i) (Some upload_callback) (uploading i w)
  = (Returned res, wB) ->
  extractBatch (js_get res (js "batch_id")) (buildSchema (schemaFields i))
    (chosen_filename i) (syncing i wB) = (r, wC) ->
  handleExtract i w = concluded (length (files i)) r wC.
Proof.
  intros Hready Hmode EB EC.
  destruct r as [result|e|]; cbn [concluded].
  - rewrite <- presented_emits.
    apply (handleExtract_of_returned i w _ Hready).
    rewrite Hmode. unfold handleExtract_try. cbv zeta.
    after_ui. after_ui. after EB.
    eapply bind_returns.
    { after_ui. after_ui. after EC. reflexivity. }
    cbv beta. after_ui. after_ui. reflexivity.
  - assert (He : plain_error e).
    { apply (extractBatch_throws (js_get res (js "batch_id"))
               (buildSchema (schemaFields i)) (chosen_filename i) (syncing i wB)).
      rewrite EC. reflexivity. }
    apply (handleExtract_of_thrown i w e wC Hready He).
    rewrite Hmode. unfold handleExtract_try. cbv zeta.
    after_ui. after_ui. after EB.
    apply bind_throws.
    after_ui. after_ui. apply bind_throws. exact EC.
  - apply (handleExtract_of_pending i w wC Hready).
    rewrite Hmode. unfold handleExtract_try. cbv zeta.
    after_ui. after_ui. after EB.
    apply bind_pending.
    after_ui. after_ui. apply bind_pending. exact EC.
Qed.

Lemma drop_script {A} (a : list A) x b y rest :
  drop (length a + 1 + (length b + 1)) (a ++ x :: b ++ y :: rest) = rest.
Proof.
  rewrite <- (drop_drop _ (length b + 1) (length a + 1)).
  rewrite <- (drop_drop _ 1 (length a)), drop_app_length.
  change (drop 1 (x :: b ++ y :: rest)) with (b ++ y :: rest).
  rewrite <- (drop_drop _ 1 (length b)), drop_app_length. reflexivity.
Qed.




(** The upload and the queuing of the job, in asynchronous mode. *)
Lemma handleExtract_queued i w ups bodies job_r job tail :
  ready i ->
  replies w = ups ++ job_r :: tail ->
  Forall2 accepted ups bodies ->
  length ups = ceil_div (length (files i)) CHUNK_SIZE ->
  accepted job_r job ->
  exists res wB wC,
    uploadImagesChunked (files i) (Some upload_callback) (uploading i w)
    = (Returned res, wB)
    /\ extractBatchAsync (js_get res (js "batch_id")) (buildSchema (schemaFields i))
         (chosen_filename i) (queuing i wB) = (Returned job, wC)
    /\ replies (polling i wC) = tail
    /\ extends w (polling i wC) (length ups + 1)
         (upload_events (Some upload_callback) (files i) bodies
          ++ [Fetch (POST_extract_batch_async (uploaded_batch_id (files i) bodies)
                       (buildSchema (schemaFields i)) (chosen_filename i))]).
Proof.
  intros Hready Hr HF HK Hjob. pose proof Hready as (Hn & _).
  destruct (uploadImagesChunked_accepted (files i) (uploading i w) ups bodies
              (job_r :: tail) Hn Hr HF HK) as (res & wB & EB & XB & Hbid).
  assert (HrB : replies (queuing i wB) = job_r :: tail).
  { change (replies (queuing i wB)) with (replies wB).
    rewrite (extends_replies _ _ _ _ XB).
    change (replies (uploading i w)) with (replies w).
    rewrite Hr. apply drop_app_length. }
  destruct (extractBatchAsync_accepted (js_get res (js "batch_id"))
              (buildSchema (schemaFields i)) (chosen_filename i) (queuing i wB)
              job_r tail job HrB Hjob) as (wC & EC & XC).
  exists res, wB, wC. split; [exact EB|]. split; [exact EC|].
  assert (X : extends w (polling i wC) (0 + (length ups + (0 + (1 + 0))))
                ([] ++ upload_events (Some upload_callback) (files i) bodies
                 ++ [] ++ [Fetch (POST_extract_batch_async (js_get res (js "batch_id"))
                                    (buildSchema (schemaFields i))
                                    (chosen_filename i))] ++ [])).
  { eapply extends_trans; [apply (extends_uploading i)|].
    eapply extends_trans; [exact XB|].
    eapply extends_trans; [apply (extends_queuing i)|].
    eapply extends_trans; [exact XC|].
    apply (extends_polling i). }
  cbn [app Nat.add] in X. rewrite Hbid in X.
  split; [|exact X].
  rewrite (extends_replies _ _ _ _ X), Hr, <- drop_drop, drop_app_length.
  reflexivity.
Qed.

(** X13. The asynchronous workflow, end to end.  For an input that passes
    the guards, in asynchronous mode, when the server accepts every upload
    and the extraction job, reports statuses that do not end the polling
    and then "completed": [handleExtract] uploads the files, queues one
    extraction with the batch id of the upload, the schema built from the
    fields and the chosen file name, polls the job it was given until the
    completed status, and makes no other request.  Until then it shows
    neither a result nor an error; at the end it shows the rows and the two
    paths of that last status, the progress at 100% and the status
    'complete', and its [finally] clause clears the loading state and the
    abort controller. *)
Theorem handleExtract_async_success (i : extract_input) (w : world)
    (ups : list reply) (bodies : list jsobj) (job_r : reply) (job : jsobj)
    (pre_r : list reply) (pre : list jsobj) (last_r : reply) (last : jsobj)
    (rest : list reply) :
  ready i ->
  shouldUseAsync (processingMode i) (length (files i)) = true ->
  replies w = ups ++ job_r :: pre_r ++ last_r :: rest ->
  Forall2 accepted ups bodies ->
  length ups = ceil_div (length (files i)) CHUNK_SIZE ->
  accepted job_r job ->
  Forall2 (fun r st => read_status r = Returned st) pre_r pre ->
  Forall (fun st => nonterminal (js_get st (js "status"))) pre ->
  read_status last_r = Returned last ->
  js_get last (js "status") = VStr (js "completed") ->
  let run := handleExtract i w in
  let jobId := js_get job (js "job_id") in
  fst run = Returned tt
  /\ replies (snd run) = rest
  /\ abortController (snd run) = false
  /\ exists added,
       trace (snd run)
       = trace w ++ added ++ success_updates (length (files i)) last
         ++ finally_updates
       /\ Forall in_progress added
       /\ protocol added
          = upload_events (Some upload_callback) (files i) bodies
            ++ [Fetch (POST_extract_batch_async (uploaded_batch_id (files i) bodies)
                         (buildSchema (schemaFields i)) (chosen_filename i))]
            ++ concat (map (waiting_tick_events jobId (Some poll_callback)
                              default_intervalMs) pre)
            ++ tick_events jobId (Some poll_callback) last.
Proof.
  intros Hready Hmode Hr HF HK Hjob Hpre Hnt Hlast Hdone run jobId.
  destruct (handleExtract_queued i w ups bodies job_r job (pre_r ++ last_r :: rest)
              Hready Hr HF HK Hjob) as (res & wB & wC & EB & EC & HrC & XC).
  destruct (pollJobStatus_completed jobId default_intervalMs (polling i wC)
              pre_r pre last_r last rest HrC Hpre Hnt Hlast Hdone) as (wD & ED & XD).
  pose proof (handleExtract_async_frame i w res wB job wC _ wD Hready Hmode EB EC ED)
    as Hrun.
  destruct (extends_trace _ _ _ _ (extends_trans _ _ _ _ _ _ _ XC XD))
    as (added & T & Padded & Fadded & R).
  subst run. rewrite Hrun. cbn [concluded fst snd]. split; [reflexivity|].
  split.
  { change (replies (finished (presented (length (files i)) last wD)))
      with (replies wD).
    rewrite R, Hr. apply drop_script. }
  split; [reflexivity|].
  exists added. split; [|split; [exact Fadded|]].
  - change (trace (finished (presented (length (files i)) last wD)))
      with ((trace wD ++ success_updates (length (files i)) last) ++ finally_updates).
    rewrite T, <- !app_assoc. reflexivity.
  - rewrite Padded, <- !app_assoc. reflexivity.
Qed.

(** X14. The synchronous workflow, end to end.  For an input that passes
    the guards, in synchronous mode, when the server accepts every upload
    and the extraction: [handleExtract] uploads the files, makes one
    extraction request with the batch id of the upload, the schema built
    from the fields and the chosen file name, and no other request (it never
    polls).  Until then it shows neither a result nor an error; at the end
    it shows the rows and the two paths of the answer, the progress at 100%
    and the status 'complete', and its [finally] clause clears the loading
    state and the abort controller. *)
Theorem handleExtract_sync_success (i : extract_input) (w : world)
    (ups : list reply) (bodies : list jsobj) (ext_r : reply) (result : jsobj)
    (rest : list reply) :
  ready i ->
  shouldUseAsync (processingMode i) (length (files i)) = false ->
  replies w = ups ++ ext_r :: rest ->
  Forall2 accepted ups bodies ->
  length ups = ceil_div (length (files i)) CHUNK_SIZE ->
  accepted ext_r result ->
  let run := handleExtract i w in
  fst run = Returned tt
  /\ replies (snd run) = rest
  /\ abortController (snd run) = false
  /\ exists added,
       trace (snd run)
       = trace w ++ added ++ success_updates (length (files i)) result
         ++ finally_updates
       /\ Forall in_progress added
       /\ protocol added
          = upload_events (Some upload_callback) (files i) bodies
            ++ [Fetch (POST_extract_batch (uploaded_batch_id (files i) bodies)
                         (buildSchema (schemaFields i)) (chosen_filename i))].
Proof.
  intros Hready Hmode Hr HF HK Hext run. pose proof Hready as (Hn & _).
  destruct (uploadImagesChunked_accepted (files i) (uploading i w) ups bodies
              (ext_r :: rest) Hn Hr HF HK) as (res & wB & EB & XB & Hbid).
  assert (HrB : replies (syncing i wB) = ext_r :: rest).
  { change (replies (syncing i wB)) with (replies wB).
    rewrite (extends_replies _ _ _ _ XB).
    change (replies (uploading i w)) with (replies w).
    rewrite Hr. apply drop_app_length. }
  destruct (extractBatch_accepted (js_get res (js "batch_id"))
              (buildSchema (schemaFields i)) (chosen_filename i) (syncing i wB)
              ext_r rest result HrB Hext) as (wC & EC & XC).
  pose proof (handleExtract_sync_frame i w res wB _ wC Hready Hmode EB EC) as Hrun.
  assert (X : extends w wC (0 + (length ups + (0 + 1)))
                ([] ++ upload_events (Some upload_callback) (files i) bodies
                 ++ [] ++ [Fetch (POST_extract_batch (js_get res (js "batch_id"))
                                    (buildSchema (schemaFields i))
                                    (chosen_filename i))])).
  { eapply extends_trans; [apply (extends_uploading i)|].
    eapply extends_trans; [exact XB|].
    eapply extends_trans; [apply (extends_syncing i)|]. exact XC. }
  cbn [app Nat.add] in X. rewrite Hbid in X.
  destruct (extends_trace _ _ _ _ X) as (added & T & Padded & Fadded & R).
  subst run. rewrite Hrun. cbn [concluded fst snd]. split; [reflexivity|].
  split.
  { change (replies (finished (presented (length (files i)) result wC)))
      with (replies wC).
    rewrite R, Hr, <- drop_drop, drop_app_length. reflexivity. }
  split; [reflexivity|].
  exists added. split; [|split; [exact Fadded|exact Padded]].
  change (trace (finished (presented (length (files i)) result wC)))
    with ((trace wC ++ success_updates (length (files i)) result) ++ finally_updates).
  rewrite T, <- !app_assoc. reflexivity.
Qed.


(** X16. A refused upload, end to end.  With more than 100 files, when
    the server accepts the uploads of the first [k] chunks and refuses the
    next one: [handleExtract], in either mode, makes no request after the
    refused upload (no extraction is started), shows the failure naming the
    chunk [k + 1] with the default icon, shows no result, clears the
    progress, the loading state and the abort controller, and its promise
    is fulfilled. *)
Theorem handleExtract_upload_refused (i : extract_input) (w : world)
    (ups : list reply) (bodies : list jsobj) (bad : response) (rest : list reply) :
  ready i ->
  (CHUNK_SIZE < length (files i))%nat ->
  replies w = ups ++ Response bad :: rest ->
  Forall2 accepted ups bodies ->
  ok bad = false ->
  (length ups < ceil_div (length (files i)) CHUNK_SIZE)%nat ->
  let run := handleExtract i w in
  let k := length ups in
  fst run = Returned tt
  /\ replies (snd run) = rest
  /\ abortController (snd run) = false
  /\ exists added,
       trace (snd run)
       = trace w ++ added ++ chunk_failure_updates k ++ finally_updates
       /\ Forall in_progress added
       /\ protocol added
          = concat (map (chunk_events (Some upload_callback) (files i) bodies)
                      (seq 0 k))
            ++ [Fetch (chunk_request (files i) bodies k)].
Proof.
  intros Hready Hn Hr HF Hbad Hk run k.
  destruct (uploadImagesChunked_refused (files i) (uploading i w) ups bodies bad rest
              Hn Hr HF Hbad Hk) as (wB & EB & XB).
  pose proof (handleExtract_upload_thrown i w _ wB Hready EB) as Hrun.
  destruct (extends_trace _ _ _ _
              (extends_trans _ _ _ _ _ _ _ (extends_uploading i w) XB))
    as (added & T & Padded & Fadded & R).
  subst run. rewrite Hrun. cbn [fst snd]. split; [reflexivity|].
  split.
  { match goal with |- replies (finished (shown ?e wB)) = _ =>
      change (replies (finished (shown e wB))) with (replies wB) end.
    rewrite R, Hr. cbn [Nat.add]. rewrite <- drop_drop, drop_app_length.
    reflexivity. }
  split; [reflexivity|].
  exists added. split; [|split; [exact Fadded|exact Padded]].
  match goal with |- trace (finished (shown ?e wB)) = _ =>
    change (trace (finished (shown e wB)))
      with ((trace wB ++ failure_updates e) ++ finally_updates) end.
  rewrite T, <- !app_assoc. reflexivity.
Qed.

Lemma handleExtract_async_success_witness :
  fst (handleExtract (sample_input 3 "auto")
         (World [ upload_ok "b1" 3; job_queued "job-1";
                  Response (Resp 200 (Some (job_status "processing" 1 3 33)));
                  Response (Resp 200 (Some job_completed)) ]
            [] false false None))
  = Returned tt.
Proof.
  apply (handleExtract_async_success (sample_input 3 "auto")
           (World [ upload_ok "b1" 3; job_queued "job-1";
                    Response (Resp 200 (Some (job_status "processing" 1 3 33)));
                    Response (Resp 200 (Some job_completed)) ]
              [] false false None)
           [ upload_ok "b1" 3 ] [ upload_ok_body "b1" 3 ]
           (job_queued "job-1") (object_literal [ (js "job_id", VStr (js "job-1")) ])
           [ Response (Resp 200 (Some (job_status "processing" 1 3 33))) ]
           [ job_status "processing" 1 3 33 ]
           (Response (Resp 200 (Some job_completed))) job_completed []).
  - split; [apply Nat.ltb_lt; vm_compute; reflexivity|].
    exists (js "name"). split; [apply list_elem_of_here|reflexivity].
  - reflexivity.
  - reflexivity.
  - constructor; [apply upload_ok_accepted|constructor].
  - vm_compute. reflexivity.
  - eexists. split; [reflexivity|]. split; reflexivity.
  - constructor; [reflexivity|constructor].
  - constructor; [|constructor].
    right; right. eexists. repeat split; discriminate.
  - reflexivity.
  - reflexivity.
Defined.

Lemma handleExtract_sync_success_witness :
  fst (handleExtract (sample_input 3 "sync")
         (World [ upload_ok "b1" 3; Response (Resp 200 (Some job_completed)) ]
            [] false false None))
  = Returned tt.
Proof.
  apply (handleExtract_sync_success (sample_input 3 "sync")
           (World [ upload_ok "b1" 3; Response (Resp 200 (Some job_completed)) ]
              [] false false None)
           [ upload_ok "b1" 3 ] [ upload_ok_body "b1" 3 ]
           (Response (Resp 200 (Some job_completed))) job_completed []).
  - split; [apply Nat.ltb_lt; vm_compute; reflexivity|].
    exists (js "name"). split; [apply list_elem_of_here|reflexivity].
  - reflexivity.
  - reflexivity.
  - constructor; [apply upload_ok_accepted|constructor].
  - vm_compute. reflexivity.
  - eexists. split; [reflexivity|]. split; reflexivity.
Defined.


Lemma handleExtract_upload_refused_witness :
  fst (handleExtract (sample_input 250 "auto")
         (World [ upload_ok "b1" 100; Response (Resp 500 None); upload_ok "b1" 250 ]
            [] false false None))
  = Returned tt
  /\ replies (snd (handleExtract (sample_input 250 "auto")
                     (World [ upload_ok "b1" 100; Response (Resp 500 None);
                              upload_ok "b1" 250 ]
                        [] false false None)))
     = [ upload_ok "b1" 250 ].
Proof.
  destruct (handleExtract_upload_refused (sample_input 250 "auto")
              (World [ upload_ok "b1" 100; Response (Resp 500 None);
                       upload_ok "b1" 250 ]
                 [] false false None)
              [ upload_ok "b1" 100 ] [ upload_ok_body "b1" 100 ] (Resp 500 None)
              [ upload_ok "b1" 250 ])
    as (H1 & H2 & _).
  - split; [apply Nat.ltb_lt; vm_compute; reflexivity|].
    exists (js "name"). split; [apply list_elem_of_here|reflexivity].
  - apply Nat.ltb_lt. vm_compute. reflexivity.
  - reflexivity.
  - constructor; [apply upload_ok_accepted|constructor].
  - reflexivity.
  - apply Nat.ltb_lt. vm_compute. reflexivity.
  - split; [exact H1|exact H2].
Defined.

(** ** Other functions of [App] *)

(** X17. [getWarningLevel] by intervals of the image count: "ok" below
    500, "caution" from 500 to 1999, "warning" from 2000 to 4999, "danger"
    from 5000 on.  The level does not depend on the processing mode: in
    automatic mode every count with a level other than "ok" is processed
    asynchronously, but in "sync" mode it is processed synchronously all the
    same, whatever the level. *)
Theorem getWarningLevel_spec (imageCount : nat) :
  (getWarningLevel imageCount = js "ok" <-> (imageCount < 500)%nat)
  /\ (getWarningLevel imageCount = js "caution" <-> (500 <= imageCount < 2000)%nat)
  /\ (getWarningLevel imageCount = js "warning" <-> (2000 <= imageCount < 5000)%nat)
  /\ (getWarningLevel imageCount = js "danger" <-> (5000 <= imageCount)%nat)
  /\ (getWarningLevel imageCount <> js "ok" ->
      shouldUseAsync (js "auto") imageCount = true
      /\ shouldUseAsync (js "sync") imageCount = false).
Proof.
  unfold getWarningLevel, LIMITS_danger, LIMITS_warning, LIMITS_recommended.
  destruct (Nat.leb_spec 5000 imageCount) as [H1|H1];
    [|destruct (Nat.leb_spec 2000 imageCount) as [H2|H2];
      [|destruct (Nat.leb_spec 500 imageCount) as [H3|H3]]].
  all: repeat split; intros; try lia; try reflexivity.
  all: try (exfalso;
            match goal with
            | H : js _ = js _ |- _ => vm_compute in H; discriminate H
            | H : js ?a <> js ?a |- _ => apply H; reflexivity
            end).
  all: unfold shouldUseAsync, LIMITS_syncMax;
    change (JsString.eqb (js "auto") (js "sync")) with false;
    change (JsString.eqb (js "auto") (js "async")) with false;
    cbv iota; apply Nat.ltb_lt; lia.
Qed.

Lemma js_length s : length (js s) = String.length s.
Proof.
  unfold js. rewrite length_map. induction s; simpl; congruence.
Qed.

Lemma pretty_N_go_length x s :
  (String.length s <= String.length (pretty_N_go x s))%nat.
Proof.
  revert s. induction (N.lt_wf_0 x) as [x _ IH]. intros s.
  destruct (decide (x = 0%N)) as [->|Hx]; [rewrite pretty_N_go_0; lia|].
  rewrite pretty_N_go_step by lia.
  etransitivity; [|apply IH; apply N.div_lt; lia]. simpl. lia.
Qed.

Lemma pretty_length_100 (k : nat) :
  (100 <= k)%nat -> (3 <= String.length (pretty k))%nat.
Proof.
  intros Hk. unfold pretty, pretty_nat, pretty, pretty_N.
  destruct (decide (N.of_nat k = 0%N)) as [H0|_]; [lia|].
  assert (H1 : (0 < N.of_nat k)%N) by lia.
  assert (H2 : (0 < N.of_nat k `div` 10)%N).
  { apply N.div_str_pos. lia. }
  assert (H3 : (0 < (N.of_nat k `div` 10) `div` 10)%N).
  { apply N.div_str_pos. split; [lia|].
    apply N.div_le_lower_bound; lia. }
  rewrite (pretty_N_go_step _ _ H1), (pretty_N_go_step _ _ H2),
    (pretty_N_go_step _ _ H3).
  etransitivity; [|apply pretty_N_go_length]. simpl. lia.
Qed.

Lemma padStart2_digits (k : nat) :
  (k < 100)%nat -> padStart2 k = [ digit (k / 10); digit (k mod 10) ].
Proof.
  intros Hk.
  assert (H : forallb (fun k => bool_decide
                         (padStart2 k = [ digit (k / 10); digit (k mod 10) ]))
                (seq 0 100) = true) by (vm_compute; reflexivity).
  rewrite forallb_forall in H.
  assert (Hin : In k (seq 0 100)) by (apply in_seq; lia).
  apply H in Hin. apply bool_decide_eq_true in Hin. exact Hin.
Qed.

Lemma padStart2_length_100 (k : nat) :
  (100 <= k)%nat -> (3 <= length (padStart2 k))%nat.
Proof.
  intros Hk. unfold padStart2. rewrite length_app, js_length.
  pose proof (pretty_length_100 k Hk). lia.
Qed.

Lemma list5_inj {A} (a b c d e a' b' c' d' e' : A) :
  [a; b; c; d; e] = [a'; b'; c'; d'; e'] -> a = a' /\ b = b' /\ d = d' /\ e = e'.
Proof. intros [= -> -> _ -> ->]. auto. Qed.

Lemma digit_inj a b : digit a = digit b -> a = b.
Proof. unfold digit. lia. Qed.

(** X18. [formatElapsedTime] shows a whole number of seconds below 100
    minutes as [mm:ss], five characters: the two decimal digits of the
    minutes, a colon, and the two decimal digits of the seconds within the
    minute, so that distinct times below 100 minutes are shown differently.
    From 100 minutes on the minutes take three digits or more and the text
    is longer than five characters. *)
Theorem formatElapsedTime_spec (seconds : nat) :
  let mins := (seconds / 60)%nat in
  let secs := (seconds mod 60)%nat in
  ((seconds < 100 * 60)%nat ->
   formatElapsedTime seconds
   = [ digit (mins / 10); digit (mins mod 10); colon;
       digit (secs / 10); digit (secs mod 10) ])
  /\ (length (formatElapsedTime seconds) = 5%nat <-> (seconds < 100 * 60)%nat)
  /\ (forall other, (seconds < 100 * 60)%nat -> (other < 100 * 60)%nat ->
      formatElapsedTime other = formatElapsedTime seconds -> other = seconds).
Proof.
  intros mins secs.
  assert (Hs : (secs < 100)%nat).
  { subst secs. pose proof (Nat.mod_upper_bound seconds 60). lia. }
  assert (F : forall n, (n < 100 * 60)%nat ->
            formatElapsedTime n
            = [ digit (n / 60 / 10); digit ((n / 60) mod 10); colon;
                digit (n mod 60 / 10); digit ((n mod 60) mod 10) ]).
  { intros n Hn. unfold formatElapsedTime. cbv zeta.
    rewrite !padStart2_digits; [reflexivity| |].
    - pose proof (Nat.mod_upper_bound n 60). lia.
    - apply Nat.Div0.div_lt_upper_bound. lia. }
  split; [exact (F seconds)|]. split; [split|].
  - intros HL. destruct (Nat.lt_ge_cases seconds (100 * 60)) as [|Hge]; [assumption|].
    exfalso. unfold formatElapsedTime in HL. cbv zeta in HL.
    rewrite length_app in HL. cbn [length] in HL.
    assert (Hm : (100 <= seconds / 60)%nat)
      by (apply Nat.div_le_lower_bound; lia).
    pose proof (padStart2_length_100 _ Hm).
    assert (H2 : (2 <= length (padStart2 (seconds mod 60)))%nat).
    { unfold padStart2. rewrite length_app, length_replicate. lia. }
    lia.
  - intros Hn. rewrite (F seconds Hn). reflexivity.
  - intros other Hn Ho E. rewrite (F seconds Hn), (F other Ho) in E.
    apply list5_inj in E as (E1 & E2 & E3 & E4).
    apply digit_inj in E1, E2, E3, E4.
    pose proof (Nat.div_mod_eq seconds 60). pose proof (Nat.div_mod_eq other 60).
    pose proof (Nat.div_mod_eq (seconds / 60) 10).
    pose proof (Nat.div_mod_eq (other / 60) 10).
    pose proof (Nat.div_mod_eq (seconds mod 60) 10).
    pose proof (Nat.div_mod_eq (other mod 60) 10).
    lia.
Qed.

Lemma formatElapsedTime_spec_witness :
  formatElapsedTime 754 = js "12:34".
Proof.
  destruct (formatElapsedTime_spec 754) as (H & _).
  rewrite H; [reflexivity|]. apply Nat.ltb_lt. reflexivity.
Defined.

(** ** The settings store *)

Lemma lookup_save_field (key : list N) (value : option (list N)) (st : Storage)
    (k : list N) :
  save_field key value st !! k
  = if decide (k = key) then
      match value with Some v => Some v | None => st !! k end
    else st !! k.
Proof.
  unfold save_field, setItem. destruct (decide (k = key)) as [->|Hne].
  - destruct value; [apply lookup_insert_eq|reflexivity].
  - destruct value; [|reflexivity]. apply lookup_insert_ne. congruence.
Qed.

Ltac storage_keys :=
  repeat match goal with
    | |- context [decide (?a = ?b)] =>
        let H := fresh in
        destruct (decide (a = b)) as [H|H];
        [first [discriminate H | subst]|]
    end.

(** What [saveSettings] leaves under each key. *)
Lemma lookup_saveSettings (p : settings_patch) (st : Storage) (k : list N) :
  saveSettings p st !! k
  = match patched p k with Some v => Some v | None => st !! k end.
Proof.
  unfold saveSettings, patched. rewrite !lookup_save_field.
  destruct (decide (k = AI_PROVIDER)) as [->|H1].
  { storage_keys. destruct (new_ai_provider p); reflexivity. }
  destruct (decide (k = AI_API_KEY)) as [->|H2].
  { storage_keys. destruct (new_ai_api_key p); reflexivity. }
  destruct (decide (k = CUSTOM_ENDPOINT)) as [->|H3].
  { storage_keys. destruct (new_custom_endpoint p); reflexivity. }
  destruct (decide (k = CUSTOM_MODEL)) as [->|H4].
  { storage_keys. destruct (new_custom_model p); reflexivity. }
  destruct (decide (k = OCR_PROVIDER)) as [->|H5].
  { storage_keys. destruct (new_ocr_provider p); reflexivity. }
  reflexivity.
Qed.

Lemma getItem_saveSettings (p : settings_patch) (st : Storage) (k : list N) :
  getItem (saveSettings p st) k
  = match patched p k with Some v => VStr v | None => getItem st k end.
Proof.
  unfold getItem. rewrite lookup_saveSettings. destruct (patched p k); reflexivity.
Qed.

(** X19. Saving then reading the settings.  After [saveSettings],
    [getStoredSettings] reads, for every field, the value that was given
    when it is not the empty string, the default of the field when the empty
    string was given ("openai" for the AI provider, "none" for the OCR
    provider), and what it read before when the field was not given.
    [saveSettings] writes under its five keys only, and saving the same
    settings twice is saving them once. *)
Theorem saveSettings_getStoredSettings (p : settings_patch) (st : Storage) :
  let before := getStoredSettings st in
  let after := getStoredSettings (saveSettings p st) in
  ai_provider after = read_back (js "openai") (new_ai_provider p) (ai_provider before)
  /\ ai_api_key after = read_back [] (new_ai_api_key p) (ai_api_key before)
  /\ custom_endpoint after
     = read_back [] (new_custom_endpoint p) (custom_endpoint before)
  /\ custom_model after = read_back [] (new_custom_model p) (custom_model before)
  /\ ocr_provider after
     = read_back (js "none") (new_ocr_provider p) (ocr_provider before)
  /\ (forall k, k ∉ STORAGE_KEYS -> saveSettings p st !! k = st !! k)
  /\ saveSettings p (saveSettings p st) = saveSettings p st.
Proof.
  intros before after. subst before after.
  unfold getStoredSettings.
  cbn [ai_provider ai_api_key custom_endpoint custom_model ocr_provider].
  rewrite !getItem_saveSettings.
  repeat split.
  - change (patched p AI_PROVIDER) with (new_ai_provider p).
    destruct (new_ai_provider p); reflexivity.
  - change (patched p AI_API_KEY) with (new_ai_api_key p).
    destruct (new_ai_api_key p); reflexivity.
  - change (patched p CUSTOM_ENDPOINT) with (new_custom_endpoint p).
    destruct (new_custom_endpoint p); reflexivity.
  - change (patched p CUSTOM_MODEL) with (new_custom_model p).
    destruct (new_custom_model p); reflexivity.
  - change (patched p OCR_PROVIDER) with (new_ocr_provider p).
    destruct (new_ocr_provider p); reflexivity.
  - intros k Hk. rewrite lookup_saveSettings.
    assert (E : patched p k = None); [|rewrite E; reflexivity].
    unfold patched, STORAGE_KEYS in *.
    repeat (case_decide; [exfalso; apply Hk; subst k; set_solver|]).
    reflexivity.
  - apply map_eq. intros k. rewrite !lookup_saveSettings.
    destruct (patched p k); reflexivity.
Qed.

Lemma lookup_clearAllSettings (st : Storage) (k : list N) :
  clearAllSettings st !! k = if decide (k ∈ STORAGE_KEYS) then None else st !! k.
Proof.
  unfold clearAllSettings, STORAGE_KEYS, removeItem. cbn [fold_left].
  destruct (decide (k ∈ _)) as [Hin|Hnin].
  - repeat (apply elem_of_cons in Hin as [->|Hin];
            [rewrite ?lookup_delete_eq;
             repeat (rewrite lookup_delete_ne
                       by (let Hd := fresh in
                           intros Hd; vm_compute in Hd; discriminate Hd));
             rewrite ?lookup_delete_eq; reflexivity|]).
    inversion Hin.
  - rewrite !lookup_delete_ne; [reflexivity|..]; intros <-; apply Hnin; set_solver.
Qed.

(** X20. [clearAllSettings] removes the five keys of the module and
    nothing else in the store; after it, [getStoredSettings] reads the
    defaults, [hasApiKey] is [null], no key is sent in the headers, and what
    was saved before is gone. *)
Theorem clearAllSettings_spec (st : Storage) :
  getStoredSettings (clearAllSettings st) = default_settings
  /\ hasApiKey (clearAllSettings st) = VNull
  /\ getApiKey (clearAllSettings st) = VStr []
  /\ (forall k, k ∉ STORAGE_KEYS -> clearAllSettings st !! k = st !! k)
  /\ (forall p, clearAllSettings (saveSettings p st) = clearAllSettings st).
Proof.
  assert (G : forall k, k ∈ STORAGE_KEYS -> getItem (clearAllSettings st) k = VNull).
  { intros k Hk. unfold getItem. rewrite lookup_clearAllSettings.
    destruct (decide (k ∈ STORAGE_KEYS)); [reflexivity|contradiction]. }
  assert (K1 : AI_PROVIDER ∈ STORAGE_KEYS) by (unfold STORAGE_KEYS; repeat constructor).
  assert (K2 : AI_API_KEY ∈ STORAGE_KEYS) by (unfold STORAGE_KEYS; repeat constructor).
  assert (K3 : CUSTOM_ENDPOINT ∈ STORAGE_KEYS) by (unfold STORAGE_KEYS; repeat constructor).
  assert (K4 : CUSTOM_MODEL ∈ STORAGE_KEYS) by (unfold STORAGE_KEYS; repeat constructor).
  assert (K5 : OCR_PROVIDER ∈ STORAGE_KEYS) by (unfold STORAGE_KEYS; repeat constructor).
  split; [|split; [|split; [|split]]].
  - unfold getStoredSettings. rewrite !G by assumption. reflexivity.
  - unfold hasApiKey. rewrite G by assumption. reflexivity.
  - unfold getApiKey. rewrite G by assumption. reflexivity.
  - intros k Hk. rewrite lookup_clearAllSettings.
    destruct (decide (k ∈ STORAGE_KEYS)); [contradiction|reflexivity].
  - intros p. apply map_eq. intros k. rewrite !lookup_clearAllSettings.
    destruct (decide (k ∈ STORAGE_KEYS)) as [|Hk]; [reflexivity|].
    rewrite lookup_saveSettings.
    assert (E : patched p k = None); [|rewrite E; reflexivity].
    unfold patched, STORAGE_KEYS in *.
    repeat (case_decide; [exfalso; apply Hk; subst k; set_solver|]).
    reflexivity.
Qed.

(** X21. [hasApiKey] is truthy exactly when a key is stored that is not
    made of white space only.  Its value is not always a boolean: it is
    [null] when no key is stored and the empty string when the empty string
    is stored.  [getApiKey] is the stored key, untrimmed, and the empty
    string when none is stored; [getAuthHeaders] sends exactly that value as
    [X-AI-API-Key], with four other headers, none of which carries the OCR
    provider. *)
Theorem hasApiKey_spec (st : Storage) :
  (truthy (hasApiKey st) = true
   <-> exists key, st !! AI_API_KEY = Some key /\ trim key <> [])
  /\ (st !! AI_API_KEY = None -> hasApiKey st = VNull)
  /\ (st !! AI_API_KEY = Some [] -> hasApiKey st = VStr [])
  /\ (forall key, st !! AI_API_KEY = Some key -> key <> [] ->
      hasApiKey st = VBool (bool_decide (trim key <> []))
      /\ getApiKey st = VStr key)
  /\ (st !! AI_API_KEY = None -> getApiKey st = VStr [])
  /\ js_get (getAuthHeaders st) (js "X-AI-API-Key") = getApiKey st
  /\ own_key_count (getAuthHeaders st) = 5%nat.
Proof.
  assert (B : forall key : list N,
             (0 <? length (trim key))%nat = bool_decide (trim key <> [])).
  { intros key. destruct (trim key); reflexivity. }
  unfold hasApiKey, getApiKey, getItem.
  split; [|split; [|split; [|split; [|split; [|split]]]]].
  - destruct (st !! AI_API_KEY) as [key|] eqn:E.
    + destruct key as [|c key]; cbn [nonempty truthy].
      * split; [discriminate|]. intros (k & [= <-] & Hk). contradiction Hk.
        reflexivity.
      * rewrite B. split.
        -- intros Ht. exists (c :: key). split; [reflexivity|].
           apply bool_decide_eq_true in Ht. exact Ht.
        -- intros (k & [= <-] & Hk). apply bool_decide_eq_true. exact Hk.
    + split; [discriminate|]. intros (k & [=] & _).
  - intros ->. reflexivity.
  - intros ->. reflexivity.
  - intros key -> Hkey. destruct key as [|c key]; [contradiction|].
    cbn [nonempty]. rewrite B. split; reflexivity.
  - intros ->. reflexivity.
  - reflexivity.
  - reflexivity.
Qed.

Lemma hasApiKey_spec_witness :
  hasApiKey (setItem AI_API_KEY (js "  ") ∅) = VBool false
  /\ getApiKey (setItem AI_API_KEY (js "  ") ∅) = VStr (js "  ").
Proof.
  destruct (hasApiKey_spec (setItem AI_API_KEY (js "  ") ∅))
    as (_ & _ & _ & H & _).
  apply (H (js "  ")); [reflexivity|discriminate].
Defined.

(** ** The editors of the field list and of the file list *)

Lemma imap_shift {A} (l : list A) (n : nat) :
  imap ((fun i x => ((n + i)%nat, x)) ∘ S) l
  = imap (fun i x => ((S n + i)%nat, x)) l.
Proof. apply imap_ext. intros i y _. simpl. f_equal. lia. Qed.

Lemma filter_index_keeps {A} (l : list A) (n k : nat) :
  (k < n)%nat ->
  filter (fun p : nat * A => fst p <> k) (imap (fun i x => ((n + i)%nat, x)) l)
  = imap (fun i x => ((n + i)%nat, x)) l.
Proof.
  revert n. induction l as [|y l IH]; intros n Hk; [reflexivity|].
  cbn [imap]. rewrite filter_cons_True by (simpl; lia). f_equal.
  rewrite imap_shift. apply IH. lia.
Qed.

Lemma snd_imap_index {A} (l : list A) (n : nat) :
  snd <$> imap (fun i x => ((n + i)%nat, x)) l = l.
Proof.
  revert n. induction l as [|y l IH]; intros n; [reflexivity|].
  cbn [imap]. rewrite fmap_cons, imap_shift, IH. reflexivity.
Qed.

Lemma filter_out_index_shift {A} (l : list A) (k index : nat) :
  snd <$> filter (fun p => fst p <> (k + index)%nat)
            (imap (fun i x => ((k + i)%nat, x)) l)
  = delete index l.
Proof.
  revert k index. induction l as [|x l IH]; intros k index; [reflexivity|].
  cbn [imap]. rewrite imap_shift. destruct index as [|index].
  - rewrite filter_cons_False by (simpl; lia).
    rewrite filter_index_keeps by lia. apply snd_imap_index.
  - rewrite filter_cons_True by (simpl; lia). rewrite fmap_cons.
    change (delete (S index) (x :: l)) with (x :: delete index l).
    cbn [snd]. f_equal.
    replace (k + S index)%nat with (S k + index)%nat by lia. apply IH.
Qed.

Lemma filter_out_index_delete {A} (index : nat) (l : list A) :
  filter_out_index index l = delete index l.
Proof.
  unfold filter_out_index.
  rewrite <- (filter_out_index_shift l 0 index). reflexivity.
Qed.

(** X22. Removing a row.  [removeField] of the schema editor and
    [removeFile] of the image uploader, both written as a filter on the
    index, delete exactly the element at that index and keep the others in
    order; an index that is not one of a row changes nothing.
    [removeFile] treats the files and their previews alike, so that each
    file keeps its preview. *)
Theorem removeField_removeFile_spec {P} (fields : list (list N))
    (files : list File) (previews : list P) (index : nat) :
  removeField fields index = take index fields ++ drop (S index) fields
  /\ ((index < length fields)%nat ->
      S (length (removeField fields index)) = length fields)
  /\ ((length fields <= index)%nat -> removeField fields index = fields)
  /\ removeFile files previews index
     = (take index files ++ drop (S index) files,
        take index previews ++ drop (S index) previews)
  /\ (length files = length previews ->
      zip (fst (removeFile files previews index))
          (snd (removeFile files previews index))
      = filter_out_index index (zip files previews)).
Proof.
  unfold removeField, removeFile. cbn [fst snd].
  rewrite !filter_out_index_delete, !delete_take_drop.
  split; [reflexivity|]. split; [|split; [|split; [reflexivity|]]].
  - intros Hi. rewrite length_app, length_take, length_drop. lia.
  - intros Hi. rewrite take_ge, drop_ge by lia. apply app_nil_r.
  - intros HL. rewrite zip_with_app.
    + rewrite <- zip_with_take, <- zip_with_drop. reflexivity.
    + rewrite !length_take. lia.
Qed.

Lemma removeField_removeFile_spec_witness :
  S (length (removeField initial_fields 1)) = length initial_fields
  /\ removeField initial_fields 3 = initial_fields.
Proof.
  destruct (removeField_removeFile_spec (P := nat) initial_fields [] [] 1)
    as (_ & H1 & _).
  destruct (removeField_removeFile_spec (P := nat) initial_fields [] [] 3)
    as (_ & _ & H2 & _).
  split; [apply H1|apply H2]; vm_compute; lia.
Defined.

Lemma buildSchema_snoc (fields : list (list N)) (f : list N) :
  buildSchema (fields ++ [f])
  = if nonempty (trim f) then js_set_null (buildSchema fields) (trim f)
    else buildSchema fields.
Proof. unfold buildSchema. rewrite fold_left_app. reflexivity. Qed.

(** X23. Editing the field list.  A row added by [addField] is blank: it
    changes neither the schema [buildSchema] makes of the list nor the
    fields that count for the guard of [handleExtract], and removing it
    again gives the list back.  [updateField] at the index of a row changes
    that row and no other; removing the row afterwards is removing it
    before. *)
Theorem SchemaEditor_edits (fields : list (list N)) :
  buildSchema (addField fields) = buildSchema fields
  /\ filter (fun f => nonempty (trim f) = true) (addField fields)
     = filter (fun f => nonempty (trim f) = true) fields
  /\ removeField (addField fields) (length fields) = fields
  /\ (forall index value,
      (index < length fields)%nat ->
      exists updated,
        updateField fields index value = Some updated
        /\ length updated = length fields
        /\ updated !! index = Some value
        /\ (forall j, j <> index -> updated !! j = fields !! j)
        /\ removeField updated index = removeField fields index).
Proof.
  split; [|split; [|split]].
  - unfold addField. rewrite buildSchema_snoc. reflexivity.
  - unfold addField. rewrite filter_app.
    rewrite (filter_cons_False _ []) by (simpl; discriminate).
    rewrite filter_nil. apply app_nil_r.
  - unfold removeField, addField. rewrite filter_out_index_delete, delete_take_drop.
    rewrite take_app_length, drop_ge by (rewrite length_app; simpl; lia).
    apply app_nil_r.
  - intros index value Hi. exists (<[index := value]> fields).
    unfold updateField. destruct (Nat.ltb_spec index (length fields)) as [_|]; [|lia].
    split; [reflexivity|]. split; [apply length_insert|].
    split; [apply list_lookup_insert_eq; exact Hi|].
    split; [intros j Hj; apply list_lookup_insert_ne; congruence|].
    unfold removeField. rewrite !filter_out_index_delete, !delete_take_drop.
    rewrite take_insert_ge by lia. rewrite drop_insert_lt by lia. reflexivity.
Qed.

Lemma SchemaEditor_edits_witness :
  exists updated,
    updateField initial_fields 1 (js "Birth year") = Some updated
    /\ updated !! 1%nat = Some (js "Birth year").
Proof.
  destruct (SchemaEditor_edits initial_fields) as (_ & _ & _ & H).
  destruct (H 1%nat (js "Birth year")) as (updated & H1 & _ & H2 & _).
  - vm_compute. lia.
  - exists updated. split; [exact H1|exact H2].
Defined.













Lemma buildSchema_nonempty_witness :
  (0 < own_key_count (buildSchema initial_fields))%nat.
Proof.
  apply (buildSchema_nonempty initial_fields).
  - repeat constructor; vm_compute; discriminate.
  - vm_compute. discriminate.
Defined.

Lemma handleExtract_guards_witness :
  handleExtract {| files := sample_files 2;
                   schemaFields := [ js "  "; [] ];
                   processingMode := js "auto";
                   customFilename := [];
                   defaultFilename := js "survey" |}
    (World [ upload_ok "b1" 2 ] [] false false None)
  = (Returned tt,
     World [ upload_ok "b1" 2 ] [ Ui (setError (Some PleaseDefineAField)) ]
       false false None).
Proof.
  destruct (handleExtract_guards
              {| files := sample_files 2;
                 schemaFields := [ js "  "; [] ];
                 processingMode := js "auto";
                 customFilename := [];
                 defaultFilename := js "survey" |}
              (World [ upload_ok "b1" 2 ] [] false false None)) as (_ & H).
  apply H.
  - vm_compute. discriminate.
  - repeat constructor.
Defined.

(** ** Settling and terminating *)

(** X27. When [handleExtract], called with at least one file and one
    field that is not blank, settles, its promise is fulfilled; its first
    updates were the ones that start a run and its last ones those of the
    [finally] clause, which clear the loading state, the start time and the
    abort controller, whatever happened in between; with the controller
    cleared, a later [handleTerminate] does nothing. *)
Theorem handleExtract_settled (i : extract_input) (w : world) :
  ready i ->
  fst (handleExtract i w) <> Pending ->
  let run := handleExtract i w in
  fst run = Returned tt
  /\ (exists added,
        trace (snd run) = trace w ++ start_updates ++ added ++ finally_updates)
  /\ abortController (snd run) = false
  /\ handleTerminate (snd run) = snd run.
Proof.
  intros Hready Hsettled run. subst run.
  set (useAsync := shouldUseAsync (processingMode i) (length (files i))) in *.
  assert (G : emits_only (fun _ => True) (handleExtract_try i useAsync)).
  { apply handleExtract_try_emits; intros; repeat split; auto.
    apply Forall_forall. auto. }
  destruct (G (started w)) as (evs & T & _).
  destruct (handleExtract_try i useAsync (started w)) as [[[]|e|] w1] eqn:E;
    cbn [snd] in T.
  - rewrite (handleExtract_of_returned i w w1 Hready E). cbn [fst snd].
    split; [reflexivity|]. split; [|split; reflexivity].
    exists evs. cbn [finished trace]. rewrite T. cbn [started trace].
    rewrite <- !app_assoc. reflexivity.
  - assert (He : plain_error e).
    { apply (handleExtract_try_throws i useAsync (started w)). rewrite E.
      reflexivity. }
    rewrite (handleExtract_of_thrown i w e w1 Hready He E). cbn [fst snd].
    split; [reflexivity|]. split; [|split; reflexivity].
    exists (evs ++ failure_updates e). cbn [finished shown trace]. rewrite T.
    cbn [started trace]. rewrite <- !app_assoc. reflexivity.
  - rewrite (handleExtract_of_pending i w w1 Hready E) in Hsettled.
    contradiction Hsettled. reflexivity.
Qed.

Lemma handleExtract_settled_witness :
  abortController
    (snd (handleExtract (sample_input 3 "sync")
            (World [ upload_ok "b1" 3; Response (Resp 500 None) ]
               [] false false None)))
  = false.
Proof.
  destruct (handleExtract_settled (sample_input 3 "sync")
              (World [ upload_ok "b1" 3; Response (Resp 500 None) ]
                 [] false false None)) as (_ & _ & H & _).
  - split; [apply Nat.ltb_lt; vm_compute; reflexivity|].
    exists (js "name"). split; [apply list_elem_of_here|reflexivity].
  - vm_compute. discriminate.
  - exact H.
Defined.

(** X28. [handleTerminate] acts once.  With an abort controller in the
    state it aborts the signal, clears the controller and resets the
    display, adding its five events to the trace; it touches neither the
    replies of the server nor the requests made.  Without a controller it
    does nothing; so that a second call in a row does nothing. *)
Theorem handleTerminate_once (w : world) :
  handleTerminate (handleTerminate w) = handleTerminate w
  /\ (abortController w = false -> handleTerminate w = w)
  /\ (abortController w = true ->
      trace (handleTerminate w) = trace w ++ terminate_events
      /\ signal_aborted (handleTerminate w) = true)
  /\ abortController (handleTerminate w) = false
  /\ replies (handleTerminate w) = replies w
  /\ fetches (trace (handleTerminate w)) = fetches (trace w).
Proof.
  unfold handleTerminate. destruct (abortController w) eqn:E.
  - cbn [emit abortController replies trace signal_aborted terminate_during].
    split; [reflexivity|]. split; [discriminate|].
    split; [|split; [reflexivity|split; [reflexivity|]]].
    + intros _. split; [|reflexivity].
      unfold terminate_events. rewrite <- !app_assoc. reflexivity.
    + rewrite !fetches_app. cbn. rewrite !app_nil_r. reflexivity.
  - rewrite E. split; [reflexivity|]. split; [reflexivity|].
    split; [discriminate|]. repeat split; reflexivity.
Qed.

Lemma handleTerminate_once_witness :
  handleTerminate (World [] [] false false None) = World [] [] false false None.
Proof.
  destruct (handleTerminate_once (World [] [] false false None)) as (_ & H & _).
  apply H. reflexivity.
Defined.

Lemma uploadImagesChunked_single_call_silent_witness :
  progress_calls
    (trace (snd (uploadImagesChunked (sample_files 100) (Some upload_callback)
                   (World [ upload_ok "b1" 100 ] [] false false None))))
  = [].
Proof.
  apply (uploadImagesChunked_single_call_silent (sample_files 100)
           (Some upload_callback)
           (World [ upload_ok "b1" 100 ] [] false false None)).
  apply Nat.leb_le. vm_compute. reflexivity.
Defined.
